(** * prodcal: production-calendar scraper, range aggregation and iCalendar output

    A shallow embedding of [src/index.ts] and the properties of its
    aggregation / serialization pipeline.

    Conventions of the embedding.
    - A JavaScript string is a sequence of UTF-16 code units: [jsstring] is
      [list Z].  [str] turns a literal into such a sequence.
    - A JavaScript number that can be [NaN] is an [option Z] ([None] is
      [NaN]); every number the program handles is an integer time value.
    - [undefined] is [None] in an [option].
    - An exception is the [Throw] case of [result].
    - What the language leaves to the engine, [Date.parse] of a string
      outside the standard date-only forms and the message of the
      RangeError of [toISOString], are the parameters [implParse] and
      [implRangeMessage] of the section [Runtime]; the random bytes behind
      [makeId] are the explicit source [entropy], threaded through the
      monad [M]. *)

From Stdlib Require Import ZArith List Bool Lia String Ascii Permutation Sorted.
Import ListNotations.
Local Open Scope Z_scope.

(** ** Strings *)

Definition jsstring := list Z.

(** Code units of a literal written in this file (UTF-8 bytes, decoded for
    the Basic Multilingual Plane). *)
Fixpoint utf16 (bytes : list Z) : jsstring :=
  match bytes with
  | [] => []
  | b0 :: r0 =>
      if b0 <? 128 then b0 :: utf16 r0
      else match r0 with
           | [] => []
           | b1 :: r1 =>
               if b0 <? 224 then (b0 mod 32 * 64 + b1 mod 64) :: utf16 r1
               else match r1 with
                    | [] => []
                    | b2 :: r2 =>
                        (b0 mod 16 * 4096 + b1 mod 64 * 64 + b2 mod 64) :: utf16 r2
                    end
           end
  end.

Definition str (s : string) : jsstring :=
  utf16 (map (fun a => Z.of_nat (nat_of_ascii a)) (list_ascii_of_string s)).

Definition LF : Z := 10.
Definition HYPHEN : Z := 45.

Definition jsstring_eqb (a b : jsstring) : bool :=
  if list_eq_dec Z.eq_dec a b then true else false.

(** ECMAScript [WhiteSpace] and [LineTerminator] code points: what [\s]
    matches and what [String.prototype.trim] removes. *)
Definition isLineTerminator (c : Z) : bool :=
  (c =? 10) || (c =? 13) || (c =? 8232) || (c =? 8233).

Definition isWhiteSpace (c : Z) : bool :=
  (c =? 9) || (c =? 11) || (c =? 12) || (c =? 32) || (c =? 160)
  || (c =? 5760) || ((8192 <=? c) && (c <=? 8202))
  || (c =? 8239) || (c =? 8287) || (c =? 12288) || (c =? 65279)
  || isLineTerminator c.

Definition isDigit (c : Z) : bool := (48 <=? c) && (c <=? 57).

(** [s.split(sep)] for a one-character separator: never empty. *)
Fixpoint split (sep : Z) (s : jsstring) : list jsstring :=
  match s with
  | [] => [[]]
  | c :: rest =>
      if c =? sep then [] :: split sep rest
      else match split sep rest with
           | [] => [[c]]
           | piece :: pieces => (c :: piece) :: pieces
           end
  end.

(** [parts.join(sep)]. *)
Fixpoint join (sep : jsstring) (parts : list jsstring) : jsstring :=
  match parts with
  | [] => []
  | [p] => p
  | p :: ps => p ++ sep ++ join sep ps
  end.

(** [s.padStart(2, '0')]. *)
Definition padStart2 (s : jsstring) : jsstring :=
  repeat 48 (2 - List.length s) ++ s.

Fixpoint trimStart (s : jsstring) : jsstring :=
  match s with
  | c :: rest => if isWhiteSpace c then trimStart rest else s
  | [] => []
  end.

Definition trimEnd (s : jsstring) : jsstring := rev (trimStart (rev s)).

Definition trim (s : jsstring) : jsstring := trimEnd (trimStart s).

(** ** The [text] template tag *)

(** [el.replace(/\n.\s{2,}/gi, '\n')].  The scan copies code units until it
    meets a line feed followed by one code unit that is not a line
    terminator and by at least two white-space code units; the match then
    swallows that code unit ([Dot]) and the whole white-space run
    ([Spaces], the quantifier is greedy) and leaves one line feed. *)
Inductive scanMode := Copy | Dot | Spaces.

Definition indentAhead (rest : jsstring) : bool :=
  match rest with
  | d :: w1 :: w2 :: _ => negb (isLineTerminator d) && isWhiteSpace w1 && isWhiteSpace w2
  | _ => false
  end.

Fixpoint stripIndentFrom (m : scanMode) (s : jsstring) : jsstring :=
  match s with
  | [] => []
  | c :: rest =>
      let copy :=
        if (c =? LF) && indentAhead rest
        then LF :: stripIndentFrom Dot rest
        else c :: stripIndentFrom Copy rest in
      match m with
      | Copy => copy
      | Dot => stripIndentFrom Spaces rest
      | Spaces => if isWhiteSpace c then stripIndentFrom Spaces rest else copy
      end
  end.

Definition stripIndent (s : jsstring) : jsstring := stripIndentFrom Copy s.

(** [.replace(/^\n/gi, '')]: without the [m] flag [^] is the start of input. *)
Definition dropLeadingLF (s : jsstring) : jsstring :=
  match s with
  | c :: rest => if c =? LF then rest else s
  | [] => []
  end.

(** [param[index] || '']: [undefined] and the empty string both give ['']. *)
Definition orEmpty (p : option (option jsstring)) : jsstring :=
  match p with
  | Some (Some s) => s
  | _ => []
  end.

Fixpoint mapi {A B} (f : A -> nat -> B) (i : nat) (l : list A) : list B :=
  match l with
  | [] => []
  | x :: xs => f x i :: mapi f (S i) xs
  end.

Definition text (raw : list jsstring) (param : list (option jsstring)) : jsstring :=
  trim (join [LF]
    (mapi (fun el index =>
             let template := dropLeadingLF (stripIndent el) in
             template ++ orEmpty (nth_error param index))
          0%nat raw)).

(** ** formatDate *)

Definition formatDate (date : jsstring) (sep : jsstring) : jsstring :=
  join sep (map padStart2 (split HYPHEN date)).

(** ** Calendar arithmetic of the ECMAScript [Date] object

    Time values are milliseconds since 1970-01-01T00:00:00Z in the
    proleptic Gregorian calendar. *)

Definition msPerDay : Z := 24 * 60 * 60 * 1000.

Definition InLeapYear (y : Z) : bool :=
  (y mod 4 =? 0) && (negb (y mod 100 =? 0) || (y mod 400 =? 0)).

Definition DayFromYear (y : Z) : Z :=
  365 * (y - 1970) + (y - 1969) / 4 - (y - 1901) / 100 + (y - 1601) / 400.

Definition leapDay (y : Z) : Z := if InLeapYear y then 1 else 0.

(** Days of the year that precede the first day of month [m] (1..12). *)
Definition daysBeforeMonth (y m : Z) : Z :=
  if m <=? 1 then 0
  else if m =? 2 then 31
  else leapDay y +
       (if m =? 3 then 59 else if m =? 4 then 90 else if m =? 5 then 120
        else if m =? 6 then 151 else if m =? 7 then 181 else if m =? 8 then 212
        else if m =? 9 then 243 else if m =? 10 then 273 else if m =? 11 then 304
        else 334).

Definition daysInMonth (y m : Z) : Z :=
  if m =? 2 then 28 + leapDay y
  else if (m =? 4) || (m =? 6) || (m =? 9) || (m =? 11) then 30
  else 31.

(** A calendar date: year, month 1..12, day of the month. *)
Record date := mkDate { year : Z; month : Z; day : Z }.

Definition validDate (d : date) : Prop :=
  1 <= month d <= 12 /\ 1 <= day d <= daysInMonth (year d) (month d).

Definition validDateb (d : date) : bool :=
  (1 <=? month d) && (month d <=? 12) && (1 <=? day d)
  && (day d <=? daysInMonth (year d) (month d)).

(** Day number of a date, counted from 1970-01-01. *)
Definition MakeDay (d : date) : Z :=
  DayFromYear (year d) + daysBeforeMonth (year d) (month d) + (day d - 1).

(** [YearFromTime]: the year whose first day is the last one not after day
    [n].  Days are counted in 400-year cycles from 2001-01-01 (day 11323),
    then centuries, 4-year groups and years. *)
Definition YearFromDay (n : Z) : Z :=
  let z := n - 11323 in
  let era := z / 146097 in
  let doe := z mod 146097 in
  let c := Z.min (doe / 36524) 3 in
  let r1 := doe - 36524 * c in
  let q := Z.min (r1 / 1461) 24 in
  let r2 := r1 - 1461 * q in
  let a := Z.min (r2 / 365) 3 in
  2001 + 400 * era + 100 * c + 4 * q + a.

(** [MonthFromTime] (here 1..12) and [DateFromTime] of a day within its year. *)
Definition MonthFromDayWithinYear (leap dwy : Z) : Z :=
  if dwy <? 31 then 1
  else if dwy <? 59 + leap then 2
  else if dwy <? 90 + leap then 3
  else if dwy <? 120 + leap then 4
  else if dwy <? 151 + leap then 5
  else if dwy <? 181 + leap then 6
  else if dwy <? 212 + leap then 7
  else if dwy <? 243 + leap then 8
  else if dwy <? 273 + leap then 9
  else if dwy <? 304 + leap then 10
  else if dwy <? 334 + leap then 11
  else 12.

Definition dateFromDay (n : Z) : date :=
  let y := YearFromDay n in
  let dwy := n - DayFromYear y in
  let m := MonthFromDayWithinYear (leapDay y) dwy in
  mkDate y m (dwy - daysBeforeMonth y m + 1).

(** The calendar successor of a date, by month lengths alone. *)
Definition nextDay (d : date) : date :=
  if day d <? daysInMonth (year d) (month d) then mkDate (year d) (month d) (day d + 1)
  else if month d <? 12 then mkDate (year d) (month d + 1) 1
  else mkDate (year d + 1) 1 1.

(** ** Decimal digits *)

(** The [w] low decimal digits of [n], most significant first. *)
Fixpoint digitsN (w : nat) (n : Z) : jsstring :=
  match w with
  | O => []
  | S w' => digitsN w' (n / 10) ++ [48 + n mod 10]
  end.

(** [String(n)] for an integer [0 <= n < 100]. *)
Definition dec2 (n : Z) : jsstring :=
  if n <? 10 then digitsN 1 n else digitsN 2 n.

(** Value of a string of decimal digits; [None] when it is empty or has
    another character. *)
Fixpoint digitsValueFrom (acc : Z) (s : jsstring) : option Z :=
  match s with
  | [] => Some acc
  | c :: rest => if isDigit c then digitsValueFrom (10 * acc + (c - 48)) rest else None
  end.

Definition digitsValue (s : jsstring) : option Z :=
  match s with
  | [] => None
  | _ => digitsValueFrom 0 s
  end.

(** The date-only forms [YYYY], [YYYY-MM] and [YYYY-MM-DD] of the
    ECMAScript date-time string format; absent fields are 1. *)
Definition fieldOfWidth (w : nat) (s : jsstring) : option Z :=
  if Nat.eqb (List.length s) w then digitsValue s else None.

Definition parseISODate (s : jsstring) : option date :=
  match split HYPHEN s with
  | [ys] =>
      match fieldOfWidth 4 ys with
      | Some y => Some (mkDate y 1 1)
      | None => None
      end
  | [ys; ms] =>
      match fieldOfWidth 4 ys, fieldOfWidth 2 ms with
      | Some y, Some m => Some (mkDate y m 1)
      | _, _ => None
      end
  | [ys; ms; ds] =>
      match fieldOfWidth 4 ys, fieldOfWidth 2 ms, fieldOfWidth 2 ds with
      | Some y, Some m, Some d => Some (mkDate y m d)
      | _, _, _ => None
      end
  | _ => None
  end.

(** [TimeClip]: a time value outside +-8.64e15 ms is [NaN]. *)
Definition maxTime : Z := 8640000000000000.

Definition TimeClip (t : option Z) : option Z :=
  match t with
  | Some v => if Z.abs v <=? maxTime then Some v else None
  | None => None
  end.

(** [Date.prototype.toISOString] on a finite time value. *)
Definition isoYear (y : Z) : jsstring :=
  if (0 <=? y) && (y <=? 9999) then digitsN 4 y
  else (if y <? 0 then 45 else 43) :: digitsN 6 (Z.abs y).

Definition isoDate (d : date) : jsstring :=
  isoYear (year d) ++ [HYPHEN] ++ digitsN 2 (month d) ++ [HYPHEN] ++ digitsN 2 (day d).

Definition isoTimeOfDay (ms : Z) : jsstring :=
  digitsN 2 (ms / 3600000) ++ [58] ++ digitsN 2 (ms / 60000 mod 60) ++ [58]
  ++ digitsN 2 (ms / 1000 mod 60) ++ [46] ++ digitsN 3 (ms mod 1000).

Definition toISOStringOf (t : Z) : jsstring :=
  isoDate (dateFromDay (t / msPerDay)) ++ [84] ++ isoTimeOfDay (t mod msPerDay) ++ [90].

(** ** Exceptions, the random source and the monad of the program *)

Inductive exn :=
| RangeError (msg : string)
| Error (msg : string).

Inductive result (A : Type) :=
| Ok (a : A)
| Throw (e : exn).
Arguments Ok {A} a.
Arguments Throw {A} e.

(** The random bytes the run will draw, in order. *)
Definition entropy := nat -> Z.

Definition M (A : Type) := entropy -> result (A * entropy).

Definition ret {A} (a : A) : M A := fun rnd => Ok (a, rnd).

Definition bind {A B} (c : M A) (k : A -> M B) : M B :=
  fun rnd =>
    match c rnd with
    | Ok (a, rnd') => k a rnd'
    | Throw e => Throw e
    end.

Definition throw {A} (e : exn) : M A := fun _ => Throw e.

Notation "x <- c ;; k" := (bind c (fun x => k))
  (at level 61, c at next level, right associativity).

(** [arr.forEach] over a function that may throw, collecting what it pushes. *)
Fixpoint forEach {A B} (f : A -> M B) (l : list A) : M (list B) :=
  match l with
  | [] => ret []
  | x :: xs => y <- f x ;; ys <- forEach f xs ;; ret (y :: ys)
  end.

(** ** makeId

    [customAlphabet('1234567890abcdef', 50)] of the nanoid package.  With a
    16-letter alphabet its mask is 15 and its batch is 75 random bytes; every
    byte [b] gives the letter [alphabet[b & 15]], so the first batch, read
    from its last byte down, fills the 50 characters. *)

Definition getRandom (n : nat) : M (list Z) :=
  fun rnd => Ok (map (fun i => rnd i mod 256) (seq 0 n), fun i => rnd (n + i)%nat).

Definition alphabet : jsstring := str "1234567890abcdef".
Definition idSize : nat := 50.
Definition idStep : nat := 75.

Definition idLetter (b : Z) : Z := nth (Z.to_nat (Z.land b 15)) alphabet 0.

Definition makeId : M jsstring :=
  bytes <- getRandom idStep ;;
  ret (map idLetter (firstn idSize (rev bytes))).

(** ** Data of the pipeline *)

Module Annotation.
Record t := mk { message : jsstring; holyday : bool; shortened : bool }.
End Annotation.

(** [Map<string, ...>]: entries in insertion order, keys unique. *)
Definition JsMap := list (jsstring * Annotation.t).

Definition Map_keys (m : JsMap) : list jsstring := map fst m.

Fixpoint Map_get (m : JsMap) (k : jsstring) : option Annotation.t :=
  match m with
  | [] => None
  | (k', v) :: rest => if jsstring_eqb k' k then Some v else Map_get rest k
  end.

Fixpoint Map_set (m : JsMap) (k : jsstring) (v : Annotation.t) : JsMap :=
  match m with
  | [] => [(k, v)]
  | (k', v') :: rest =>
      if jsstring_eqb k' k then (k', v) :: rest else (k', v') :: Map_set rest k v
  end.

(** [{ start: string, end: string, message?: string }] *)
Record group := mkGroup { start : jsstring; end_ : jsstring; message : option jsstring }.

(** [Array.prototype.sort(compare)]: stable; an element moves behind
    another only when [compare] returns a positive number ([NaN] counts as
    [+0]).  The order is the one of a stable insertion; with an
    inconsistent comparator the language leaves it to the engine. *)
Section Sort.
Variable A : Type.
Variable compare : A -> A -> option Z.

Definition positive (r : option Z) : bool :=
  match r with
  | Some v => 0 <? v
  | None => false
  end.

Fixpoint insertSorted (x : A) (l : list A) : list A :=
  match l with
  | [] => [x]
  | y :: l' => if positive (compare x y) then y :: insertSorted x l' else x :: l
  end.

Fixpoint sort (l : list A) : list A :=
  match l with
  | [] => []
  | x :: l' => insertSorted x (sort l')
  end.
End Sort.
Arguments positive r : simpl nomatch.
Arguments insertSorted {A} compare x l.
Arguments sort {A} compare l.

(** [a - b] on numbers that may be [NaN]. *)
Definition numSub (a b : option Z) : option Z :=
  match a, b with
  | Some x, Some y => Some (x - y)
  | _, _ => None
  end.

Definition numAdd (a : option Z) (b : Z) : option Z := option_map (fun x => x + b) a.

(** Truthiness of a number: neither [0] nor [NaN]. *)
Definition truthy (a : option Z) : bool :=
  match a with
  | Some v => negb (v =? 0)
  | None => false
  end.

(** [===] on [string | undefined]. *)
Definition messageEq (a b : option jsstring) : bool :=
  match a, b with
  | Some x, Some y => jsstring_eqb x y
  | None, None => true
  | _, _ => false
  end.

Definition lastOf {A} (l : list A) : option A :=
  match rev l with
  | x :: _ => Some x
  | [] => None
  end.

(** The template literal of [createEvent], as [strings.raw]. *)
Definition eventTemplate : list jsstring :=
  [ LF :: str "    BEGIN:VEVENT" ++ LF :: str "    SUMMARY:";
    LF :: str "    DTSTART;VALUE=DATE:";
    LF :: str "    DTEND;VALUE=DATE:";
    LF :: str "    UID:";
    LF :: str "    END:VEVENT" ++ LF :: str "  " ].

Definition header : list jsstring :=
  [ str "BEGIN:VCALENDAR";
    str "VERSION:2.0";
    str "PRODID:-//Work calendar//ical.lexfoxer.com/work//RU";
    str "X-WR-CALNAME:Производственный календарь";
    str "NAME:Производственный календарь" ].

(** ** parseCliYear *)

Definition isYearFlag (a : jsstring) : bool :=
  jsstring_eqb a (str "--year") || jsstring_eqb a (str "-y").

Fixpoint findIndex {A} (p : A -> bool) (l : list A) : option nat :=
  match l with
  | [] => None
  | x :: xs => if p x then Some O else option_map S (findIndex p xs)
  end.

Fixpoint startsWith (s prefix : jsstring) : bool :=
  match prefix, s with
  | [], _ => true
  | p :: ps, c :: cs => (c =? p) && startsWith cs ps
  | _ :: _, [] => false
  end.

(** [/^\d{4}$/.test(a)] *)
Definition fourDigits (a : jsstring) : bool :=
  Nat.eqb (List.length a) 4 && forallb isDigit a.

(** [a ?? b] *)
Definition orElse {A} (a b : option A) : option A :=
  match a with
  | Some _ => a
  | None => b
  end.

Definition yearRequired : exn :=
  Error "Year is required. Use --year 2026 (or pass 2026 as positional arg).".
Definition yearInvalid : exn :=
  Error "Year looks invalid. Expected a year between 2020 and 2100.".

(** [nowYear] is [String(new Date().getFullYear())], read from the clock. *)
Definition parseCliYear (nowYear : jsstring) (argv : list jsstring) : result jsstring :=
  let yearFlagIndex := findIndex isYearFlag argv in
  let yearFromFlag :=
    match yearFlagIndex with
    | Some i => nth_error argv (i + 1)
    | None =>
        match find (fun a => startsWith a (str "--year=")) argv with
        | Some a => nth_error (split 61 a) 1
        | None => None
        end
    end in
  let yearFromPositional := find fourDigits argv in
  match option_map trim (orElse yearFromFlag (orElse yearFromPositional (Some nowYear))) with
  | None => Throw yearRequired
  | Some year =>
      if jsstring_eqb year [] || negb (fourDigits year) then Throw yearRequired
      else match digitsValue year with
           | Some asNumber =>
               if (asNumber <? 2020) || (2100 <? asNumber) then Throw yearInvalid
               else Ok year
           | None => Throw yearRequired
           end
  end.

(** ** Vocabulary of the properties *)

(** A date as eight digits, [YYYYMMDD]. *)
Definition yyyymmdd (d : date) : jsstring :=
  digitsN 4 (year d) ++ digitsN 2 (month d) ++ digitsN 2 (day d).

(** A date key [YYYY-M-D]: the year in four digits, month and day either
    zero-padded to two digits or written as they are ([parseData] writes
    [`${year}-${monthIndex+1}-${dayNumber}`]). *)
Definition dateKey (padMonth padDay : bool) (d : date) : jsstring :=
  digitsN 4 (year d) ++ [HYPHEN]
  ++ (if padMonth then digitsN 2 (month d) else dec2 (month d)) ++ [HYPHEN]
  ++ (if padDay then digitsN 2 (day d) else dec2 (day d)).

(** One event block of the document. *)
Definition eventText (summary dtstart dtend uid : jsstring) : jsstring :=
  str "BEGIN:VEVENT" ++ [LF]
  ++ str "SUMMARY:" ++ summary ++ [LF]
  ++ str "DTSTART;VALUE=DATE:" ++ dtstart ++ [LF]
  ++ str "DTEND;VALUE=DATE:" ++ dtend ++ [LF]
  ++ str "UID:" ++ uid ++ [LF]
  ++ str "END:VEVENT".

(** [message || ''] *)
Definition summaryOf (msg : option jsstring) : jsstring := orEmpty (Some msg).

(** The identifier [makeId] draws from a random source, and the source left
    after the draw. *)
Definition drawId (rnd : entropy) : jsstring :=
  map idLetter (firstn idSize (rev (map (fun i => rnd i mod 256) (seq 0 idStep)))).

Definition afterId (rnd : entropy) : entropy := fun i => rnd (idStep + i)%nat.

(** An engine that rejects every string outside the standard date-only forms. *)
Definition strictEngine (s : jsstring) : option Z := None.

(** The annotations of the specification's scenarios, inserted out of order. *)
Definition newYear : Annotation.t := Annotation.mk (str "New Year") true false.
Definition shortDay : Annotation.t := Annotation.mk (str "Shortened day") false true.

Definition sampleMap : JsMap :=
  [ (str "2026-02-14", shortDay); (str "2026-01-03", newYear);
    (str "2026-01-01", newYear); (str "2026-02-23", newYear);
    (str "2026-01-02", newYear) ].

(** The text of the RangeError of [toISOString] in JavaScriptCore, the
    engine of bun. *)
Definition invalidDateText : string := "Invalid Date".

(** The document: header lines, event blocks, closing line. *)
Definition documentOf (events : list jsstring) : jsstring :=
  join [LF] (header ++ events ++ [str "END:VCALENDAR"]).

(** The successive states of the random source over [n] draws. *)
Fixpoint draws (n : nat) (rnd : entropy) : list entropy :=
  match n with
  | O => []
  | S n' => rnd :: draws n' (afterId rnd)
  end.

(** The low four bits of the bytes an identifier is made of. *)
Definition nibbles (rnd : entropy) : list Z :=
  map (fun b => Z.land b 15)
      (firstn idSize (rev (map (fun i => rnd i mod 256) (seq 0 idStep)))).

(** The validation of the year: four digits, between 2020 and 2100. *)
Definition yearNumber (year : jsstring) : Z :=
  match digitsValue year with
  | Some n => n
  | None => 0
  end.

Definition validatedYear (year : jsstring) : result jsstring :=
  if fourDigits year then
    if (2020 <=? yearNumber year) && (yearNumber year <=? 2100) then Ok year
    else Throw yearInvalid
  else Throw yearRequired.

(** The letter of a four-bit value. *)
Definition letterOf (v : Z) : Z := nth (Z.to_nat v) alphabet 0.

(** The characters of a UID: decimal digits and the letters a to f. *)
Definition uidChar (c : Z) : bool := isDigit c || ((97 <=? c) && (c <=? 102)).

(** The lines of a text, and lines that begin with white space. *)
Definition lines (s : jsstring) : list jsstring := split LF s.

Definition leadingSpace (l : jsstring) : bool :=
  match l with
  | c :: _ => isWhiteSpace c
  | [] => false
  end.

Definition noIndent (ls : list jsstring) : Prop :=
  Forall (fun l => leadingSpace l = false) ls.

(** A message with a continuation line that is indented. *)
Definition indentedMessage : jsstring := str "a" ++ [LF] ++ str " b".

(** An engine whose fallback pads the fields of a key before it reads them:
    it accepts the keys [parseData] writes, such as 2026-1-5. *)
Definition paddingEngine (s : jsstring) : option Z :=
  match parseISODate (formatDate s (str "-")) with
  | Some d => if validDateb d then Some (msPerDay * MakeDay d) else None
  | None => None
  end.

(** An engine on a host that keeps local time: a key outside the standard
    forms, such as 2026-3-8, is read as midnight of that day on the local
    clock, [hoursBehind] hours behind universal time on that day. *)
Definition localEngine (hoursBehind : Z -> Z) (s : jsstring) : option Z :=
  match parseISODate (formatDate s (str "-")) with
  | Some d =>
      if validDateb d
      then Some (msPerDay * MakeDay d + hoursBehind (MakeDay d) * (60 * 60 * 1000))
      else None
  | None => None
  end.

(** New York in 2026: five hours behind, and four from the night of
    2026-03-08 (day 20520), when the clocks go forward, to the night of
    2026-11-01 (day 20758), when they go back. *)
Definition newYork2026 (day : Z) : Z :=
  if (20520 <? day) && (day <=? 20758) then 4 else 5.

(** A map filled by successive [set] calls. *)
Definition Map_of (entries : list (jsstring * Annotation.t)) : JsMap :=
  fold_left (fun m kv => Map_set m (fst kv) (snd kv)) entries [].

(** ** Vocabulary of the further properties *)

(** The message a map holds for a key, [holydayOffList.get(k)?.message]. *)
Definition messageOf (m : JsMap) (k : jsstring) : option jsstring :=
  option_map Annotation.message (Map_get m k).

(** The keys of a map with the messages alone, the flags left out. *)
Definition keyMessages (m : JsMap) : list (jsstring * jsstring) :=
  map (fun kv => (fst kv, Annotation.message (snd kv))) m.

(** ** getUrl *)

(** [String(n)] for an integer: the decimal digits, after a minus sign for
    a negative number.  The digits of [n] are at most [log2 n + 1]. *)
Fixpoint decimalFrom (fuel : nat) (n : Z) : jsstring :=
  match fuel with
  | O => []
  | S fuel' =>
      if n <? 10 then [48 + n] else decimalFrom fuel' (n / 10) ++ [48 + n mod 10]
  end.

Definition NumberToString (n : Z) : jsstring :=
  if n <? 0 then HYPHEN :: decimalFrom (S (Z.to_nat (Z.log2 (- n)))) (- n)
  else decimalFrom (S (Z.to_nat (Z.log2 n))) n.

Definition getUrl (year : Z) : jsstring :=
  str "https://hh.ru/article/calendar" ++ NumberToString year.

(** ** parseData

    What cheerio reads off the page is the input: for every month block
    that the selector finds, in document order, its day cells, and for
    every cell its two classes, the text of its own text nodes and the text
    of its hint element. *)

Record dayCell := mkCell {
  hasDayOff : bool;       (* hasClass('calendar-list__numbers__item_day-off') *)
  hasShortened : bool;    (* hasClass('calendar-list__numbers__item_shortened') *)
  ownText : jsstring;     (* contents().filter(text nodes).text() *)
  hintText : jsstring     (* find('.calendar-hint').text() *)
}.

(** [s.replace(pattern, replacement)] for a pattern string and a
    replacement without [$]: the first occurrence only. *)
Fixpoint replaceFirst (pattern replacement s : jsstring) : jsstring :=
  match s with
  | [] => if startsWith [] pattern then replacement else []
  | c :: rest =>
      if startsWith s pattern then replacement ++ skipn (List.length pattern) s
      else c :: replaceFirst pattern replacement rest
  end.

Definition parseDay (year : jsstring) (monthIndex : nat) (dayOffList : JsMap)
  (day : dayCell) : JsMap :=
  let isDayOff := hasDayOff day in
  let isShortened := hasShortened day in
  if negb isDayOff && negb isShortened then dayOffList
  else
    let dayNumber := trim (ownText day) in
    let dayMessage :=
      if isShortened then str "Предпраздничный день, на 1 час короче"
      else replaceFirst (str "Выходной день") (str "Выходной") (trim (hintText day)) in
    let dayKey :=
      year ++ str "-" ++ NumberToString (Z.of_nat monthIndex + 1) ++ str "-" ++ dayNumber in
    Map_set dayOffList dayKey (Annotation.mk dayMessage isDayOff isShortened).

Fixpoint parseMonths (year : jsstring) (monthIndex : nat) (months : list (list dayCell))
  (dayOffList : JsMap) : JsMap :=
  match months with
  | [] => dayOffList
  | days :: rest =>
      parseMonths year (S monthIndex) rest (fold_left (parseDay year monthIndex) days dayOffList)
  end.

Definition parseData (months : list (list dayCell)) (year : jsstring) : JsMap :=
  parseMonths year 0 months [].

(** A cell that [parseData] keeps, the key and the annotation it writes. *)
Definition flagged (day : dayCell) : bool := hasDayOff day || hasShortened day.

Definition cellKey (year : jsstring) (monthIndex : nat) (day : dayCell) : jsstring :=
  year ++ [HYPHEN] ++ NumberToString (Z.of_nat monthIndex + 1) ++ [HYPHEN]
  ++ trim (ownText day).

Definition shortenedMessage : jsstring := str "Предпраздничный день, на 1 час короче".

Definition cellAnnotation (day : dayCell) : Annotation.t :=
  Annotation.mk
    (if hasShortened day then shortenedMessage
     else replaceFirst (str "Выходной день") (str "Выходной") (trim (hintText day)))
    (hasDayOff day) (hasShortened day).

Section Runtime.

(** What [Date.parse] of the running engine returns for a string that is
    not a date-only form with a valid date: the language leaves it to the
    implementation (the other standard forms are left to it here, too). *)
Variable implParse : jsstring -> option Z.

(** The message of the RangeError that [toISOString] raises on an invalid
    time value is the engine's own text, too: the language fixes the kind
    of the exception and not its message (node says "Invalid time value";
    JavaScriptCore, the engine of bun, says "Invalid Date"). *)
Variable implRangeMessage : string.

Definition DateParse (s : jsstring) : option Z :=
  match parseISODate s with
  | Some d => if validDateb d then Some (msPerDay * MakeDay d) else implParse s
  | None => implParse s
  end.

(** [new Date(s).getTime()] *)
Definition Date_getTime (s : jsstring) : option Z := TimeClip (DateParse s).

(** [new Date(t).toISOString()] *)
Definition toISOString (t : option Z) : M jsstring :=
  match TimeClip t with
  | Some v => ret (toISOStringOf v)
  | None => throw (RangeError implRangeMessage)
  end.

Definition createEvent (params : group) : M jsstring :=
  iso <- toISOString
           (numAdd (Date_getTime (formatDate (end_ params) (str "-")))
                   (24 * 60 * 60 * 1000)) ;;
  let endDate := nth 0 (split 84 iso) [] in
  id <- makeId ;;
  ret (text eventTemplate
         [ message params;
           Some (formatDate (start params) []);
           Some (formatDate endDate []);
           Some id ]).

Definition makeGroupsStep (holydayOffList : JsMap) (acc : list group) (el : jsstring)
  : list group :=
  let currDate := Date_getTime el in
  let dateStartParams := Map_get holydayOffList el in
  let fresh := mkGroup el el (option_map Annotation.message dateStartParams) in
  match lastOf acc with
  | Some prev =>
      let prevDateEnd := Date_getTime (end_ prev) in
      if truthy prevDateEnd
         && messageEq (option_map Annotation.message dateStartParams) (message prev)
         && match numSub currDate prevDateEnd with
            | Some diff => diff =? 24 * 60 * 60 * 1000
            | None => false
            end
      then removelast acc ++ [mkGroup (start prev) el (message prev)]
      else acc ++ [fresh]
  | None => acc ++ [fresh]
  end.

Definition makeGroups (holydayOffList : JsMap) : list group :=
  let sortedDates :=
    sort (fun a b => numSub (Date_getTime a) (Date_getTime b)) (Map_keys holydayOffList) in
  fold_left (makeGroupsStep holydayOffList) sortedDates [].

(** [main] from the parsed annotations on: the text handed to [Bun.write]. *)
Definition main (holydayOffList : JsMap) : M jsstring :=
  let arr := header in
  let groups := makeGroups holydayOffList in
  events <- forEach createEvent groups ;;
  ret (join [LF] (arr ++ events ++ [str "END:VCALENDAR"])).

(** The serializer alone, on any sequence of ranges. *)
Definition serialize (groups : list group) : M jsstring :=
  events <- forEach createEvent groups ;;
  ret (join [LF] (header ++ events ++ [str "END:VCALENDAR"])).

(** The exception [toISOString] raises on an invalid time value, with the
    message of the running engine. *)
Definition invalidTime : exn := RangeError implRangeMessage.

(** *** Vocabulary of the aggregation properties *)

(** The day a key names: the engine reads the key as midnight, universal
    time, of day number [n] (days counted from 1970-01-01). *)
Definition keyDay (k : jsstring) : option Z :=
  match Date_getTime k with
  | Some t => if t mod msPerDay =? 0 then Some (t / msPerDay) else None
  | None => None
  end.

(** A map whose keys are calendar dates: unique keys, each one read as a
    day, different keys as different days. *)
Definition dateKeys (m : JsMap) : Prop :=
  NoDup (Map_keys m)
  /\ (forall k, In k (Map_keys m) -> keyDay k <> None)
  /\ (forall k k', In k (Map_keys m) -> In k' (Map_keys m) ->
                   keyDay k = keyDay k' -> k = k').

(** Day [n] lies in the inclusive span of a range. *)
Definition covers (n : Z) (g : group) : bool :=
  match keyDay (start g), keyDay (end_ g) with
  | Some a, Some b => (a <=? n) && (n <=? b)
  | _, _ => false
  end.

(** Chronological comparisons of keys. *)
Definition keyLe (a b : jsstring) : Prop :=
  exists x y, keyDay a = Some x /\ keyDay b = Some y /\ x <= y.

Definition keyLt (a b : jsstring) : Prop :=
  exists x y, keyDay a = Some x /\ keyDay b = Some y /\ x < y.

Definition dayOf (k : jsstring) : Z :=
  match keyDay k with
  | Some n => n
  | None => 0
  end.

(** What the walk of [makeGroups] maintains: [acc] after the keys [seen]. *)
Record walked (seen : list jsstring) (acc : list group) : Prop := {
  walked_ends : Forall (fun g => In (start g) seen /\ In (end_ g) seen
                                 /\ dayOf (start g) <= dayOf (end_ g)) acc;
  walked_apart : StronglySorted (fun g1 g2 => dayOf (end_ g1) < dayOf (start g2)) acc;
  walked_all : forall k, In k seen ->
                 exists g, In g acc /\ dayOf (start g) <= dayOf k <= dayOf (end_ g);
  walked_only : forall g n, In g acc -> dayOf (start g) <= n <= dayOf (end_ g) ->
                  exists k, In k seen /\ dayOf k = n
}.

(** [covers] on the day numbers of the keys. *)
Definition spans (n : Z) (g : group) : bool :=
  (dayOf (start g) <=? n) && (n <=? dayOf (end_ g)).

(** A decision procedure for [dateKeys]. *)
Fixpoint distinct (l : list Z) : bool :=
  match l with
  | [] => true
  | x :: l' => negb (existsb (Z.eqb x) l') && distinct l'
  end.

Definition dateKeysb (m : JsMap) : bool :=
  forallb (fun k => match keyDay k with Some _ => true | None => false end) (Map_keys m)
  && distinct (map dayOf (Map_keys m)).

(** The DTEND field [createEvent] computes for a range, when it does. *)
Definition exclusiveEnd (g : group) : option jsstring :=
  match TimeClip (numAdd (Date_getTime (formatDate (end_ g) (str "-"))) msPerDay) with
  | Some v => Some (formatDate (nth 0 (split 84 (toISOStringOf v)) []) [])
  | None => None
  end.

(** The event block of a range, given its DTEND field and its UID. *)
Definition eventOf (g : group) (dtend uid : jsstring) : jsstring :=
  eventText (summaryOf (message g)) (formatDate (start g) []) dtend uid.

(** *** Vocabulary of the further aggregation properties *)

(** The number of days of a range, both ends included. *)
Definition rangeDays (g : group) : Z :=
  match keyDay (start g), keyDay (end_ g) with
  | Some a, Some b => b - a + 1
  | _, _ => 0
  end.

Definition totalDays (gs : list group) : Z :=
  fold_right (fun g t => rangeDays g + t) 0 gs.

(** The merge test of [makeGroups] between a range and the start of the
    next one. *)
Definition mergeable (g1 g2 : group) : Prop :=
  dayOf (end_ g1) <> 0 /\ message g1 = message g2
  /\ dayOf (start g2) = dayOf (end_ g1) + 1.

(** What the walk maintains beyond [walked]. *)
Record walkedOn (m : JsMap) (seen : list jsstring) (acc : list group) : Prop := {
  on_messages : forall k g, In k seen -> In g acc ->
                  dayOf (start g) <= dayOf k <= dayOf (end_ g) ->
                  message g = messageOf m k;
  on_maximal : Sorted (fun g1 g2 => ~ mergeable g1 g2) acc;
  on_days : fold_right (fun g t => dayOf (end_ g) - dayOf (start g) + 1 + t) 0 acc
            = Z.of_nat (List.length seen)
}.


(** ** Calendar arithmetic *)

Lemma DayFromYear_succ y : DayFromYear (y + 1) = DayFromYear y + 365 + leapDay y.
Proof.
  unfold DayFromYear, leapDay, InLeapYear.
  destruct (Z.eqb_spec (y mod 4) 0); destruct (Z.eqb_spec (y mod 100) 0);
    destruct (Z.eqb_spec (y mod 400) 0); cbn [andb orb negb];
    Z.div_mod_to_equations; lia.
Qed.

Lemma DayFromYear_mono a b : a <= b -> DayFromYear a <= DayFromYear b.
Proof. unfold DayFromYear. intros. Z.div_mod_to_equations. lia. Qed.

Lemma YearFromDay_spec n :
  DayFromYear (YearFromDay n) <= n < DayFromYear (YearFromDay n + 1).
Proof.
  unfold YearFromDay, DayFromYear. cbv zeta. Z.div_mod_to_equations. lia.
Qed.

Lemma YearFromDay_unique y n :
  DayFromYear y <= n < DayFromYear (y + 1) -> YearFromDay n = y.
Proof.
  intros H. pose proof (YearFromDay_spec n) as S.
  destruct (Z.lt_trichotomy (YearFromDay n) y) as [L | [E | G]]; [| exact E |].
  - pose proof (DayFromYear_mono (YearFromDay n + 1) y ltac:(lia)). lia.
  - pose proof (DayFromYear_mono (y + 1) (YearFromDay n) ltac:(lia)). lia.
Qed.

Lemma leapDay_range y : leapDay y = 0 \/ leapDay y = 1.
Proof. unfold leapDay. destruct (InLeapYear y); auto. Qed.

Lemma month_cases m : 1 <= m <= 12 ->
  m = 1 \/ m = 2 \/ m = 3 \/ m = 4 \/ m = 5 \/ m = 6 \/ m = 7 \/ m = 8
  \/ m = 9 \/ m = 10 \/ m = 11 \/ m = 12.
Proof. lia. Qed.

Ltac each_month H :=
  apply month_cases in H;
  repeat (destruct H as [H | H]); subst.

Ltac calendar_cases y Hm :=
  unfold daysInMonth, daysBeforeMonth, MonthFromDayWithinYear in *;
  pose proof (leapDay_range y);
  generalize dependent (leapDay y); intros l; intros;
  each_month Hm;
  repeat match goal with
         | H : context [Z.eqb ?a ?b] |- _ =>
             let v := eval vm_compute in (Z.eqb a b) in change (Z.eqb a b) with v in H
         | |- context [Z.eqb ?a ?b] =>
             let v := eval vm_compute in (Z.eqb a b) in change (Z.eqb a b) with v
         | H : context [Z.leb ?a ?b] |- _ =>
             let v := eval vm_compute in (Z.leb a b) in change (Z.leb a b) with v in H
         | |- context [Z.leb ?a ?b] =>
             let v := eval vm_compute in (Z.leb a b) in change (Z.leb a b) with v
         end;
  cbn [orb andb negb] in *; cbv iota in *.

Lemma MakeDay_in_year d : validDate d ->
  DayFromYear (year d) <= MakeDay d < DayFromYear (year d + 1).
Proof.
  destruct d as [y m dd]. unfold validDate, MakeDay. cbn [year month day].
  intros [Hm Hd]. rewrite DayFromYear_succ.
  calendar_cases y Hm; lia.
Qed.

Lemma month_of_day y m dd : validDate (mkDate y m dd) ->
  MonthFromDayWithinYear (leapDay y) (daysBeforeMonth y m + (dd - 1)) = m.
Proof.
  unfold validDate. cbn [year month day]. intros [Hm Hd].
  calendar_cases y Hm;
    repeat match goal with
           | |- context [?a <? ?b] => destruct (Z.ltb_spec a b); try lia
           end.
Qed.

Lemma dateFromDay_MakeDay d : validDate d -> dateFromDay (MakeDay d) = d.
Proof.
  intros V. pose proof (MakeDay_in_year d V) as B.
  unfold dateFromDay. rewrite (YearFromDay_unique _ _ B).
  destruct d as [y m dd]. unfold MakeDay in *. cbn [year month day] in *.
  replace (DayFromYear y + daysBeforeMonth y m + (dd - 1) - DayFromYear y)
    with (daysBeforeMonth y m + (dd - 1)) by lia.
  rewrite (month_of_day y m dd V). f_equal. lia.
Qed.

Lemma nextDay_valid d : validDate d -> validDate (nextDay d).
Proof.
  destruct d as [y m dd]. unfold validDate, nextDay. cbn [year month day].
  intros [Hm Hd].
  destruct (Z.ltb_spec dd (daysInMonth y m)); cbn [year month day]; [lia |].
  destruct (Z.ltb_spec m 12); cbn [year month day].
  - split; [lia |]. clear H Hd. calendar_cases y Hm; lia.
  - unfold daysInMonth; cbn; lia.
Qed.

Lemma MakeDay_nextDay d : validDate d -> MakeDay (nextDay d) = MakeDay d + 1.
Proof.
  destruct d as [y m dd]. unfold validDate, nextDay, MakeDay. cbn [year month day].
  intros [Hm Hd].
  destruct (Z.ltb_spec dd (daysInMonth y m)); cbn [year month day]; [lia |].
  destruct (Z.ltb_spec m 12); cbn [year month day].
  - calendar_cases y Hm; lia.
  - assert (m = 12) by lia; subst. rewrite DayFromYear_succ.
    unfold daysInMonth, daysBeforeMonth in *; cbn in *. lia.
Qed.

Lemma dateFromDay_succ d : validDate d -> dateFromDay (MakeDay d + 1) = nextDay d.
Proof.
  intros V. rewrite <- MakeDay_nextDay by exact V.
  apply dateFromDay_MakeDay, nextDay_valid, V.
Qed.

Lemma MakeDay_inj d1 d2 : validDate d1 -> validDate d2 -> MakeDay d1 = MakeDay d2 -> d1 = d2.
Proof.
  intros V1 V2 E. rewrite <- (dateFromDay_MakeDay d1 V1), <- (dateFromDay_MakeDay d2 V2).
  now rewrite E.
Qed.

Lemma validDateb_iff d : validDateb d = true <-> validDate d.
Proof.
  unfold validDateb, validDate. rewrite !andb_true_iff, !Z.leb_le. tauto.
Qed.

(** Every day number is the day of a valid calendar date. *)
Lemma dateFromDay_valid n : validDate (dateFromDay n) /\ MakeDay (dateFromDay n) = n.
Proof.
  pose proof (YearFromDay_spec n) as S. rewrite DayFromYear_succ in S.
  unfold dateFromDay, validDate, MakeDay. cbn [year month day].
  set (y := YearFromDay n) in *.
  pose proof (leapDay_range y) as L.
  unfold MonthFromDayWithinYear.
  generalize dependent (DayFromYear y). intros base S.
  unfold daysInMonth, daysBeforeMonth.
  generalize dependent (leapDay y). intros l S L.
  repeat match goal with
         | |- context [if ?a <? ?b then _ else _] => destruct (Z.ltb_spec a b)
         end;
    repeat match goal with
           | |- context [Z.eqb ?a ?b] =>
               let v := eval vm_compute in (Z.eqb a b) in change (Z.eqb a b) with v
           | |- context [Z.leb ?a ?b] =>
               let v := eval vm_compute in (Z.leb a b) in change (Z.leb a b) with v
           end; cbn [orb andb negb]; cbv iota; lia.
Qed.

(** ** Strings and digits *)

Lemma isDigit_digit n : isDigit (48 + n mod 10) = true.
Proof.
  unfold isDigit. pose proof (Z.mod_pos_bound n 10 ltac:(lia)).
  apply andb_true_iff; split; apply Z.leb_le; lia.
Qed.

Lemma digitsN_length w n : List.length (digitsN w n) = w.
Proof.
  revert n; induction w as [| w IH]; intros n; cbn [digitsN]; [reflexivity |].
  rewrite length_app, IH. cbn. lia.
Qed.

Lemma digitsN_digits w n : Forall (fun c => isDigit c = true) (digitsN w n).
Proof.
  revert n; induction w as [| w IH]; intros n; cbn [digitsN]; [constructor |].
  apply Forall_app; split; [apply IH |]. constructor; [apply isDigit_digit | constructor].
Qed.

Lemma digits_without sep s :
  sep < 48 \/ 57 < sep ->
  Forall (fun c => isDigit c = true) s -> Forall (fun c => c <> sep) s.
Proof.
  intros Hsep H. eapply Forall_impl; [| exact H]. cbn. intros c Hc.
  unfold isDigit in Hc. apply andb_true_iff in Hc. destruct Hc as [A B].
  apply Z.leb_le in A, B. lia.
Qed.

Lemma digitsN_without sep w n :
  sep < 48 \/ 57 < sep -> Forall (fun c => c <> sep) (digitsN w n).
Proof. intros. apply digits_without; [assumption | apply digitsN_digits]. Qed.

Lemma digitsValueFrom_app acc s t :
  digitsValueFrom acc (s ++ t) =
  match digitsValueFrom acc s with
  | Some v => digitsValueFrom v t
  | None => None
  end.
Proof.
  revert acc; induction s as [| c s IH]; intros acc; cbn; [reflexivity |].
  destruct (isDigit c); [apply IH | reflexivity].
Qed.

Lemma digitsValueFrom_digitsN w n :
  0 <= n < 10 ^ Z.of_nat w -> digitsValueFrom 0 (digitsN w n) = Some n.
Proof.
  revert n; induction w as [| w IH]; intros n Hn.
  - cbn in *. f_equal. lia.
  - cbn [digitsN]. rewrite digitsValueFrom_app, IH.
    + cbn [digitsValueFrom]. rewrite isDigit_digit. f_equal.
      pose proof (Z.div_mod n 10 ltac:(lia)). lia.
    + rewrite Nat2Z.inj_succ, Z.pow_succ_r in Hn by lia.
      split; [apply Z.div_pos; lia | apply Z.div_lt_upper_bound; lia].
Qed.

Lemma fieldOfWidth_digitsN w n :
  (0 < w)%nat -> 0 <= n < 10 ^ Z.of_nat w -> fieldOfWidth w (digitsN w n) = Some n.
Proof.
  intros Hw Hn. unfold fieldOfWidth. rewrite digitsN_length, Nat.eqb_refl.
  unfold digitsValue. destruct (digitsN w n) eqn:E.
  - apply (f_equal (@List.length Z)) in E. rewrite digitsN_length in E. cbn in E. lia.
  - rewrite <- E. apply digitsValueFrom_digitsN, Hn.
Qed.

Lemma split_single sep s : Forall (fun c => c <> sep) s -> split sep s = [s].
Proof.
  induction 1 as [| c s Hc _ IH]; cbn; [reflexivity |].
  destruct (Z.eqb_spec c sep); [contradiction |]. now rewrite IH.
Qed.

Lemma split_app sep s t :
  Forall (fun c => c <> sep) s -> split sep (s ++ sep :: t) = s :: split sep t.
Proof.
  induction 1 as [| c s Hc _ IH]; cbn.
  - now rewrite Z.eqb_refl.
  - destruct (Z.eqb_spec c sep); [contradiction |]. now rewrite IH.
Qed.

Lemma padStart2_long s : (2 <= List.length s)%nat -> padStart2 s = s.
Proof.
  intros H. unfold padStart2. replace (2 - List.length s)%nat with 0%nat by lia.
  reflexivity.
Qed.

Lemma padStart2_digitsN2 n : padStart2 (digitsN 2 n) = digitsN 2 n.
Proof. apply padStart2_long. rewrite digitsN_length. lia. Qed.

Lemma padStart2_digitsN4 n : padStart2 (digitsN 4 n) = digitsN 4 n.
Proof. apply padStart2_long. rewrite digitsN_length. lia. Qed.

Lemma padStart2_dec2 n : 0 <= n < 100 -> padStart2 (dec2 n) = digitsN 2 n.
Proof.
  intros Hn. unfold dec2. destruct (Z.ltb_spec n 10).
  - cbn. rewrite (Z.div_small n 10) by lia. reflexivity.
  - apply padStart2_digitsN2.
Qed.

Lemma dec2_without sep n :
  sep < 48 \/ 57 < sep -> Forall (fun c => c <> sep) (dec2 n).
Proof. intros. unfold dec2. destruct (n <? 10); now apply digitsN_without. Qed.

Lemma isoYear_4digits y : 0 <= y <= 9999 -> isoYear y = digitsN 4 y.
Proof.
  intros H. unfold isoYear.
  destruct (Z.leb_spec 0 y); destruct (Z.leb_spec y 9999); try lia. reflexivity.
Qed.

Lemma split_dateKey pm pd d :
  split HYPHEN (dateKey pm pd d) =
  [ digitsN 4 (year d);
    if pm then digitsN 2 (month d) else dec2 (month d);
    if pd then digitsN 2 (day d) else dec2 (day d) ].
Proof.
  unfold dateKey, HYPHEN. cbn [app].
  rewrite split_app by (apply digitsN_without; lia).
  rewrite split_app by (destruct pm; [apply digitsN_without | apply dec2_without]; lia).
  rewrite split_single by (destruct pd; [apply digitsN_without | apply dec2_without]; lia).
  reflexivity.
Qed.

Lemma isoDate_dateKey d : 0 <= year d <= 9999 -> isoDate d = dateKey true true d.
Proof. intros H. unfold isoDate, dateKey. now rewrite isoYear_4digits. Qed.

(** [formatDate] pads month and day of a date key and joins the fields. *)
Lemma formatDate_dateKey pm pd d sep :
  0 <= month d < 100 -> 0 <= day d < 100 ->
  formatDate (dateKey pm pd d) sep =
  digitsN 4 (year d) ++ sep ++ digitsN 2 (month d) ++ sep ++ digitsN 2 (day d).
Proof.
  intros Hm Hd. unfold formatDate. rewrite split_dateKey. cbn [map join].
  rewrite padStart2_digitsN4.
  replace (padStart2 (if pm then digitsN 2 (month d) else dec2 (month d)))
    with (digitsN 2 (month d))
    by (destruct pm; [now rewrite padStart2_digitsN2 | now rewrite padStart2_dec2]).
  replace (padStart2 (if pd then digitsN 2 (day d) else dec2 (day d)))
    with (digitsN 2 (day d))
    by (destruct pd; [now rewrite padStart2_digitsN2 | now rewrite padStart2_dec2]).
  reflexivity.
Qed.

Lemma formatDate_hyphen pm pd d :
  0 <= month d < 100 -> 0 <= day d < 100 ->
  formatDate (dateKey pm pd d) (str "-") = dateKey true true d.
Proof. intros. now rewrite formatDate_dateKey. Qed.

Lemma formatDate_compact pm pd d :
  0 <= month d < 100 -> 0 <= day d < 100 ->
  formatDate (dateKey pm pd d) [] = yyyymmdd d.
Proof. intros. now rewrite formatDate_dateKey. Qed.

Lemma parseISODate_dateKey d :
  0 <= year d <= 9999 -> 0 <= month d < 100 -> 0 <= day d < 100 ->
  parseISODate (dateKey true true d) = Some d.
Proof.
  intros Hy Hm Hd. unfold parseISODate. rewrite split_dateKey.
  rewrite !fieldOfWidth_digitsN by (cbn; lia). now destruct d.
Qed.

Lemma validDate_fields d : validDate d -> 0 <= month d < 100 /\ 0 <= day d < 100.
Proof.
  unfold validDate. intros [Hm Hd]. split; [lia |].
  assert (daysInMonth (year d) (month d) <= 31); [| lia].
  unfold daysInMonth. destruct (leapDay_range (year d)) as [L | L]; rewrite ?L;
    repeat match goal with |- context [if ?b then _ else _] => destruct b end; lia.
Qed.

(** ** The event template *)

Lemma trimStart_keep c s : isWhiteSpace c = false -> trimStart (c :: s) = c :: s.
Proof. intros H. cbn. now rewrite H. Qed.

Lemma trimEnd_app_tail s c ws :
  isWhiteSpace c = false -> forallb isWhiteSpace ws = true ->
  trimEnd (s ++ c :: ws) = s ++ [c].
Proof.
  intros Hc Hws. unfold trimEnd.
  replace (s ++ c :: ws) with ((s ++ [c]) ++ ws) by (now rewrite <- app_assoc).
  rewrite rev_app_distr.
  assert (T : forall r, trimStart (rev ws ++ r) = trimStart r).
  { intros r. rewrite forallb_forall in Hws.
    assert (Hr : forall x, In x (rev ws) -> isWhiteSpace x = true)
      by (intros x Hx; apply Hws, in_rev, Hx).
    induction (rev ws) as [| x l IH]; [reflexivity |].
    cbn. rewrite (Hr x (or_introl eq_refl)). apply IH. intros; apply Hr; now right. }
  rewrite T, rev_app_distr. cbn [rev app]. rewrite trimStart_keep by exact Hc.
  cbn [rev]. now rewrite rev_involutive.
Qed.

Ltac literal_strings :=
  repeat match goal with
         | |- context [str ?x] =>
             let v := eval vm_compute in (str x) in change (str x) with v
         end.

Ltac flatten_appends :=
  literal_strings; rewrite ?app_nil_r; rewrite <- ?app_assoc; cbn [app].

Lemma text_eventTemplate msg a b c :
  text eventTemplate [msg; Some a; Some b; Some c] = eventText (summaryOf msg) a b c.
Proof.
  unfold summaryOf.
  pose (pre := str "BEGIN:VEVENT" ++ [LF] ++ str "SUMMARY:" ++ orEmpty (Some msg) ++ [LF]
               ++ str "DTSTART;VALUE=DATE:" ++ a ++ [LF]
               ++ str "DTEND;VALUE=DATE:" ++ b ++ [LF]
               ++ str "UID:" ++ c ++ [LF] ++ str "END:VEVEN").
  transitivity (trim (pre ++ [84; LF; 32; 32])).
  - unfold text, eventTemplate. f_equal. cbn [mapi nth_error].
    repeat match goal with
           | |- context [dropLeadingLF ?x] =>
               let v := eval vm_compute in (dropLeadingLF x) in
               change (dropLeadingLF x) with v
           end.
    cbn [join].
    change (orEmpty (Some (Some a))) with a. change (orEmpty (Some (Some b))) with b.
    change (orEmpty (Some (Some c))) with c. change (orEmpty None) with (@nil Z).
    unfold pre. flatten_appends. reflexivity.
  - unfold trim. replace (trimStart (pre ++ [84; LF; 32; 32])) with (pre ++ [84; LF; 32; 32]).
    + rewrite trimEnd_app_tail by reflexivity.
      unfold pre, eventText. flatten_appends. reflexivity.
    + unfold pre. flatten_appends. now rewrite trimStart_keep.
Qed.

(** ** Dates read and written by the engine *)

Lemma MakeDay_bounds d :
  validDate d -> 0 <= year d <= 9999 -> -719528 <= MakeDay d < 2932897.
Proof.
  intros V Hy. pose proof (MakeDay_in_year d V) as B.
  pose proof (DayFromYear_mono 0 (year d) ltac:(lia)) as L.
  pose proof (DayFromYear_mono (year d + 1) 10000 ltac:(lia)) as U.
  change (DayFromYear 0) with (-719528) in L.
  change (DayFromYear 10000) with 2932897 in U. lia.
Qed.

Lemma TimeClip_small t : Z.abs t <= maxTime -> TimeClip (Some t) = Some t.
Proof. intros H. cbn. destruct (Z.leb_spec (Z.abs t) maxTime); [reflexivity | lia]. Qed.

Lemma DateParse_dateKey d :
  validDate d -> 0 <= year d <= 9999 ->
  DateParse (dateKey true true d) = Some (msPerDay * MakeDay d).
Proof.
  intros V Hy. destruct (validDate_fields d V) as [Hm Hd].
  unfold DateParse. rewrite parseISODate_dateKey by assumption.
  now rewrite (proj2 (validDateb_iff d) V).
Qed.

(** The engine reads a padded key of a valid date as that day's midnight,
    universal time, whatever it does with other strings. *)
Lemma Date_getTime_dateKey d :
  validDate d -> 0 <= year d <= 9999 ->
  Date_getTime (dateKey true true d) = Some (msPerDay * MakeDay d).
Proof.
  intros V Hy. unfold Date_getTime. rewrite DateParse_dateKey by assumption.
  apply TimeClip_small. pose proof (MakeDay_bounds d V Hy).
  unfold msPerDay, maxTime. lia.
Qed.

Lemma toISOStringOf_midnight n :
  toISOStringOf (msPerDay * n) =
  isoDate (dateFromDay n) ++ [84] ++ isoTimeOfDay 0 ++ [90].
Proof.
  unfold toISOStringOf.
  replace (msPerDay * n / msPerDay) with n
    by (unfold msPerDay; Z.div_mod_to_equations; lia).
  replace (msPerDay * n mod msPerDay) with 0
    by (unfold msPerDay; Z.div_mod_to_equations; lia).
  reflexivity.
Qed.

Lemma isoDate_without_T d : 0 <= year d <= 9999 -> Forall (fun c => c <> 84) (isoDate d).
Proof.
  intros Hy. unfold isoDate, HYPHEN. rewrite isoYear_4digits by assumption.
  rewrite !Forall_app. repeat split;
    try (apply digitsN_without; lia); repeat constructor; lia.
Qed.

(** What [createEvent] does with the end key of a valid date. *)
Lemma createEvent_dateKey pm pd d st msg rnd :
  validDate d -> 0 <= year d <= 9999 -> year (nextDay d) <= 9999 ->
  createEvent (mkGroup st (dateKey pm pd d) msg) rnd =
  (id <- makeId ;;
   ret (eventText (summaryOf msg) (formatDate st []) (yyyymmdd (nextDay d)) id)) rnd.
Proof.
  intros V Hy Hn. destruct (validDate_fields d V) as [Hm Hd].
  pose proof (nextDay_valid d V) as Vn.
  destruct (validDate_fields _ Vn) as [Hmn Hdn].
  assert (Hyn : 0 <= year (nextDay d) <= 9999).
  { split; [| exact Hn]. unfold nextDay.
    repeat match goal with |- context [if ?b then _ else _] => destruct b end; cbn; lia. }
  unfold createEvent. cbn [end_ start message].
  rewrite formatDate_hyphen by assumption.
  rewrite Date_getTime_dateKey by assumption.
  cbn [numAdd option_map].
  replace (msPerDay * MakeDay d + 24 * 60 * 60 * 1000)
    with (msPerDay * MakeDay (nextDay d))
    by (rewrite MakeDay_nextDay by assumption; unfold msPerDay; lia).
  unfold toISOString. rewrite TimeClip_small.
  2:{ pose proof (MakeDay_bounds _ Vn Hyn). unfold msPerDay, maxTime. lia. }
  rewrite toISOStringOf_midnight, dateFromDay_MakeDay by assumption.
  unfold bind, ret. cbn [app].
  rewrite split_app by (apply isoDate_without_T; assumption).
  cbn [nth]. rewrite isoDate_dateKey, formatDate_compact by assumption.
  destruct (makeId rnd) as [[id rnd'] | e]; [| reflexivity].
  now rewrite text_eventTemplate.
Qed.

Lemma makeId_run rnd : makeId rnd = Ok (drawId rnd, afterId rnd).
Proof. reflexivity. Qed.

Lemma app_same_length {A} (a a' b b' : list A) :
  List.length a = List.length a' -> a ++ b = a' ++ b' -> a = a' /\ b = b'.
Proof.
  revert a'; induction a as [| x a IH]; intros [| x' a'] L E; cbn in *;
    try discriminate; [now split |].
  injection E as -> E. destruct (IH a' ltac:(lia) E) as [-> ->]. now split.
Qed.

Lemma digitsN_inj w n n' :
  0 <= n < 10 ^ Z.of_nat w -> 0 <= n' < 10 ^ Z.of_nat w ->
  digitsN w n = digitsN w n' -> n = n'.
Proof.
  intros H H' E. apply (f_equal (digitsValueFrom 0)) in E.
  rewrite !digitsValueFrom_digitsN in E by assumption. now injection E.
Qed.

Lemma yyyymmdd_inj d d' :
  0 <= year d <= 9999 -> 0 <= month d < 100 -> 0 <= day d < 100 ->
  0 <= year d' <= 9999 -> 0 <= month d' < 100 -> 0 <= day d' < 100 ->
  yyyymmdd d = yyyymmdd d' -> d = d'.
Proof.
  intros Hy Hm Hd Hy' Hm' Hd' E. unfold yyyymmdd in E.
  apply app_same_length in E; [| now rewrite !digitsN_length]. destruct E as [Ey E].
  apply app_same_length in E; [| now rewrite !digitsN_length]. destruct E as [Em Ed].
  apply digitsN_inj in Ey, Em, Ed; try (cbn; lia).
  destruct d, d'; cbn in *; congruence.
Qed.

Lemma yyyymmdd_digits d :
  List.length (yyyymmdd d) = 8%nat /\ Forall (fun c => isDigit c = true) (yyyymmdd d).
Proof.
  unfold yyyymmdd. split.
  - now rewrite !length_app, !digitsN_length.
  - rewrite !Forall_app. repeat split; apply digitsN_digits.
Qed.

Lemma nextDay_year d : validDate d -> year d <= year (nextDay d).
Proof.
  intros _. unfold nextDay.
  repeat match goal with |- context [if ?b then _ else _] => destruct b end; cbn; lia.
Qed.

(** C1.  [createEvent] writes, for a range whose start key names the date
    [d0] and whose end key names the valid date [d] (four-digit years,
    month and day padded or not), DTSTART as the eight digits of [d0] and
    DTEND as the eight digits of the calendar day after [d]; that string
    has eight decimal digits and differs from the one of [d], so a one-day
    range (d0 = d) gets DTSTART = D and DTEND = D + 1 day. *)
Theorem createEvent_exclusive_end :
  forall (pm0 pd0 pm pd : bool) (d0 d : date) (msg : option jsstring) (rnd : entropy),
    validDate d0 -> validDate d ->
    0 <= year d <= 9999 -> year (nextDay d) <= 9999 ->
    createEvent (mkGroup (dateKey pm0 pd0 d0) (dateKey pm pd d) msg) rnd
    = Ok (eventText (summaryOf msg) (yyyymmdd d0) (yyyymmdd (nextDay d)) (drawId rnd),
          afterId rnd)
    /\ List.length (yyyymmdd (nextDay d)) = 8%nat
    /\ Forall (fun c => isDigit c = true) (yyyymmdd (nextDay d))
    /\ yyyymmdd (nextDay d) <> yyyymmdd d.
Proof.
  intros pm0 pd0 pm pd d0 d msg rnd V0 V Hy Hn.
  destruct (validDate_fields d0 V0) as [Hm0 Hd0].
  destruct (validDate_fields d V) as [Hm Hd].
  pose proof (nextDay_valid d V) as Vn.
  destruct (validDate_fields _ Vn) as [Hmn Hdn].
  pose proof (nextDay_year d V) as Hyn.
  split; [| split; [| split]].
  - rewrite createEvent_dateKey by assumption.
    unfold bind. rewrite makeId_run. unfold ret.
    now rewrite formatDate_compact by assumption.
  - apply yyyymmdd_digits.
  - apply yyyymmdd_digits.
  - intros E. apply yyyymmdd_inj in E; try lia.
    pose proof (MakeDay_nextDay d V) as S. rewrite E in S. lia.
Qed.

(** The month and year boundaries of the specification. *)
Example createEvent_month_boundary rnd :
  createEvent (mkGroup (str "2026-01-31") (str "2026-01-31") (Some (str "x"))) rnd
  = Ok (eventText (str "x") (str "20260131") (str "20260201") (drawId rnd), afterId rnd).
Proof.
  change (str "2026-01-31") with (dateKey true true (mkDate 2026 1 31)).
  rewrite createEvent_dateKey by (try split; cbn; lia). reflexivity.
Qed.

Example createEvent_year_boundary rnd :
  createEvent (mkGroup (str "2025-12-31") (str "2025-12-31") (Some (str "x"))) rnd
  = Ok (eventText (str "x") (str "20251231") (str "20260101") (drawId rnd), afterId rnd).
Proof.
  change (str "2025-12-31") with (dateKey true true (mkDate 2025 12 31)).
  rewrite createEvent_dateKey by (try split; cbn; lia). reflexivity.
Qed.

(** ** The stable sort *)

Section SortFacts.
Context {A : Type} (compare : A -> A -> option Z) (rank : A -> Z).

Lemma insertSorted_perm x l : Permutation (insertSorted compare x l) (x :: l).
Proof.
  induction l as [| y l IH]; cbn; [reflexivity |].
  destruct (positive (compare x y)); [| reflexivity].
  rewrite IH. apply perm_swap.
Qed.

Lemma sort_perm l : Permutation (sort compare l) l.
Proof.
  induction l as [| x l IH]; cbn; [reflexivity |].
  rewrite insertSorted_perm. now constructor.
Qed.

Lemma insertSorted_sorted x l :
  (forall y, In y l -> positive (compare x y) = (rank y <? rank x)) ->
  (forall y, In y l -> rank y <> rank x) ->
  StronglySorted (fun a b => rank a < rank b) l ->
  StronglySorted (fun a b => rank a < rank b) (insertSorted compare x l).
Proof.
  intros Hc Hd Hs. induction Hs as [| y l Hs IH Hy]; cbn.
  - repeat constructor.
  - rewrite (Hc y (or_introl eq_refl)).
    pose proof (Hd y (or_introl eq_refl)) as Hne.
    destruct (Z.ltb_spec (rank y) (rank x)) as [L | G].
    + constructor.
      * apply IH; intros; [apply Hc | apply Hd]; now right.
      * rewrite Forall_forall in *. intros z Hz.
        apply (Permutation_in _ (insertSorted_perm x l)) in Hz.
        destruct Hz as [<- | Hz]; [exact L | now apply Hy].
    + constructor; [now constructor |].
      assert (Lx : rank x < rank y) by lia.
      constructor; [exact Lx |].
      rewrite Forall_forall in *. intros z Hz. specialize (Hy z Hz).
      cbn in *. lia.
Qed.

Lemma sort_sorted l :
  (forall x y, In x l -> In y l -> positive (compare x y) = (rank y <? rank x)) ->
  NoDup (map rank l) ->
  StronglySorted (fun a b => rank a < rank b) (sort compare l).
Proof.
  induction l as [| x l IH]; intros Hc Hn; cbn; [constructor |].
  cbn in Hn. apply NoDup_cons_iff in Hn. destruct Hn as [Hx Hn].
  apply insertSorted_sorted.
  - intros y Hy. apply (Permutation_in _ (sort_perm l)) in Hy.
    apply Hc; [now left | now right].
  - intros y Hy E. apply (Permutation_in _ (sort_perm l)) in Hy.
    apply Hx. rewrite <- E. now apply in_map.
  - apply IH; [| exact Hn]. intros; apply Hc; now right.
Qed.

Lemma sorted_perm_unique l1 l2 :
  StronglySorted (fun a b => rank a < rank b) l1 ->
  StronglySorted (fun a b => rank a < rank b) l2 ->
  Permutation l1 l2 -> l1 = l2.
Proof.
  intros H1. revert l2. induction H1 as [| x l1 H1 IH Hx]; intros l2 H2 P.
  - now apply Permutation_nil in P.
  - destruct H2 as [| y l2 H2 Hy].
    + apply Permutation_sym, Permutation_nil in P. discriminate.
    + assert (E : x = y).
      { assert (Ix : In x (y :: l2)) by (apply (Permutation_in _ P); now left).
        assert (Iy : In y (x :: l1))
          by (apply (Permutation_in _ (Permutation_sym P)); now left).
        destruct Ix as [-> | Ix]; [reflexivity |].
        destruct Iy as [-> | Iy]; [reflexivity |].
        rewrite Forall_forall in Hx, Hy.
        specialize (Hx y Iy). specialize (Hy x Ix). cbn in *. lia. }
      subst y. f_equal. apply IH; [exact H2 |].
      now apply Permutation_cons_inv in P.
Qed.
End SortFacts.

(** ** The merging walk *)

Lemma jsstring_eqb_eq a b : jsstring_eqb a b = true <-> a = b.
Proof. unfold jsstring_eqb. destruct (list_eq_dec Z.eq_dec a b); split; congruence. Qed.

Lemma keyDay_time k n : keyDay k = Some n -> Date_getTime k = Some (msPerDay * n).
Proof.
  unfold keyDay. destruct (Date_getTime k) as [t |]; [| discriminate].
  destruct (Z.eqb_spec (t mod msPerDay) 0) as [E |]; [| discriminate].
  intros [= <-]. f_equal. unfold msPerDay in *. Z.div_mod_to_equations. lia.
Qed.

Lemma keyDay_dayOf k : keyDay k <> None -> keyDay k = Some (dayOf k).
Proof. unfold dayOf. destruct (keyDay k); congruence. Qed.

Lemma lastOf_snoc {A} (l : list A) x : lastOf (l ++ [x]) = Some x.
Proof. unfold lastOf. now rewrite rev_app_distr. Qed.

Lemma snoc_cases {A} (l : list A) : l = [] \/ exists l' x, l = l' ++ [x].
Proof.
  induction l as [| x l _] using rev_ind; [now left | right; eauto].
Qed.

Lemma StronglySorted_snoc {A} (R : A -> A -> Prop) l x :
  StronglySorted R (l ++ [x]) <-> StronglySorted R l /\ Forall (fun y => R y x) l.
Proof.
  induction l as [| y l IH]; cbn.
  - split; [intros _; split; constructor | intros _; repeat constructor].
  - split.
    + intros H. apply StronglySorted_inv in H. destruct H as [Hs Hy].
      apply IH in Hs. destruct Hs as [Hs Hx].
      apply Forall_app in Hy. destruct Hy as [Hy Hyx].
      split; [now constructor |]. constructor; [now inversion Hyx | exact Hx].
    + intros [Hs Hx]. apply StronglySorted_inv in Hs. destruct Hs as [Hs Hy].
      inversion Hx; subst. constructor.
      * apply IH. now split.
      * apply Forall_app. split; [exact Hy | now repeat constructor].
  Qed.

(** One step of the walk on keys that are read as days: the key joins the
    open range exactly when the open range does not end on day 0, the
    messages agree and the key is the next day. *)
Lemma makeGroupsStep_first m el :
  makeGroupsStep m [] el = [mkGroup el el (option_map Annotation.message (Map_get m el))].
Proof. reflexivity. Qed.

Lemma makeGroupsStep_next m acc prev el n p :
  keyDay el = Some n -> keyDay (end_ prev) = Some p ->
  makeGroupsStep m (acc ++ [prev]) el =
  if negb (p =? 0)
     && messageEq (option_map Annotation.message (Map_get m el)) (message prev)
     && (n =? p + 1)
  then acc ++ [mkGroup (start prev) el (message prev)]
  else (acc ++ [prev]) ++ [mkGroup el el (option_map Annotation.message (Map_get m el))].
Proof.
  intros Hn Hp. unfold makeGroupsStep.
  rewrite lastOf_snoc, removelast_last.
  rewrite (keyDay_time _ _ Hn), (keyDay_time _ _ Hp). cbn [truthy numSub].
  replace (msPerDay * p =? 0) with (p =? 0)
    by (unfold msPerDay; destruct (Z.eqb_spec p 0), (Z.eqb_spec (24 * 60 * 60 * 1000 * p) 0);
        try reflexivity; lia).
  replace (msPerDay * n - msPerDay * p =? 24 * 60 * 60 * 1000) with (n =? p + 1)
    by (unfold msPerDay; destruct (Z.eqb_spec n (p + 1)),
          (Z.eqb_spec (24 * 60 * 60 * 1000 * n - 24 * 60 * 60 * 1000 * p)
                      (24 * 60 * 60 * 1000)); try reflexivity; lia).
  reflexivity.
Qed.

Lemma walked_nil : walked [] [].
Proof.
  constructor; [constructor | constructor | intros k [] | intros g n []].
Qed.

Lemma walked_step m seen acc el :
  Forall (fun k => keyDay k <> None) (seen ++ [el]) ->
  Forall (fun k => dayOf k < dayOf el) seen ->
  walked seen acc -> walked (seen ++ [el]) (makeGroupsStep m acc el).
Proof.
  intros Hv Hlt [Hends Hapart Hall Honly].
  rewrite Forall_app in Hv. destruct Hv as [Hvs Hvel].
  apply Forall_inv in Hvel. rewrite Forall_forall in Hvs, Hlt, Hends.
  set (fresh := mkGroup el el (option_map Annotation.message (Map_get m el))).
  assert (Fresh : walked (seen ++ [el]) (acc ++ [fresh])).
  { constructor.
    - apply Forall_app. split.
      + apply Forall_forall. intros g Hg. destruct (Hends g Hg) as (A & B & C).
        rewrite !in_app_iff. auto.
      + repeat constructor; cbn; rewrite ?in_app_iff; cbn; auto; lia.
    - apply StronglySorted_snoc. split; [exact Hapart |].
      apply Forall_forall. intros g Hg. destruct (Hends g Hg) as (A & B & C).
      cbn. now apply Hlt.
    - intros k Hk. apply in_app_iff in Hk. destruct Hk as [Hk | [<- | []]].
      + destruct (Hall k Hk) as (g & Hg & Hr). exists g. rewrite in_app_iff. auto.
      + exists fresh. rewrite in_app_iff. cbn. split; [auto | lia].
    - intros g n Hg Hr. apply in_app_iff in Hg. destruct Hg as [Hg | [<- | []]].
      + destruct (Honly g n Hg Hr) as (k & Hk & E). exists k. rewrite in_app_iff. auto.
      + cbn in Hr. exists el. rewrite in_app_iff. cbn. split; [auto | lia]. }
  destruct (snoc_cases acc) as [-> | (acc' & prev & ->)]; [exact Fresh |].
  assert (Hprev : In prev (acc' ++ [prev])) by (rewrite in_app_iff; cbn; auto).
  destruct (Hends prev Hprev) as (Ps & Pe & Ple).
  rewrite (makeGroupsStep_next m acc' prev el (dayOf el) (dayOf (end_ prev)))
    by (apply keyDay_dayOf; auto).
  fold fresh.
  destruct (negb (dayOf (end_ prev) =? 0) && _ && (dayOf el =? dayOf (end_ prev) + 1))
    eqn:Merge; [| exact Fresh].
  apply andb_true_iff in Merge. destruct Merge as [_ Next]. apply Z.eqb_eq in Next.
  apply StronglySorted_snoc in Hapart. destruct Hapart as [Hapart Hbefore].
  constructor.
  - apply Forall_app. split.
    + apply Forall_forall. intros g Hg.
      destruct (Hends g ltac:(rewrite in_app_iff; auto)) as (A & B & C).
      rewrite !in_app_iff. auto.
    + repeat constructor; cbn; rewrite ?in_app_iff; cbn; auto; lia.
  - apply StronglySorted_snoc. split; [exact Hapart | exact Hbefore].
  - intros k Hk. apply in_app_iff in Hk. destruct Hk as [Hk | [<- | []]].
    + destruct (Hall k Hk) as (g & Hg & Hr).
      apply in_app_iff in Hg. destruct Hg as [Hg | [<- | []]].
      * exists g. rewrite in_app_iff. auto.
      * eexists. rewrite in_app_iff. cbn. split; [right; left; reflexivity |].
        cbn. lia.
    + eexists. rewrite in_app_iff. cbn. split; [right; left; reflexivity |].
      cbn. lia.
  - intros g n Hg Hr. apply in_app_iff in Hg. destruct Hg as [Hg | [<- | []]].
    + destruct (Honly g n ltac:(rewrite in_app_iff; auto) Hr) as (k & Hk & E).
      exists k. rewrite in_app_iff. auto.
    + cbn in Hr. destruct (Z.eq_dec n (dayOf el)) as [-> | Hne].
      * exists el. rewrite in_app_iff. cbn. auto.
      * destruct (Honly prev n Hprev ltac:(lia)) as (k & Hk & E).
        exists k. rewrite in_app_iff. auto.
Qed.

Lemma walked_fold m ks : forall seen acc,
  Forall (fun k => keyDay k <> None) (seen ++ ks) ->
  StronglySorted (fun a b => dayOf a < dayOf b) (seen ++ ks) ->
  walked seen acc -> walked (seen ++ ks) (fold_left (makeGroupsStep m) ks acc).
Proof.
  induction ks as [| el ks IH]; intros seen acc Hv Hs W; cbn.
  - now rewrite app_nil_r.
  - replace (seen ++ el :: ks) with ((seen ++ [el]) ++ ks) in *
      by (now rewrite <- app_assoc).
    apply IH; [exact Hv | exact Hs |].
    apply walked_step; [| | exact W].
    + now apply Forall_app in Hv.
    + clear - Hs. induction seen as [| a seen IHs]; [constructor |].
      cbn in Hs. apply StronglySorted_inv in Hs. destruct Hs as [Hs Ha].
      constructor; [| now apply IHs].
      rewrite Forall_forall in Ha. apply Ha. rewrite !in_app_iff. cbn. auto.
Qed.

(** ** makeGroups on maps of dates *)

Lemma StronglySorted_weaken {A} (R R' : A -> A -> Prop) l :
  (forall a b, In a l -> In b l -> R a b -> R' a b) ->
  StronglySorted R l -> StronglySorted R' l.
Proof.
  intros H S. induction S as [| x l S IH Hx]; constructor.
  - apply IH. intros; apply H; auto; now right.
  - rewrite Forall_forall in *. intros y Hy. apply H; [now left | now right | auto].
Qed.

Lemma dateKeys_sorted m :
  dateKeys m ->
  let sortedDates :=
    sort (fun a b => numSub (Date_getTime a) (Date_getTime b)) (Map_keys m) in
  Permutation sortedDates (Map_keys m)
  /\ Forall (fun k => keyDay k <> None) sortedDates
  /\ StronglySorted (fun a b => dayOf a < dayOf b) sortedDates.
Proof.
  intros (Hnd & Hv & Hinj) sortedDates.
  pose proof (sort_perm (fun a b => numSub (Date_getTime a) (Date_getTime b)) (Map_keys m))
    as P. fold sortedDates in P.
  split; [exact P | split].
  - apply Forall_forall. intros k Hk. apply Hv. now apply (Permutation_in _ P).
  - apply (sort_sorted _ dayOf).
    + intros x y Hx Hy.
      rewrite (keyDay_time x (dayOf x)), (keyDay_time y (dayOf y))
        by (apply keyDay_dayOf; auto).
      cbn [numSub positive].
      repeat match goal with
             | |- context [?a <? ?b] => destruct (Z.ltb_spec a b)
             end; try reflexivity; unfold msPerDay in *; lia.
    + apply NoDup_map_NoDup_ForallPairs; [| exact Hnd].
      intros x y Hx Hy E. apply Hinj; auto.
      rewrite (keyDay_dayOf x), (keyDay_dayOf y) by auto. now rewrite E.
Qed.

Lemma makeGroups_walked m :
  dateKeys m ->
  exists sortedDates,
    Permutation sortedDates (Map_keys m)
    /\ walked sortedDates (makeGroups m).
Proof.
  intros H. destruct (dateKeys_sorted m H) as (P & V & S).
  eexists. split; [exact P |].
  unfold makeGroups. apply (walked_fold m _ [] []); cbn; auto using walked_nil.
Qed.

Lemma walked_valid m seen g :
  dateKeys m -> Permutation seen (Map_keys m) -> walked seen (makeGroups m) ->
  In g (makeGroups m) ->
  keyDay (start g) = Some (dayOf (start g)) /\ keyDay (end_ g) = Some (dayOf (end_ g))
  /\ dayOf (start g) <= dayOf (end_ g).
Proof.
  intros (_ & Hv & _) P W Hg.
  pose proof (walked_ends _ _ W) as E. rewrite Forall_forall in E.
  destruct (E g Hg) as (A & B & C).
  repeat split; [apply keyDay_dayOf, Hv | apply keyDay_dayOf, Hv | exact C];
    now apply (Permutation_in _ P).
Qed.

Lemma filter_none {A} (f : A -> bool) l :
  (forall x, In x l -> f x = false) -> filter f l = [].
Proof.
  induction l as [| x l IH]; intros H; cbn; [reflexivity |].
  rewrite (H x (or_introl eq_refl)). apply IH. intros; apply H; now right.
Qed.

Lemma spans_once gs n :
  StronglySorted (fun g1 g2 => dayOf (end_ g1) < dayOf (start g2)) gs ->
  Forall (fun g => dayOf (start g) <= dayOf (end_ g)) gs ->
  (exists g, In g gs /\ dayOf (start g) <= n <= dayOf (end_ g)) ->
  List.length (filter (spans n) gs) = 1%nat.
Proof.
  intros S. induction S as [| g gs S IH Hg]; intros F (h & Hh & Hn); [destruct Hh |].
  apply Forall_cons_iff in F. destruct F as [Fg F]. rewrite Forall_forall in Hg, F.
  cbn [filter]. unfold spans at 1.
  destruct (Z.leb_spec (dayOf (start g)) n) as [L1 | L1];
    destruct (Z.leb_spec n (dayOf (end_ g))) as [L2 | L2]; cbn [andb].
  - replace (filter (spans n) gs) with (@nil group); [reflexivity |].
    symmetry. apply filter_none. intros x Hx. specialize (Hg x Hx). unfold spans.
    destruct (Z.leb_spec (dayOf (start x)) n); [lia | reflexivity].
  - apply IH; [now apply Forall_forall |]. destruct Hh as [<- | Hh]; [lia |]. eauto.
  - apply IH; [now apply Forall_forall |]. destruct Hh as [<- | Hh]; [lia |]. eauto.
  - apply IH; [now apply Forall_forall |]. destruct Hh as [<- | Hh]; [lia |]. eauto.
Qed.

(** Zero-padded keys of distinct valid dates form such a map in every engine. *)
Lemma keyDay_dateKey d :
  validDate d -> 0 <= year d <= 9999 -> keyDay (dateKey true true d) = Some (MakeDay d).
Proof.
  intros V Hy. unfold keyDay. rewrite Date_getTime_dateKey by assumption.
  replace (msPerDay * MakeDay d mod msPerDay) with 0
    by (unfold msPerDay; Z.div_mod_to_equations; lia).
  cbn [Z.eqb]. f_equal. unfold msPerDay. Z.div_mod_to_equations. lia.
Qed.

Lemma dateKeys_padded m ds :
  Map_keys m = map (dateKey true true) ds ->
  NoDup ds -> Forall (fun d => validDate d /\ 0 <= year d <= 9999) ds ->
  dateKeys m.
Proof.
  intros E N V. rewrite Forall_forall in V. unfold dateKeys. rewrite E.
  assert (K : forall k, In k (map (dateKey true true) ds) ->
                        exists d, In d ds /\ k = dateKey true true d
                                  /\ keyDay k = Some (MakeDay d)).
  { intros k Hk. apply in_map_iff in Hk. destruct Hk as (d & <- & Hd).
    exists d. destruct (V d Hd). auto using keyDay_dateKey. }
  assert (I : forall d d', In d ds -> In d' ds ->
                           dateKey true true d = dateKey true true d' -> d = d').
  { intros d d' Hd Hd' Ek. destruct (V d Hd) as [Vd Yd]. destruct (V d' Hd') as [Vd' Yd'].
    apply MakeDay_inj; auto.
    pose proof (keyDay_dateKey d Vd Yd) as A. rewrite Ek, keyDay_dateKey in A by auto.
    now injection A. }
  split; [| split].
  - apply NoDup_map_NoDup_ForallPairs; [| exact N]. intros d d' Hd Hd'. now apply I.
  - intros k Hk. destruct (K k Hk) as (d & _ & _ & ->). discriminate.
  - intros k k' Hk Hk' Ek.
    destruct (K k Hk) as (d & Hd & -> & A). destruct (K k' Hk') as (d' & Hd' & -> & A').
    rewrite A, A' in Ek. injection Ek as Ek.
    destruct (V d Hd), (V d' Hd'). f_equal. now apply MakeDay_inj.
Qed.

Lemma distinct_NoDup l : distinct l = true -> NoDup l.
Proof.
  induction l as [| x l IH]; cbn; [constructor |].
  intros H. apply andb_true_iff in H. destruct H as [Hx Hl].
  constructor; [| now apply IH].
  intros Hin. apply negb_true_iff in Hx.
  assert (existsb (Z.eqb x) l = true); [| congruence].
  apply existsb_exists. exists x. split; [exact Hin | apply Z.eqb_refl].
Qed.

Lemma NoDup_map_injective {A B} (f : A -> B) l x y :
  NoDup (map f l) -> In x l -> In y l -> f x = f y -> x = y.
Proof.
  induction l as [| a l IH]; cbn; intros N Hx Hy E; [destruct Hx |].
  apply NoDup_cons_iff in N. destruct N as [Na N].
  destruct Hx as [-> | Hx], Hy as [-> | Hy]; auto.
  - exfalso. apply Na. rewrite E. now apply in_map.
  - exfalso. apply Na. rewrite <- E. now apply in_map.
Qed.

Lemma dateKeysb_sound m : dateKeysb m = true -> dateKeys m.
Proof.
  unfold dateKeysb, dateKeys. intros H. apply andb_true_iff in H.
  destruct H as [Hv Hd]. apply distinct_NoDup in Hd.
  rewrite forallb_forall in Hv. split; [| split].
  - eapply NoDup_map_inv. exact Hd.
  - intros k Hk. specialize (Hv k Hk). destruct (keyDay k); congruence.
  - intros k k' Hk Hk' E. apply (NoDup_map_injective dayOf (Map_keys m)); auto.
    unfold dayOf. now rewrite E.
Qed.

(** C2.  On a map whose keys are calendar dates the ranges of
    [makeGroups] cover exactly the keys: the day of every key lies in the
    inclusive span of exactly one range, and every day in the span of a
    range is the day of a key of the map. *)
Theorem makeGroups_coverage :
  forall m : JsMap,
    dateKeys m ->
    (forall k, In k (Map_keys m) ->
       exists n, keyDay k = Some n
                 /\ List.length (filter (covers n) (makeGroups m)) = 1%nat)
    /\ (forall g n, In g (makeGroups m) -> covers n g = true ->
          exists k, In k (Map_keys m) /\ keyDay k = Some n).
Proof.
  intros m H. destruct (makeGroups_walked m H) as (seen & P & W).
  pose proof (walked_valid m seen) as Valid.
  assert (Same : forall n, filter (covers n) (makeGroups m) = filter (spans n) (makeGroups m)).
  { intros n. apply filter_ext_in. intros g Hg.
    destruct (Valid g H P W Hg) as (A & B & _). unfold covers, spans. now rewrite A, B. }
  split.
  - intros k Hk. exists (dayOf k). split.
    + apply keyDay_dayOf. now apply H.
    + rewrite Same. apply spans_once.
      * exact (walked_apart _ _ W).
      * eapply Forall_impl; [| exact (walked_ends _ _ W)]. cbn. tauto.
      * apply (walked_all _ _ W). now apply (Permutation_in _ (Permutation_sym P)).
  - intros g n Hg Hc. destruct (Valid g H P W Hg) as (A & B & _).
    unfold covers in Hc. rewrite A, B in Hc. apply andb_true_iff in Hc.
    destruct Hc as [L1 L2]. apply Z.leb_le in L1, L2.
    destruct (walked_only _ _ W g n Hg ltac:(lia)) as (k & Hk & E).
    apply (Permutation_in _ P) in Hk. exists k. split; [exact Hk |].
    rewrite <- E. apply keyDay_dayOf. now apply H.
Qed.

(** C4.  On a map whose keys are calendar dates every range of
    [makeGroups] has its start not after its end, each range ends before
    every later range starts, and the starts increase strictly. *)
Theorem makeGroups_ordered :
  forall m : JsMap,
    dateKeys m ->
    Forall (fun g => keyLe (start g) (end_ g)) (makeGroups m)
    /\ StronglySorted (fun g1 g2 => keyLt (end_ g1) (start g2)) (makeGroups m)
    /\ StronglySorted (fun g1 g2 => keyLt (start g1) (start g2)) (makeGroups m).
Proof.
  intros m H. destruct (makeGroups_walked m H) as (seen & P & W).
  pose proof (walked_valid m seen) as Valid.
  split; [| split].
  - apply Forall_forall. intros g Hg. destruct (Valid g H P W Hg) as (A & B & C).
    exists (dayOf (start g)), (dayOf (end_ g)). auto.
  - eapply StronglySorted_weaken; [| exact (walked_apart _ _ W)].
    cbn. intros a b Ha Hb L.
    destruct (Valid a H P W Ha) as (_ & Ea & _). destruct (Valid b H P W Hb) as (Sb & _ & _).
    exists (dayOf (end_ a)), (dayOf (start b)). auto.
  - eapply StronglySorted_weaken; [| exact (walked_apart _ _ W)].
    cbn. intros a b Ha Hb L.
    destruct (Valid a H P W Ha) as (Sa & _ & La). destruct (Valid b H P W Hb) as (Sb & _ & _).
    exists (dayOf (start a)), (dayOf (start b)). repeat split; auto. lia.
Qed.

Lemma Map_get_In m k v : NoDup (Map_keys m) -> In (k, v) m -> Map_get m k = Some v.
Proof.
  induction m as [| [k' v'] m IH]; cbn; intros N Hin; [destruct Hin |].
  apply NoDup_cons_iff in N. destruct N as [Nk N].
  destruct Hin as [[= -> ->] | Hin].
  - now rewrite (proj2 (jsstring_eqb_eq k k) eq_refl).
  - destruct (jsstring_eqb k' k) eqn:E; [| now apply IH].
    apply jsstring_eqb_eq in E. subst k'. exfalso. apply Nk.
    change k with (fst (k, v)). now apply in_map.
Qed.

Lemma Map_get_absent m k : ~ In k (Map_keys m) -> Map_get m k = None.
Proof.
  induction m as [| [k' v'] m IH]; cbn; intros N; [reflexivity |].
  destruct (jsstring_eqb k' k) eqn:E.
  - apply jsstring_eqb_eq in E. tauto.
  - apply IH. tauto.
Qed.

Lemma Map_get_perm m1 m2 k :
  NoDup (Map_keys m1) -> Permutation m1 m2 -> Map_get m1 k = Map_get m2 k.
Proof.
  intros N P.
  assert (N2 : NoDup (Map_keys m2))
    by (eapply Permutation_NoDup; [apply Permutation_map, P | exact N]).
  destruct (in_dec (list_eq_dec Z.eq_dec) k (Map_keys m1)) as [Hin | Hout].
  - apply in_map_iff in Hin. destruct Hin as ([k' v] & E & Hin). cbn in E. subst k'.
    rewrite (Map_get_In m1 k v N Hin).
    symmetry. apply Map_get_In; [exact N2 | now apply (Permutation_in _ P)].
  - rewrite (Map_get_absent m1 k Hout). symmetry. apply Map_get_absent.
    intros Hin. apply Hout.
    eapply Permutation_in; [apply Permutation_sym, Permutation_map, P | exact Hin].
Qed.

Lemma fold_left_same {A B} (f g : A -> B -> A) l :
  (forall a b, f a b = g a b) -> forall a, fold_left f l a = fold_left g l a.
Proof.
  intros E. induction l as [| b l IH]; intros a; cbn; [reflexivity |].
  now rewrite E, IH.
Qed.

Lemma dateKeys_perm m1 m2 : dateKeys m1 -> Permutation m1 m2 -> dateKeys m2.
Proof.
  intros (N & V & I) P.
  assert (K : Permutation (Map_keys m2) (Map_keys m1))
    by (apply Permutation_sym, Permutation_map, P).
  split; [| split].
  - eapply Permutation_NoDup; [apply Permutation_sym, K | exact N].
  - intros k Hk. apply V. now apply (Permutation_in _ K).
  - intros k k' Hk Hk'. apply I; now apply (Permutation_in _ K).
Qed.

(** C5.  Two maps of dates with the same entries, inserted in any two
    orders, give the same sequence of ranges: the keys are sorted
    chronologically before the walk. *)
Theorem makeGroups_insertion_order :
  forall m1 m2 : JsMap,
    dateKeys m1 -> Permutation m1 m2 -> makeGroups m1 = makeGroups m2.
Proof.
  intros m1 m2 H1 P. pose proof (dateKeys_perm m1 m2 H1 P) as H2.
  destruct (dateKeys_sorted m1 H1) as (P1 & _ & S1).
  destruct (dateKeys_sorted m2 H2) as (P2 & _ & S2).
  unfold makeGroups.
  rewrite (sorted_perm_unique dayOf _ _ S1 S2).
  - apply fold_left_same. intros acc el. unfold makeGroupsStep.
    now rewrite (Map_get_perm m1 m2 el (proj1 H1) P).
  - rewrite P1, P2. apply Permutation_map, P.
Qed.

(** ** createEvent and the document *)

Lemma createEvent_run g rnd :
  createEvent g rnd =
  match exclusiveEnd g with
  | Some dtend => Ok (eventOf g dtend (drawId rnd), afterId rnd)
  | None => Throw invalidTime
  end.
Proof.
  unfold createEvent, exclusiveEnd, toISOString, eventOf.
  change (24 * 60 * 60 * 1000) with msPerDay.
  destruct (TimeClip _) as [v |]; [| reflexivity].
  unfold bind, ret. rewrite makeId_run. now rewrite text_eventTemplate.
Qed.

Lemma forEach_throws (gs : list group) rnd g :
  In g gs -> exclusiveEnd g = None -> forEach createEvent gs rnd = Throw invalidTime.
Proof.
  revert rnd. induction gs as [| h gs IH]; intros rnd Hin Hg; [destruct Hin |].
  cbn [forEach]. unfold bind at 1. rewrite createEvent_run.
  destruct Hin as [-> | Hin].
  - now rewrite Hg.
  - destruct (exclusiveEnd h); [| reflexivity].
    unfold bind at 1. now rewrite (IH _ Hin Hg).
Qed.

Lemma forEach_run (gs : list group) : forall rnd events rnd',
  forEach createEvent gs rnd = Ok (events, rnd') ->
  Forall2 (fun ev gr => exists dtend, exclusiveEnd (fst gr) = Some dtend
                                      /\ ev = eventOf (fst gr) dtend (drawId (snd gr)))
          events (combine gs (draws (List.length gs) rnd)).
Proof.
  induction gs as [| g gs IH]; intros rnd events rnd' H.
  - unfold forEach, ret in H. injection H as <- _. constructor.
  - cbn [forEach] in H. unfold bind at 1 in H. rewrite createEvent_run in H.
    destruct (exclusiveEnd g) as [dtend |] eqn:E; [| discriminate].
    unfold bind at 1 in H.
    destruct (forEach createEvent gs (afterId rnd)) as [[evs r] |] eqn:F; [| discriminate].
    unfold ret in H. injection H as <- _. cbn [List.length draws combine].
    constructor; [exists dtend; cbn [fst snd]; auto | exact (IH _ _ _ F)].
Qed.

Lemma serialize_run gs rnd :
  serialize gs rnd =
  match forEach createEvent gs rnd with
  | Ok (events, rnd') => Ok (documentOf events, rnd')
  | Throw e => Throw e
  end.
Proof. unfold serialize, bind. now destruct (forEach createEvent gs rnd) as [[? ?] |]. Qed.

Lemma main_serialize m rnd : main m rnd = serialize (makeGroups m) rnd.
Proof. reflexivity. Qed.

(** C7.  An empty map is no error: the document is the five header lines
    followed at once by END:VCALENDAR. *)
Theorem main_empty_map :
  forall rnd : entropy,
    main [] rnd
    = Ok (str "BEGIN:VCALENDAR" ++ [LF]
          ++ str "VERSION:2.0" ++ [LF]
          ++ str "PRODID:-//Work calendar//ical.lexfoxer.com/work//RU" ++ [LF]
          ++ str "X-WR-CALNAME:Производственный календарь" ++ [LF]
          ++ str "NAME:Производственный календарь" ++ [LF]
          ++ str "END:VCALENDAR",
          rnd).
Proof. intros rnd. vm_compute. reflexivity. Qed.

(** *** Keys the engine rejects *)

(** A key the engine cannot read never joins a range and no later key
    joins its range: it stays in the output as a range of its own. *)
Lemma makeGroupsStep_keeps m acc el k :
  Date_getTime k = None ->
  (exists g, In g acc /\ end_ g = k) ->
  exists g, In g (makeGroupsStep m acc el) /\ end_ g = k.
Proof.
  intros Hk (g & Hg & E). unfold makeGroupsStep.
  destruct (snoc_cases acc) as [-> | (acc' & prev & ->)]; [destruct Hg |].
  rewrite lastOf_snoc, removelast_last.
  apply in_app_iff in Hg. destruct Hg as [Hg | [Heq | []]].
  - exists g. split; [| exact E].
    destruct (truthy _ && _ && _); rewrite !in_app_iff; auto.
  - subst prev. rewrite E, Hk. cbn [truthy andb]. exists g.
    rewrite !in_app_iff. cbn. auto.
Qed.

Lemma makeGroupsStep_opens m acc k :
  Date_getTime k = None ->
  exists g, In g (makeGroupsStep m acc k) /\ end_ g = k.
Proof.
  intros Hk. unfold makeGroupsStep. rewrite Hk.
  eexists (mkGroup k k _).
  destruct (lastOf acc) as [prev |].
  - cbn [numSub]. rewrite !andb_false_r. rewrite in_app_iff. cbn. eauto.
  - rewrite in_app_iff. cbn. eauto.
Qed.

Lemma fold_keeps m ks k : forall acc,
  Date_getTime k = None ->
  (exists g, In g acc /\ end_ g = k) ->
  exists g, In g (fold_left (makeGroupsStep m) ks acc) /\ end_ g = k.
Proof.
  induction ks as [| el ks IH]; intros acc Hk H; cbn; [exact H |].
  apply IH; [exact Hk |]. now apply makeGroupsStep_keeps.
Qed.

Lemma makeGroups_rejected_key m k :
  In k (Map_keys m) -> Date_getTime k = None ->
  exists g, In g (makeGroups m) /\ end_ g = k.
Proof.
  intros Hin Hk. unfold makeGroups.
  set (ks := sort _ (Map_keys m)).
  assert (Hks : In k ks)
    by (apply (Permutation_in _ (Permutation_sym (sort_perm _ (Map_keys m)))), Hin).
  clearbody ks. generalize (@nil group) as acc.
  induction ks as [| el ks IH]; intros acc; [destruct Hks |].
  cbn [fold_left]. destruct Hks as [-> | Hks].
  - apply fold_keeps; [exact Hk |]. now apply makeGroupsStep_opens.
  - now apply IH.
Qed.

(** C6, as the code has it.  When the engine rejects a key of the map,
    both as it is written and after [formatDate] has padded its fields,
    the run stops with the RangeError of [toISOString]: no document is
    produced, the key is neither skipped nor replaced. *)
Theorem main_rejected_key_aborts :
  forall (m : JsMap) (k : jsstring) (rnd : entropy),
    In k (Map_keys m) ->
    Date_getTime k = None ->
    Date_getTime (formatDate k (str "-")) = None ->
    main m rnd = Throw invalidTime.
Proof.
  intros m k rnd Hin Hraw Hpad.
  destruct (makeGroups_rejected_key m k Hin Hraw) as (g & Hg & E).
  rewrite main_serialize, serialize_run.
  rewrite (forEach_throws _ rnd g Hg); [reflexivity |].
  unfold exclusiveEnd. now rewrite E, Hpad.
Qed.

(** A year alone is one of the standard date-only forms: every engine
    reads it as the first of January, and the run goes through. *)
Lemma main_year_only_key rnd :
  main [(str "2026", newYear)] rnd
  = Ok (documentOf [eventText (str "New Year") (str "2026") (str "20260102") (drawId rnd)],
        afterId rnd).
Proof.
  rewrite main_serialize, serialize_run.
  change (makeGroups [(str "2026", newYear)])
    with [mkGroup (str "2026") (str "2026") (Some (str "New Year"))].
  cbn [forEach]. unfold bind. rewrite createEvent_run.
  replace (exclusiveEnd (mkGroup (str "2026") (str "2026") (Some (str "New Year"))))
    with (Some (str "20260102")) by (vm_compute; reflexivity).
  reflexivity.
Qed.

(** *** The merge rule on small maps *)

(** The merge test reads [prevDateEnd && ...], and the time value of
    1970-01-01 is 0, which is falsy: a range that ends on 1970-01-01 is
    never extended.  The years the program accepts, 2020 to 2100, keep
    that day out of every map it builds. *)
Example makeGroups_epoch_day_not_merged :
  makeGroups [ (str "1970-01-01", newYear); (str "1970-01-02", newYear) ]
  = [ mkGroup (str "1970-01-01") (str "1970-01-01") (Some (str "New Year"));
      mkGroup (str "1970-01-02") (str "1970-01-02") (Some (str "New Year")) ].
Proof. vm_compute. reflexivity. Qed.

(** The same two annotations one day later do merge. *)
Example makeGroups_next_day_merged :
  makeGroups [ (str "1970-01-02", newYear); (str "1970-01-03", newYear) ]
  = [ mkGroup (str "1970-01-02") (str "1970-01-03") (Some (str "New Year")) ].
Proof. vm_compute. reflexivity. Qed.

(** The category flags are not compared: a holiday and a shortened day
    with the same text merge; adjacent days with different texts and
    equal texts two days apart do not. *)
Example makeGroups_flags_ignored :
  makeGroups [ (str "2026-12-31", Annotation.mk (str "X") false true);
               (str "2027-01-01", Annotation.mk (str "X") true false) ]
  = [ mkGroup (str "2026-12-31") (str "2027-01-01") (Some (str "X")) ].
Proof. vm_compute. reflexivity. Qed.

Example makeGroups_messages_differ :
  makeGroups [ (str "2026-01-01", Annotation.mk (str "X") true false);
               (str "2026-01-02", Annotation.mk (str "Y") true false) ]
  = [ mkGroup (str "2026-01-01") (str "2026-01-01") (Some (str "X"));
      mkGroup (str "2026-01-02") (str "2026-01-02") (Some (str "Y")) ].
Proof. vm_compute. reflexivity. Qed.

Example makeGroups_gap :
  makeGroups [ (str "2026-01-01", Annotation.mk (str "X") true false);
               (str "2026-01-03", Annotation.mk (str "X") true false) ]
  = [ mkGroup (str "2026-01-01") (str "2026-01-01") (Some (str "X"));
      mkGroup (str "2026-01-03") (str "2026-01-03") (Some (str "X")) ].
Proof. vm_compute. reflexivity. Qed.

(** ** parseCliYear *)

Lemma digit_not_space c : isDigit c = true -> isWhiteSpace c = false.
Proof.
  unfold isDigit, isWhiteSpace, isLineTerminator. intros H.
  apply andb_true_iff in H. destruct H as [A B]. apply Z.leb_le in A, B.
  repeat match goal with
         | |- context [?a =? ?b] => destruct (Z.eqb_spec a b); [lia |]
         | |- context [?a <=? ?b] => destruct (Z.leb_spec a b); [try lia |]
         end; cbn; try reflexivity; lia.
Qed.

Lemma trim_fourDigits p : fourDigits p = true -> trim p = p.
Proof.
  unfold fourDigits. intros H. apply andb_true_iff in H. destruct H as [L D].
  apply Nat.eqb_eq in L. rewrite forallb_forall in D.
  destruct p as [| c p]; [discriminate |].
  unfold trim. rewrite trimStart_keep by (apply digit_not_space, D; now left).
  destruct (snoc_cases (c :: p)) as [E | (q & z & E)]; [discriminate |].
  rewrite E. replace (q ++ [z]) with (q ++ z :: []) by reflexivity.
  apply trimEnd_app_tail; [| reflexivity].
  apply digit_not_space, D. rewrite E, in_app_iff. cbn. auto.
Qed.

Lemma digitsValueFrom_total s : forall acc,
  forallb isDigit s = true -> exists n, digitsValueFrom acc s = Some n.
Proof.
  induction s as [| c s IH]; intros acc H; cbn in *; [eauto |].
  apply andb_true_iff in H. destruct H as [Hc Hs]. rewrite Hc. now apply IH.
Qed.

(** The test and the two throws of [parseCliYear] are [validatedYear]. *)
Lemma validation_validatedYear year :
  (if jsstring_eqb year [] || negb (fourDigits year) then Throw yearRequired
   else match digitsValue year with
        | Some asNumber =>
            if (asNumber <? 2020) || (2100 <? asNumber) then Throw yearInvalid else Ok year
        | None => Throw yearRequired
        end) = validatedYear year.
Proof.
  unfold validatedYear, yearNumber.
  destruct (fourDigits year) eqn:F; cbn [negb]; [| now rewrite orb_true_r].
  assert (N : jsstring_eqb year [] = false).
  { destruct (jsstring_eqb year []) eqn:E; [| reflexivity].
    apply jsstring_eqb_eq in E. subst. discriminate. }
  rewrite N. cbn [orb].
  unfold fourDigits in F. apply andb_true_iff in F. destruct F as [L D].
  destruct year as [| c year]; [discriminate |].
  destruct (digitsValueFrom_total (c :: year) 0 D) as (n & E).
  unfold digitsValue. rewrite E.
  destruct (Z.ltb_spec n 2020), (Z.ltb_spec 2100 n), (Z.leb_spec 2020 n), (Z.leb_spec n 2100);
    cbn; try reflexivity; lia.
Qed.

Lemma findIndex_last {A} (p : A -> bool) pre x :
  forallb (fun a => negb (p a)) pre = true -> p x = true ->
  findIndex p (pre ++ [x]) = Some (List.length pre).
Proof.
  intros Hpre Hx. induction pre as [| a pre IH]; cbn in *.
  - now rewrite Hx.
  - apply andb_true_iff in Hpre. destruct Hpre as [Ha Hpre].
    apply negb_true_iff in Ha. rewrite Ha, (IH Hpre). reflexivity.
Qed.

Lemma find_app {A} (p : A -> bool) l l' :
  find p (l ++ l') = match find p l with Some x => Some x | None => find p l' end.
Proof.
  induction l as [| a l IH]; cbn; [reflexivity |]. now destruct (p a).
Qed.

Lemma yearFlag_not_fourDigits a : isYearFlag a = true -> fourDigits a = false.
Proof.
  unfold isYearFlag. intros H. apply orb_true_iff in H.
  destruct H as [H | H]; apply jsstring_eqb_eq in H; subst; reflexivity.
Qed.

(** C10, as the code has it.  When the first flag token of the argument
    list is its last element, the flag has no value and raises no error of
    its own: the year is the first four-digit argument if there is one,
    otherwise the current year, and that value is what is validated. *)
Theorem parseCliYear_flag_without_value :
  forall (nowYear : jsstring) (pre : list jsstring) (flag : jsstring),
    isYearFlag flag = true ->
    forallb (fun a => negb (isYearFlag a)) pre = true ->
    parseCliYear nowYear (pre ++ [flag])
    = validatedYear (match find fourDigits pre with
                     | Some positional => positional
                     | None => trim nowYear
                     end).
Proof.
  intros nowYear pre flag Hflag Hpre. unfold parseCliYear.
  rewrite (findIndex_last _ pre flag Hpre Hflag).
  replace (nth_error (pre ++ [flag]) (List.length pre + 1)) with (@None jsstring)
    by (symmetry; apply nth_error_None; rewrite length_app; cbn; lia).
  rewrite find_app. cbn [find]. rewrite (yearFlag_not_fourDigits flag Hflag).
  destruct (find fourDigits pre) as [p |] eqn:F; cbn [orElse option_map].
  - apply find_some in F. destruct F as [_ F].
    rewrite (trim_fourDigits p F). apply validation_validatedYear.
  - apply validation_validatedYear.
Qed.

(** ** The identifiers of the events *)

Lemma nibble_range b : 0 <= Z.land b 15 < 16.
Proof.
  change 15 with (Z.ones 4). rewrite Z.land_ones by lia.
  apply Z.mod_pos_bound. reflexivity.
Qed.

Lemma drawId_nibbles rnd : drawId rnd = map letterOf (nibbles rnd).
Proof. unfold drawId, nibbles. now rewrite map_map. Qed.

Lemma nibbles_range rnd : Forall (fun v => 0 <= v < 16) (nibbles rnd).
Proof.
  unfold nibbles. apply Forall_forall. intros v Hv.
  apply in_map_iff in Hv. destruct Hv as (b & <- & _). apply nibble_range.
Qed.

Lemma letterOf_uidChar v : 0 <= v < 16 -> uidChar (letterOf v) = true.
Proof.
  intros H.
  assert (C : v = 0 \/ v = 1 \/ v = 2 \/ v = 3 \/ v = 4 \/ v = 5 \/ v = 6 \/ v = 7
              \/ v = 8 \/ v = 9 \/ v = 10 \/ v = 11 \/ v = 12 \/ v = 13 \/ v = 14
              \/ v = 15) by lia.
  repeat (destruct C as [-> | C]; [vm_compute; reflexivity |]). subst. reflexivity.
Qed.




Lemma drawId_chars rnd : Forall (fun c => uidChar c = true) (drawId rnd).
Proof.
  rewrite drawId_nibbles. apply Forall_forall. intros c Hc.
  apply in_map_iff in Hc. destruct Hc as (v & <- & Hv).
  apply letterOf_uidChar. pose proof (nibbles_range rnd) as R.
  rewrite Forall_forall in R. now apply R.
Qed.




(** ** Lines of the document *)

Lemma split_nonempty sep s : split sep s <> [].
Proof.
  destruct s as [| c s]; cbn; [discriminate |].
  destruct (c =? sep); [discriminate |]. destruct (split sep s); discriminate.
Qed.

Lemma split_at sep a b : split sep (a ++ sep :: b) = split sep a ++ split sep b.
Proof.
  induction a as [| c a IH]; cbn.
  - now rewrite Z.eqb_refl.
  - destruct (c =? sep); [now rewrite IH |].
    rewrite IH. pose proof (split_nonempty sep a).
    destruct (split sep a); [contradiction | reflexivity].
Qed.

Lemma split_prefix sep a b :
  Forall (fun c => c <> sep) a ->
  split sep (a ++ b) = (a ++ hd [] (split sep b)) :: tl (split sep b).
Proof.
  induction 1 as [| c a Hc _ IH]; cbn.
  - pose proof (split_nonempty sep b). destruct (split sep b); [contradiction | reflexivity].
  - destruct (Z.eqb_spec c sep); [contradiction |]. now rewrite IH.
Qed.

Lemma lines_join p ps :
  lines (join [LF] (p :: ps)) = lines p ++ flat_map lines ps.
Proof.
  revert p. induction ps as [| q ps IH]; intros p.
  - cbn. now rewrite app_nil_r.
  - change (join [LF] (p :: q :: ps)) with (p ++ LF :: join [LF] (q :: ps)).
    unfold lines at 1. rewrite split_at. fold (lines p).
    fold (lines (join [LF] (q :: ps))). now rewrite IH.
Qed.

Lemma noIndent_app a b : noIndent (a ++ b) <-> noIndent a /\ noIndent b.
Proof. apply Forall_app. Qed.

Lemma lines_field name value :
  Forall (fun c => c <> LF) name -> leadingSpace name = false -> name <> [] ->
  noIndent (tl (lines value)) -> noIndent (lines (name ++ value)).
Proof.
  intros Hn Hl Hne Hv. unfold lines. rewrite split_prefix by exact Hn.
  constructor; [| exact Hv]. destruct name; [contradiction | exact Hl].
Qed.

Lemma lines_one s : Forall (fun c => c <> LF) s -> lines s = [s].
Proof. apply split_single. Qed.

Lemma noIndent_tail_one s : Forall (fun c => c <> LF) s -> noIndent (tl (lines s)).
Proof. intros H. rewrite lines_one by exact H. constructor. Qed.

Lemma no_LF_check s :
  forallb (fun c => negb (c =? LF)) s = true -> Forall (fun c => c <> LF) s.
Proof.
  rewrite forallb_forall. intros H. apply Forall_forall. intros c Hc.
  specialize (H c Hc). apply negb_true_iff in H. now apply Z.eqb_neq.
Qed.

Ltac literal_facts :=
  repeat match goal with
         | |- Forall _ (str _) => apply no_LF_check; vm_compute; reflexivity
         | |- leadingSpace (str _) = false => vm_compute; reflexivity
         | |- str _ <> [] => vm_compute; discriminate
         end.

Lemma eventText_lines summary dtstart dtend uid :
  noIndent (tl (lines summary)) ->
  Forall (fun c => c <> LF) dtstart -> Forall (fun c => c <> LF) dtend ->
  Forall (fun c => c <> LF) uid ->
  noIndent (lines (eventText summary dtstart dtend uid)).
Proof.
  intros Hs Ha Hb Hu.
  replace (eventText summary dtstart dtend uid)
    with (join [LF] [ str "BEGIN:VEVENT"; str "SUMMARY:" ++ summary;
                      str "DTSTART;VALUE=DATE:" ++ dtstart;
                      str "DTEND;VALUE=DATE:" ++ dtend; str "UID:" ++ uid;
                      str "END:VEVENT" ])
    by (unfold eventText; cbn [join]; rewrite <- ?app_assoc; reflexivity).
  rewrite lines_join. cbn [flat_map]. rewrite app_nil_r.
  rewrite !noIndent_app. repeat split.
  - vm_compute. repeat constructor.
  - apply lines_field; literal_facts; assumption.
  - apply lines_field; literal_facts; now apply noIndent_tail_one.
  - apply lines_field; literal_facts; now apply noIndent_tail_one.
  - apply lines_field; literal_facts; now apply noIndent_tail_one.
  - vm_compute. repeat constructor.
Qed.

(** *** Fields without a line feed *)

Lemma split_chars (P : Z -> Prop) sep s :
  Forall P s -> Forall (Forall P) (split sep s).
Proof.
  induction 1 as [| c s Hc _ IH]; cbn; [repeat constructor |].
  destruct (c =? sep); [constructor; [constructor | exact IH] |].
  destruct (split sep s) as [| p ps]; [repeat constructor; exact Hc |].
  apply Forall_cons_iff in IH. destruct IH as [Hp Hps].
  constructor; [now constructor | exact Hps].
Qed.

Lemma join_chars (P : Z -> Prop) sep parts :
  Forall P sep -> Forall (Forall P) parts -> Forall P (join sep parts).
Proof.
  intros Hsep. induction 1 as [| p ps Hp Hps IH]; cbn; [constructor |].
  destruct ps; [exact Hp |]. rewrite !Forall_app. auto.
Qed.

Lemma formatDate_chars (P : Z -> Prop) s sep :
  P 48 -> Forall P sep -> Forall P s -> Forall P (formatDate s sep).
Proof.
  intros H0 Hsep Hs. unfold formatDate. apply join_chars; [exact Hsep |].
  apply Forall_forall. intros piece Hin. apply in_map_iff in Hin.
  destruct Hin as (q & <- & Hq).
  pose proof (split_chars P HYPHEN s Hs) as Hall. rewrite Forall_forall in Hall.
  unfold padStart2. apply Forall_app. split; [| now apply Hall].
  apply Forall_forall. intros c Hc. apply repeat_spec in Hc. now subst.
Qed.

Lemma toISOStringOf_chars v : Forall (fun c => c <> LF) (toISOStringOf v).
Proof.
  unfold toISOStringOf, isoDate, isoTimeOfDay, isoYear, HYPHEN, LF.
  rewrite !Forall_app.
  repeat split;
    try (apply digitsN_without; lia);
    try (repeat constructor; lia).
  destruct ((0 <=? _) && _); [apply digitsN_without; lia |].
  constructor; [destruct (_ <? 0); lia | apply digitsN_without; lia].
Qed.

Lemma exclusiveEnd_chars g dtend :
  exclusiveEnd g = Some dtend -> Forall (fun c => c <> LF) dtend.
Proof.
  unfold exclusiveEnd. destruct (TimeClip _) as [v |]; [| discriminate].
  intros [= <-]. apply formatDate_chars; [unfold LF; lia | constructor |].
  pose proof (split_chars (fun c => c <> LF) 84 _ (toISOStringOf_chars v)) as H.
  destruct (split 84 (toISOStringOf v)) as [| p ps]; [constructor |].
  cbn [nth]. now apply Forall_inv in H.
Qed.

Lemma drawId_no_LF rnd : Forall (fun c => c <> LF) (drawId rnd).
Proof.
  eapply Forall_impl; [| apply drawId_chars]. cbn beta. intros c Hc.
  unfold uidChar, isDigit, LF in *. apply orb_true_iff in Hc.
  destruct Hc as [Hc | Hc]; apply andb_true_iff in Hc; destruct Hc as [A _];
    apply Z.leb_le in A; lia.
Qed.

(** C9, as the code has it.  The template helper strips the indentation of
    the block it is given, not of the values put into it.  When no message
    has a continuation line that begins with white space and no start key
    has a line feed, no line of the document begins with white space, and
    the document begins with its first header line. *)
Theorem serialize_no_indentation :
  forall (gs : list group) (rnd rnd' : entropy) (doc : jsstring),
    serialize gs rnd = Ok (doc, rnd') ->
    (forall g, In g gs ->
       noIndent (tl (lines (summaryOf (message g))))
       /\ Forall (fun c => c <> LF) (start g)) ->
    noIndent (lines doc)
    /\ hd [] (lines doc) = str "BEGIN:VCALENDAR".
Proof.
  intros gs rnd rnd' doc H Hg. rewrite serialize_run in H.
  destruct (forEach createEvent gs rnd) as [[events r] |] eqn:F; [| discriminate].
  injection H as <- <-. pose proof (forEach_run gs rnd events r F) as R.
  assert (Ev : Forall (fun ev => noIndent (lines ev)) events).
  { clear F. revert R. generalize (draws (List.length gs) rnd) as ds.
    revert events. induction gs as [| g gs IH]; intros events ds R.
    - cbn [combine] in R. inversion R. constructor.
    - destruct ds as [| d ds]; cbn [combine] in R; inversion R as [| ev gr evs grs Hev Hrest];
        subst; [constructor |].
      constructor.
      + destruct Hev as (dtend & E & ->). cbn [fst snd] in *.
        destruct (Hg g (or_introl eq_refl)) as [Hm Hs].
        unfold eventOf. apply eventText_lines; [exact Hm | | | apply drawId_no_LF].
        * apply formatDate_chars; [unfold LF; lia | constructor | exact Hs].
        * exact (exclusiveEnd_chars g dtend E).
      + apply (IH (fun g' Hin => Hg g' (or_intror Hin)) evs ds Hrest). }
  unfold documentOf, header. cbn [app]. rewrite lines_join.
  split.
  - apply noIndent_app. split; [vm_compute; repeat constructor |].
    unfold noIndent. apply Forall_flat_map.
    repeat (constructor; [vm_compute; repeat constructor |]).
    apply Forall_app. split; [exact Ev |].
    constructor; [vm_compute; repeat constructor | constructor].
  - reflexivity.
Qed.

(** ** More on formatDate and text *)

Lemma split_pieces sep s : Forall (Forall (fun c => c <> sep)) (split sep s).
Proof.
  induction s as [| c s IH]; cbn; [repeat constructor |].
  destruct (Z.eqb_spec c sep); [constructor; [constructor | exact IH] |].
  destruct (split sep s) as [| p ps]; [repeat constructor; assumption |].
  apply Forall_cons_iff in IH. destruct IH as [Hp Hps].
  constructor; [now constructor | exact Hps].
Qed.

Lemma split_join sep ps :
  ps <> [] -> Forall (Forall (fun c => c <> sep)) ps -> split sep (join [sep] ps) = ps.
Proof.
  induction ps as [| p ps IH]; intros Hne H; [contradiction |].
  apply Forall_cons_iff in H. destruct H as [Hp Hps].
  destruct ps as [| q ps].
  - cbn. now apply split_single.
  - change (join [sep] (p :: q :: ps)) with (p ++ sep :: join [sep] (q :: ps)).
    rewrite split_app by exact Hp. f_equal. apply IH; [discriminate | exact Hps].
Qed.

Lemma join_split sep s : join [sep] (split sep s) = s.
Proof.
  induction s as [| c s IH]; cbn [split]; [reflexivity |].
  pose proof (split_nonempty sep s) as N.
  destruct (split sep s) as [| p ps]; [contradiction |].
  destruct (Z.eqb_spec c sep) as [-> | Hc].
  - change (join [sep] ([] :: p :: ps)) with ([] ++ [sep] ++ join [sep] (p :: ps)).
    now rewrite IH.
  - destruct ps as [| q ps].
    + cbn [join] in *. now rewrite IH.
    + change (join [sep] ((c :: p) :: q :: ps))
        with (c :: (p ++ [sep] ++ join [sep] (q :: ps))).
      change (join [sep] (p :: q :: ps)) with (p ++ [sep] ++ join [sep] (q :: ps)) in IH.
      now rewrite IH.
Qed.

Lemma padStart2_length s : (2 <= List.length (padStart2 s))%nat.
Proof. unfold padStart2. rewrite length_app, repeat_length. lia. Qed.

Lemma padStart2_idempotent s : padStart2 (padStart2 s) = padStart2 s.
Proof. apply padStart2_long, padStart2_length. Qed.

Lemma padStart2_without_hyphen s :
  Forall (fun c => c <> HYPHEN) s -> Forall (fun c => c <> HYPHEN) (padStart2 s).
Proof.
  intros H. unfold padStart2. apply Forall_app. split; [| exact H].
  apply Forall_forall. intros c Hc. apply repeat_spec in Hc. subst. unfold HYPHEN. lia.
Qed.

Lemma padded_fields s :
  Forall (Forall (fun c => c <> HYPHEN)) (map padStart2 (split HYPHEN s)).
Proof.
  apply Forall_forall. intros f Hf. apply in_map_iff in Hf. destruct Hf as (p & <- & Hp).
  apply padStart2_without_hyphen.
  pose proof (split_pieces HYPHEN s) as H. rewrite Forall_forall in H. now apply H.
Qed.

Lemma fields_of_formatDate s :
  split HYPHEN (formatDate s (str "-")) = map padStart2 (split HYPHEN s).
Proof.
  unfold formatDate. change (str "-") with [HYPHEN].
  apply split_join; [| apply padded_fields].
  pose proof (split_nonempty HYPHEN s). destruct (split HYPHEN s); [contradiction | discriminate].
Qed.

(** X1.  Formatting a key that [formatDate] has already padded and joined
    with hyphens changes nothing more: with any separator the result is
    the one of the original key. *)
Theorem formatDate_of_formatted :
  forall s sep : jsstring,
    formatDate (formatDate s (str "-")) sep = formatDate s sep.
Proof.
  intros s sep. unfold formatDate at 1. rewrite fields_of_formatDate, map_map.
  unfold formatDate. f_equal. apply map_ext. intros f. apply padStart2_idempotent.
Qed.

Lemma join_nothing ps : join [] ps = List.concat ps.
Proof.
  induction ps as [| p ps IH]; [reflexivity |].
  destruct ps as [| q ps]; [cbn; now rewrite app_nil_r |].
  change (join [] (p :: q :: ps)) with (p ++ [] ++ join [] (q :: ps)).
  rewrite IH. reflexivity.
Qed.

Lemma filter_join_hyphen ps :
  Forall (Forall (fun c => c <> HYPHEN)) ps ->
  filter (fun c => negb (c =? HYPHEN)) (join [HYPHEN] ps) = List.concat ps.
Proof.
  assert (Keep : forall p, Forall (fun c => c <> HYPHEN) p ->
                           filter (fun c => negb (c =? HYPHEN)) p = p).
  { intros p Hp. apply forallb_filter_id. apply forallb_forall. intros c Hc.
    rewrite Forall_forall in Hp. apply negb_true_iff, Z.eqb_neq. now apply Hp. }
  induction ps as [| p ps IH]; intros H; [reflexivity |].
  apply Forall_cons_iff in H. destruct H as [Hp Hps].
  destruct ps as [| q ps]; [cbn; rewrite app_nil_r; now apply Keep |].
  change (join [HYPHEN] (p :: q :: ps)) with (p ++ HYPHEN :: join [HYPHEN] (q :: ps)).
  rewrite filter_app, Keep by exact Hp. cbn [filter]. rewrite Z.eqb_refl. cbn [negb].
  rewrite IH by exact Hps. reflexivity.
Qed.

(** X2.  The compact form of a key (separator '') is its hyphenated form
    (separator '-') with the hyphens taken out; the hyphenated form has as
    many fields as the key, each of at least two characters. *)
Theorem formatDate_compact_of_hyphenated :
  forall s : jsstring,
    formatDate s [] = filter (fun c => negb (c =? HYPHEN)) (formatDate s (str "-"))
    /\ List.length (split HYPHEN (formatDate s (str "-"))) = List.length (split HYPHEN s)
    /\ Forall (fun f => (2 <= List.length f)%nat) (split HYPHEN (formatDate s (str "-"))).
Proof.
  intros s. split; [| split].
  - unfold formatDate. change (str "-") with [HYPHEN].
    rewrite filter_join_hyphen by apply padded_fields. apply join_nothing.
  - now rewrite fields_of_formatDate, length_map.
  - rewrite fields_of_formatDate. apply Forall_forall. intros f Hf.
    apply in_map_iff in Hf. destruct Hf as (p & <- & _). apply padStart2_length.
Qed.

Lemma trimStart_head s : leadingSpace (trimStart s) = false.
Proof.
  induction s as [| c s IH]; [reflexivity |]. cbn [trimStart].
  destruct (isWhiteSpace c) eqn:E; [exact IH | cbn; exact E].
Qed.

Lemma trimStart_snoc l c :
  isWhiteSpace c = false -> trimStart (l ++ [c]) = trimStart l ++ [c].
Proof.
  intros Hc. induction l as [| x l IH]; cbn; [now rewrite Hc |].
  destruct (isWhiteSpace x); [exact IH | reflexivity].
Qed.

Lemma trimEnd_head s : leadingSpace s = false -> leadingSpace (trimEnd s) = false.
Proof.
  destruct s as [| c s]; [reflexivity |]. cbn [leadingSpace]. intros Hc.
  unfold trimEnd. cbn [rev]. rewrite trimStart_snoc by exact Hc.
  rewrite rev_app_distr. cbn. exact Hc.
Qed.

(** X3.  Whatever the template and the values, the text built by the
    [text] tag neither begins nor ends with a white-space character. *)
Theorem text_trimmed :
  forall (raw : list jsstring) (param : list (option jsstring)),
    leadingSpace (text raw param) = false
    /\ leadingSpace (rev (text raw param)) = false.
Proof.
  intros raw param. unfold text, trim. split.
  - apply trimEnd_head, trimStart_head.
  - unfold trimEnd. rewrite rev_involutive. apply trimStart_head.
Qed.

(** ** More on createEvent *)

Lemma eventText_join summary dtstart dtend uid :
  eventText summary dtstart dtend uid
  = join [LF] [ str "BEGIN:VEVENT"; str "SUMMARY:" ++ summary;
                str "DTSTART;VALUE=DATE:" ++ dtstart;
                str "DTEND;VALUE=DATE:" ++ dtend; str "UID:" ++ uid;
                str "END:VEVENT" ].
Proof. unfold eventText. cbn [join]. rewrite <- ?app_assoc. reflexivity. Qed.

Lemma lines_count s : (1 <= List.length (lines s))%nat.
Proof.
  unfold lines. pose proof (split_nonempty LF s).
  destruct (split LF s); [contradiction | cbn; lia].
Qed.

(** X4.  Whenever [createEvent] returns, whatever the message and the keys
    hold, the block it returns has at least six lines, the first one is
    BEGIN:VEVENT and the last one END:VEVENT, and one identifier has been
    drawn from the random source. *)
Theorem createEvent_block_frame :
  forall (g : group) (rnd rnd' : entropy) (ev : jsstring),
    createEvent g rnd = Ok (ev, rnd') ->
    hd [] (lines ev) = str "BEGIN:VEVENT"
    /\ last (lines ev) [] = str "END:VEVENT"
    /\ (6 <= List.length (lines ev))%nat
    /\ rnd' = afterId rnd.
Proof.
  intros g rnd rnd' ev H. rewrite createEvent_run in H.
  destruct (exclusiveEnd g) as [dtend |]; [| discriminate].
  injection H as <- <-. unfold eventOf. rewrite eventText_join, lines_join.
  cbn [flat_map]. rewrite app_nil_r.
  replace (lines (str "BEGIN:VEVENT")) with [str "BEGIN:VEVENT"] by (vm_compute; reflexivity).
  replace (lines (str "END:VEVENT")) with [str "END:VEVENT"] by (vm_compute; reflexivity).
  split; [reflexivity | split; [| split; [| reflexivity]]].
  - rewrite !app_assoc. apply last_last.
  - rewrite !length_app. cbn [List.length].
    pose proof (lines_count (str "SUMMARY:" ++ summaryOf (message g))).
    pose proof (lines_count (str "DTSTART;VALUE=DATE:" ++ formatDate (start g) [])).
    pose proof (lines_count (str "DTEND;VALUE=DATE:" ++ dtend)).
    pose proof (lines_count (str "UID:" ++ drawId rnd)). lia.
Qed.

(** X5.  Only the end key decides whether [createEvent] throws: when it
    throws for a range, the exception is the RangeError of [toISOString],
    and it throws it for every range with the same end key, whatever the
    start key, the message and the random source. *)
Theorem createEvent_throws_by_end_key :
  forall (st st' e : jsstring) (msg msg' : option jsstring) (rnd rnd' : entropy) (x : exn),
    createEvent (mkGroup st e msg) rnd = Throw x ->
    x = invalidTime
    /\ createEvent (mkGroup st' e msg') rnd' = Throw invalidTime.
Proof.
  intros st st' e msg msg' rnd rnd' x H. rewrite createEvent_run in *.
  unfold exclusiveEnd in *. cbn [end_] in *.
  destruct (TimeClip _); [discriminate |]. injection H as <-. auto.
Qed.

(** ** More on makeGroups, for every map *)

Lemma messageEq_eq a b : messageEq a b = true <-> a = b.
Proof.
  destruct a as [x |], b as [y |]; cbn; try (split; congruence).
  rewrite jsstring_eqb_eq. split; congruence.
Qed.

Lemma makeGroupsStep_cases m acc el :
  makeGroupsStep m acc el = acc ++ [mkGroup el el (messageOf m el)]
  \/ exists acc' prev,
       acc = acc' ++ [prev]
       /\ messageOf m el = message prev
       /\ makeGroupsStep m acc el = acc' ++ [mkGroup (start prev) el (message prev)].
Proof.
  unfold makeGroupsStep, messageOf.
  destruct (snoc_cases acc) as [-> | (acc' & prev & ->)]; [now left |].
  rewrite lastOf_snoc, removelast_last.
  destruct (truthy _ && messageEq _ _ && _) eqn:C; [right | now left].
  apply andb_true_iff in C. destruct C as [C _].
  apply andb_true_iff in C. destruct C as [_ C]. apply messageEq_eq in C.
  exists acc', prev. auto.
Qed.

Lemma makeGroups_fold_keys m keys ks : forall acc,
  incl ks keys ->
  Forall (fun g => In (start g) keys /\ In (end_ g) keys
                   /\ message g = messageOf m (start g)
                   /\ message g = messageOf m (end_ g)) acc ->
  Forall (fun g => In (start g) keys /\ In (end_ g) keys
                   /\ message g = messageOf m (start g)
                   /\ message g = messageOf m (end_ g))
         (fold_left (makeGroupsStep m) ks acc)
  /\ (List.length (fold_left (makeGroupsStep m) ks acc)
      <= List.length acc + List.length ks)%nat.
Proof.
  induction ks as [| el ks IH]; intros acc Hin Hacc; cbn [fold_left].
  - split; [exact Hacc | cbn; lia].
  - assert (Hel : In el keys) by (apply Hin; now left).
    assert (Hks : incl ks keys) by (intros x Hx; apply Hin; now right).
    destruct (makeGroupsStep_cases m acc el) as [E | (acc' & prev & -> & Em & E)];
      rewrite E.
    + destruct (IH (acc ++ [mkGroup el el (messageOf m el)]) Hks) as [F L].
      * apply Forall_app. split; [exact Hacc |]. repeat constructor; cbn; auto.
      * split; [exact F |]. rewrite length_app in L. cbn in *. lia.
    + apply Forall_app in Hacc. destruct Hacc as [Hacc' Hprev].
      apply Forall_inv in Hprev. destruct Hprev as (A & B & C & D).
      destruct (IH (acc' ++ [mkGroup (start prev) el (message prev)]) Hks) as [F L].
      * apply Forall_app. split; [exact Hacc' |]. repeat constructor; cbn; auto.
      * split; [exact F |]. rewrite !length_app in *. cbn in *. lia.
Qed.

(** X6.  For every map and every engine, [makeGroups] returns at most as
    many ranges as the map has keys; the start and the end of every range
    are keys of the map, and the message of the range is the message the
    map holds for its start key and for its end key. *)
Theorem makeGroups_ranges_from_keys :
  forall m : JsMap,
    (List.length (makeGroups m) <= List.length m)%nat
    /\ forall g, In g (makeGroups m) ->
         In (start g) (Map_keys m) /\ In (end_ g) (Map_keys m)
         /\ message g = messageOf m (start g)
         /\ message g = messageOf m (end_ g).
Proof.
  intros m. unfold makeGroups.
  set (ks := sort _ (Map_keys m)).
  assert (P : Permutation ks (Map_keys m)) by apply sort_perm.
  destruct (makeGroups_fold_keys m (Map_keys m) ks []) as [F L].
  - intros x Hx. now apply (Permutation_in _ P).
  - constructor.
  - split.
    + rewrite (Permutation_length P) in L. unfold Map_keys in L.
      rewrite length_map in L. exact L.
    + rewrite Forall_forall in F. exact F.
Qed.

Lemma rejected_key_stays m k el acc :
  Date_getTime k = None ->
  In (mkGroup k k (messageOf m k)) acc ->
  In (mkGroup k k (messageOf m k)) (makeGroupsStep m acc el).
Proof.
  intros Hk Hin. unfold makeGroupsStep.
  destruct (snoc_cases acc) as [-> | (acc' & prev & ->)]; [destruct Hin |].
  rewrite lastOf_snoc, removelast_last.
  apply in_app_iff in Hin. destruct Hin as [Hin | [Heq | []]].
  - destruct (truthy _ && _ && _); rewrite !in_app_iff; auto.
  - subst prev. cbn [end_]. rewrite Hk. cbn [truthy andb].
    rewrite !in_app_iff. cbn. auto.
Qed.

Lemma rejected_key_opens m k acc :
  Date_getTime k = None ->
  In (mkGroup k k (messageOf m k)) (makeGroupsStep m acc k).
Proof.
  intros Hk. unfold makeGroupsStep. rewrite Hk. fold (messageOf m k).
  destruct (lastOf acc) as [prev |].
  - cbn [numSub]. rewrite !andb_false_r. rewrite in_app_iff. cbn. auto.
  - rewrite in_app_iff. cbn. auto.
Qed.

(** X7.  A key that the engine cannot read is never merged with its
    neighbours: it comes out as a range of its own, with itself as start
    and end and with its own message. *)
Theorem makeGroups_unreadable_key_alone :
  forall (m : JsMap) (k : jsstring),
    In k (Map_keys m) -> Date_getTime k = None ->
    In (mkGroup k k (messageOf m k)) (makeGroups m).
Proof.
  intros m k Hin Hk. unfold makeGroups.
  set (ks := sort _ (Map_keys m)).
  assert (Hks : In k ks)
    by (apply (Permutation_in _ (Permutation_sym (sort_perm _ (Map_keys m)))), Hin).
  clearbody ks. generalize (@nil group) as acc.
  induction ks as [| el ks IH]; intros acc; [destruct Hks |].
  cbn [fold_left]. destruct Hks as [-> | Hks]; [| now apply IH].
  generalize (rejected_key_opens m k acc Hk).
  generalize (makeGroupsStep m acc k) as acc1. clear IH.
  induction ks as [| el ks IH]; intros acc1 H1; cbn [fold_left]; [exact H1 |].
  apply IH. now apply rejected_key_stays.
Qed.

Lemma messageOf_keyMessages m1 m2 k :
  keyMessages m1 = keyMessages m2 -> messageOf m1 k = messageOf m2 k.
Proof.
  unfold keyMessages, messageOf. revert m2.
  induction m1 as [| [k1 a1] m1 IH]; intros [| [k2 a2] m2] E; cbn in E;
    try discriminate; [reflexivity |].
  injection E as -> Ea E. cbn [Map_get].
  destruct (jsstring_eqb k2 k); [cbn; now rewrite Ea | now apply IH].
Qed.

(** X8.  [makeGroups] never reads the holiday and shortened flags: two maps
    with the same keys in the same order and the same messages give the
    same ranges, whatever their flags. *)
Theorem makeGroups_ignores_flags :
  forall m1 m2 : JsMap,
    keyMessages m1 = keyMessages m2 -> makeGroups m1 = makeGroups m2.
Proof.
  intros m1 m2 E. unfold makeGroups.
  assert (K : Map_keys m1 = Map_keys m2).
  { apply (f_equal (map fst)) in E. unfold keyMessages in E.
    rewrite !map_map in E. exact E. }
  rewrite K. apply fold_left_same. intros acc el. unfold makeGroupsStep.
  fold (messageOf m1 el) (messageOf m2 el).
  now rewrite (messageOf_keyMessages m1 m2 el E).
Qed.

(** ** More on makeGroups, for maps of dates *)

Lemma Sorted_snoc {A} (R : A -> A -> Prop) l x :
  Sorted R (l ++ [x]) <-> Sorted R l /\ (forall y, lastOf l = Some y -> R y x).
Proof.
  induction l as [| a l IH]; cbn [app].
  - split; [intros _; split; [constructor | discriminate] | repeat constructor].
  - split.
    + intros H. apply Sorted_inv in H. destruct H as [Hs Ha].
      apply IH in Hs. destruct Hs as [Hs Hx]. split.
      * constructor; [exact Hs |]. destruct l; [constructor |].
        cbn in Ha. apply HdRel_inv in Ha. now constructor.
      * intros y Hy. destruct (snoc_cases l) as [-> | (l' & z & ->)].
        -- cbn in Hy. injection Hy as <-. cbn in Ha. now apply HdRel_inv in Ha.
        -- apply Hx. change (a :: l' ++ [z]) with ((a :: l') ++ [z]) in Hy.
           rewrite lastOf_snoc in Hy. now rewrite lastOf_snoc.
    + intros [Hs Hx]. apply Sorted_inv in Hs. destruct Hs as [Hs Ha].
      constructor.
      * apply IH. split; [exact Hs |]. intros y Hy. apply Hx.
        destruct (snoc_cases l) as [-> | (l' & z & ->)]; [discriminate |].
        rewrite lastOf_snoc in Hy. change (a :: l' ++ [z]) with ((a :: l') ++ [z]).
        now rewrite lastOf_snoc.
      * destruct l as [| b l]; cbn.
        -- constructor. now apply Hx.
        -- constructor. now apply HdRel_inv in Ha.
Qed.

Lemma days_snoc acc g :
  fold_right (fun g t => dayOf (end_ g) - dayOf (start g) + 1 + t) 0 (acc ++ [g])
  = fold_right (fun g t => dayOf (end_ g) - dayOf (start g) + 1 + t) 0 acc
    + (dayOf (end_ g) - dayOf (start g) + 1).
Proof. induction acc as [| h acc IH]; cbn [app fold_right]; [lia | rewrite IH; lia]. Qed.

Lemma walkedOn_nil m : walkedOn m [] [].
Proof. constructor; [intros k g [] | constructor | reflexivity]. Qed.

Lemma walkedOn_step m seen acc el :
  Forall (fun k => keyDay k <> None) (seen ++ [el]) ->
  Forall (fun k => dayOf k < dayOf el) seen ->
  walked seen acc -> walkedOn m seen acc ->
  walkedOn m (seen ++ [el]) (makeGroupsStep m acc el).
Proof.
  intros Hv Hlt [Hends Hapart Hall Honly] [Hmsg Hmax Hdays].
  rewrite Forall_app in Hv. destruct Hv as [Hvs Hvel].
  apply Forall_inv in Hvel. rewrite Forall_forall in Hvs, Hlt, Hends.
  set (fresh := mkGroup el el (option_map Annotation.message (Map_get m el))).
  assert (Below : forall g, In g acc -> dayOf (end_ g) < dayOf el).
  { intros g Hg. destruct (Hends g Hg) as (_ & B & _). now apply Hlt. }
  assert (Fresh : (forall y, lastOf acc = Some y -> ~ mergeable y fresh) ->
                  walkedOn m (seen ++ [el]) (acc ++ [fresh])).
  { intros Hlast. constructor.
    - intros k g Hk Hg Hr. apply in_app_iff in Hk, Hg.
      destruct Hg as [Hg | [<- | []]], Hk as [Hk | [<- | []]].
      + now apply Hmsg.
      + specialize (Below g Hg). lia.
      + cbn in Hr. specialize (Hlt k Hk). lia.
      + reflexivity.
    - apply Sorted_snoc. split; [exact Hmax | exact Hlast].
    - rewrite days_snoc, Hdays, length_app. cbn. lia. }
  destruct (snoc_cases acc) as [-> | (acc' & prev & ->)].
  { apply Fresh. discriminate. }
  assert (Hprev : In prev (acc' ++ [prev])) by (rewrite in_app_iff; cbn; auto).
  destruct (Hends prev Hprev) as (Ps & Pe & Ple).
  rewrite (makeGroupsStep_next m acc' prev el (dayOf el) (dayOf (end_ prev)))
    by (apply keyDay_dayOf; auto).
  fold fresh.
  destruct (negb (dayOf (end_ prev) =? 0) && _ && (dayOf el =? dayOf (end_ prev) + 1))
    eqn:Merge.
  - apply andb_true_iff in Merge. destruct Merge as [Merge Next]. apply Z.eqb_eq in Next.
    apply andb_true_iff in Merge. destruct Merge as [_ Msg]. apply messageEq_eq in Msg.
    apply Sorted_snoc in Hmax. destruct Hmax as [Hmax Hlast].
    constructor.
    + intros k g Hk Hg Hr. apply in_app_iff in Hk, Hg.
      destruct Hg as [Hg | [<- | []]], Hk as [Hk | [<- | []]].
      * apply Hmsg; auto. rewrite in_app_iff. auto.
      * specialize (Below g ltac:(rewrite in_app_iff; auto)). lia.
      * cbn in Hr |- *. apply (Hmsg k prev Hk Hprev). specialize (Hlt k Hk). lia.
      * cbn. symmetry. exact Msg.
    + apply Sorted_snoc. split; [exact Hmax |]. intros y Hy.
      specialize (Hlast y Hy). unfold mergeable in *. cbn. exact Hlast.
    + rewrite days_snoc in *. rewrite length_app. cbn [start end_ List.length]. lia.
  - apply Fresh. intros y Hy. rewrite lastOf_snoc in Hy. injection Hy as <-.
    unfold mergeable. cbn [start message fresh]. intros (Z0 & Msg & Next).
    assert (C : negb (dayOf (end_ prev) =? 0)
                && messageEq (option_map Annotation.message (Map_get m el)) (message prev)
                && (dayOf el =? dayOf (end_ prev) + 1) = true); [| congruence].
    rewrite !andb_true_iff. repeat split.
    + apply negb_true_iff, Z.eqb_neq. exact Z0.
    + apply messageEq_eq. now symmetry.
    + now apply Z.eqb_eq.
Qed.

Lemma walkedOn_fold m ks : forall seen acc,
  Forall (fun k => keyDay k <> None) (seen ++ ks) ->
  StronglySorted (fun a b => dayOf a < dayOf b) (seen ++ ks) ->
  walked seen acc -> walkedOn m seen acc ->
  walkedOn m (seen ++ ks) (fold_left (makeGroupsStep m) ks acc).
Proof.
  induction ks as [| el ks IH]; intros seen acc Hv Hs W O; cbn [fold_left].
  - now rewrite app_nil_r.
  - replace (seen ++ el :: ks) with ((seen ++ [el]) ++ ks) in *
      by (now rewrite <- app_assoc).
    assert (Hel : Forall (fun k => keyDay k <> None) (seen ++ [el]))
      by (now apply Forall_app in Hv).
    assert (Hlt : Forall (fun k => dayOf k < dayOf el) seen).
    { clear - Hs. induction seen as [| a seen IHs]; [constructor |].
      cbn in Hs. apply StronglySorted_inv in Hs. destruct Hs as [Hs Ha].
      constructor; [| now apply IHs].
      rewrite Forall_forall in Ha. apply Ha. rewrite !in_app_iff. cbn. auto. }
    apply IH; [exact Hv | exact Hs | |].
    + now apply walked_step.
    + now apply walkedOn_step.
Qed.

Lemma makeGroups_walkedOn m :
  dateKeys m ->
  exists sortedDates,
    Permutation sortedDates (Map_keys m)
    /\ walked sortedDates (makeGroups m)
    /\ walkedOn m sortedDates (makeGroups m).
Proof.
  intros H. destruct (dateKeys_sorted m H) as (P & V & S).
  eexists. split; [exact P |]. unfold makeGroups. split.
  - apply (walked_fold m _ [] []); cbn; auto using walked_nil.
  - apply (walkedOn_fold m _ [] []); cbn; auto using walked_nil, walkedOn_nil.
Qed.

Lemma Sorted_consecutive {A} (R : A -> A -> Prop) l :
  Sorted R l -> forall i a b, nth_error l i = Some a -> nth_error l (S i) = Some b -> R a b.
Proof.
  induction 1 as [| x l Hs IH Hx]; intros i a b Ha Hb; [destruct i; discriminate |].
  destruct i as [| i].
  - cbn in Ha, Hb. injection Ha as <-. destruct l as [| y l]; [discriminate |].
    cbn in Hb. injection Hb as <-. now apply HdRel_inv in Hx.
  - cbn in Ha. apply (IH i a b Ha). exact Hb.
Qed.

(** X9.  On a map whose keys are calendar dates the ranges are maximal:
    two consecutive ranges never have the same message with the second one
    starting on the day after the first one ends, unless the first one
    ends on day 0 (1970-01-01). *)
Theorem makeGroups_ranges_maximal :
  forall (m : JsMap) (i : nat) (g1 g2 : group) (d : Z),
    dateKeys m ->
    nth_error (makeGroups m) i = Some g1 ->
    nth_error (makeGroups m) (S i) = Some g2 ->
    keyDay (end_ g1) = Some d -> d <> 0 ->
    message g1 = message g2 ->
    keyDay (start g2) <> Some (d + 1).
Proof.
  intros m i g1 g2 d H H1 H2 Hd Hz Hm Hs.
  destruct (makeGroups_walkedOn m H) as (seen & P & W & O).
  apply (Sorted_consecutive _ _ (on_maximal _ _ _ O) i g1 g2 H1 H2).
  unfold mergeable, dayOf. rewrite Hd, Hs. auto.
Qed.

(** X10.  On a map whose keys are calendar dates every key whose day lies
    in the span of a range has the message of that range: a range never
    covers a day annotated with another text. *)
Theorem makeGroups_range_message :
  forall (m : JsMap) (g : group) (k : jsstring) (n : Z),
    dateKeys m ->
    In g (makeGroups m) -> In k (Map_keys m) ->
    keyDay k = Some n -> covers n g = true ->
    message g = messageOf m k.
Proof.
  intros m g k n H Hg Hk Hn Hc.
  destruct (makeGroups_walkedOn m H) as (seen & P & W & O).
  destruct (walked_valid m seen g H P W Hg) as (A & B & _).
  unfold covers in Hc. rewrite A, B in Hc. apply andb_true_iff in Hc.
  destruct Hc as [L1 L2]. apply Z.leb_le in L1, L2.
  apply (on_messages _ _ _ O k g);
    [now apply (Permutation_in _ (Permutation_sym P)) | exact Hg |].
  replace (dayOf k) with n by (unfold dayOf; now rewrite Hn). lia.
Qed.

(** X11.  On a map whose keys are calendar dates the ranges hold as many
    days as the map has keys: the numbers of days of the ranges, both ends
    included, add up to the size of the map. *)
Theorem makeGroups_days_add_up :
  forall m : JsMap,
    dateKeys m -> totalDays (makeGroups m) = Z.of_nat (List.length m).
Proof.
  intros m H. destruct (makeGroups_walkedOn m H) as (seen & P & W & O).
  pose proof (walked_valid m seen) as Valid.
  rewrite <- (length_map fst m). fold (Map_keys m).
  rewrite <- (Permutation_length P), <- (on_days _ _ _ O).
  assert (G : forall gs, (forall g, In g gs -> In g (makeGroups m)) ->
                         totalDays gs
                         = fold_right (fun g t => dayOf (end_ g) - dayOf (start g) + 1 + t) 0 gs).
  { induction gs as [| g gs IH]; intros Hin; [reflexivity |]. cbn [totalDays fold_right].
    fold (totalDays gs). rewrite IH by (intros; apply Hin; now right).
    destruct (Valid g H P W (Hin g (or_introl eq_refl))) as (A & B & _).
    unfold rangeDays. now rewrite A, B. }
  apply G. auto.
Qed.

(** ** The merge rule *)

Lemma starts_after_end_adjacent (gs : list group) (g1 g2 : group) :
  StronglySorted (fun a b => dayOf (end_ a) < dayOf (start b)) gs ->
  Forall (fun g => dayOf (start g) <= dayOf (end_ g)) gs ->
  Sorted (fun a b => ~ mergeable a b) gs ->
  In g1 gs -> In g2 gs ->
  dayOf (start g2) = dayOf (end_ g1) + 1 ->
  ~ mergeable g1 g2.
Proof.
  intros S. induction S as [| x l S IH Hx]; intros F M H1 H2 E; [destruct H1 |].
  apply Forall_cons_iff in F. destruct F as [Fx F].
  apply Sorted_inv in M. destruct M as [M Hd].
  rewrite Forall_forall in Hx.
  destruct H1 as [<- | H1], H2 as [<- | H2].
  - lia.
  - destruct l as [| y l']; [destruct H2 |].
    apply HdRel_inv in Hd. destruct H2 as [<- | H2]; [exact Hd |].
    apply StronglySorted_inv in S. destruct S as [_ Hy]. rewrite Forall_forall in Hy.
    apply Forall_inv in F. specialize (Hx y (or_introl eq_refl)). specialize (Hy g2 H2).
    lia.
  - specialize (Hx g1 H1). rewrite Forall_forall in F. specialize (F g1 H1). lia.
  - now apply IH.
Qed.

(** X24.  On a map whose keys are calendar dates, read as midnights of
    universal time, take a date [k1] other than 1970-01-01 (the program
    only has dates of the years 2020 to 2100) and the date [k2] that comes
    next in the map.  [makeGroups] puts the
    two into one range if and only if [k2] is the calendar day after [k1]
    (one more in the count of days, across the ends of months and years)
    and the two messages are equal; the category flags are not asked. *)
Theorem makeGroups_merge_rule :
  forall (m : JsMap) (k1 k2 : jsstring) (n1 n2 : Z),
    dateKeys m ->
    In k1 (Map_keys m) -> In k2 (Map_keys m) ->
    keyDay k1 = Some n1 -> keyDay k2 = Some n2 ->
    n1 <> 0 -> n1 < n2 ->
    (forall k n, In k (Map_keys m) -> keyDay k = Some n -> n <= n1 \/ n2 <= n) ->
    ((exists g, In g (makeGroups m) /\ covers n1 g = true /\ covers n2 g = true)
     <-> n2 = n1 + 1 /\ messageOf m k1 = messageOf m k2).
Proof.
  intros m k1 k2 n1 n2 H I1 I2 K1 K2 Hz Hlt Next.
  destruct (makeGroups_walkedOn m H) as (seen & P & W & O).
  assert (D1 : dayOf k1 = n1) by (unfold dayOf; now rewrite K1).
  assert (D2 : dayOf k2 = n2) by (unfold dayOf; now rewrite K2).
  assert (S1 : In k1 seen) by now apply (Permutation_in _ (Permutation_sym P)).
  assert (S2 : In k2 seen) by now apply (Permutation_in _ (Permutation_sym P)).
  assert (Cov : forall g n, In g (makeGroups m) ->
                  (covers n g = true <-> dayOf (start g) <= n <= dayOf (end_ g))).
  { intros g n Hg. destruct (walked_valid m seen g H P W Hg) as (A & B & _).
    unfold covers. rewrite A, B, andb_true_iff, !Z.leb_le. tauto. }
  split.
  - intros (g & Hg & C1 & C2). apply (Cov g _ Hg) in C1, C2. split.
    + destruct (walked_only _ _ W g (n1 + 1) Hg ltac:(lia)) as (k & Hk & Ek).
      apply (Permutation_in _ P) in Hk.
      assert (Kk : keyDay k = Some (n1 + 1))
        by (rewrite <- Ek; apply keyDay_dayOf; now apply H).
      destruct (Next k (n1 + 1) Hk Kk); lia.
    + rewrite <- (on_messages _ _ _ O k1 g S1 Hg) by lia.
      apply (on_messages _ _ _ O k2 g S2 Hg). lia.
  - intros [-> E].
    destruct (walked_all _ _ W k1 S1) as (g1 & Hg1 & L1).
    destruct (walked_all _ _ W k2 S2) as (g2 & Hg2 & L2).
    rewrite D1 in L1. rewrite D2 in L2.
    destruct (Z_le_gt_dec (n1 + 1) (dayOf (end_ g1))) as [A | A].
    { exists g1. split; [exact Hg1 |]. split; apply (Cov g1 _ Hg1); lia. }
    destruct (Z_le_gt_dec (dayOf (start g2)) n1) as [B | B].
    { exists g2. split; [exact Hg2 |]. split; apply (Cov g2 _ Hg2); lia. }
    exfalso.
    apply (starts_after_end_adjacent (makeGroups m) g1 g2); try assumption.
    + exact (walked_apart _ _ W).
    + eapply Forall_impl; [| exact (walked_ends _ _ W)]. cbn. tauto.
    + exact (on_maximal _ _ _ O).
    + lia.
    + split; [lia | split; [| lia]].
      rewrite (on_messages _ _ _ O k1 g1 S1 Hg1) by lia.
      rewrite (on_messages _ _ _ O k2 g2 S2 Hg2) by lia. exact E.
Qed.

(** The dates of the years the program accepts lie after 1970-01-01. *)
Lemma MakeDay_after_epoch d : validDate d -> 1971 <= year d -> 0 < MakeDay d.
Proof.
  intros [Hm Hd] Hy. unfold MakeDay, DayFromYear.
  assert (0 <= daysBeforeMonth (year d) (month d)).
  { unfold daysBeforeMonth, leapDay.
    repeat match goal with |- context [if ?b then _ else _] => destruct b end; lia. }
  Z.div_mod_to_equations. lia.
Qed.

Lemma keyDay_after_epoch d :
  validDate d -> 2020 <= year d <= 2100 ->
  exists n, keyDay (dateKey true true d) = Some n /\ n <> 0.
Proof.
  intros V Hy. exists (MakeDay d). split; [apply keyDay_dateKey; [exact V | lia] |].
  pose proof (MakeDay_after_epoch d V ltac:(lia)). lia.
Qed.

(** ** More on the document *)

Lemma exclusiveEnd_dateKey pm pd d st msg :
  validDate d -> 0 <= year d <= 9999 -> year (nextDay d) <= 9999 ->
  exclusiveEnd (mkGroup st (dateKey pm pd d) msg) = Some (yyyymmdd (nextDay d)).
Proof.
  intros V Hy Hn. destruct (validDate_fields d V) as [Hm Hd].
  pose proof (nextDay_valid d V) as Vn.
  destruct (validDate_fields _ Vn) as [Hmn Hdn].
  pose proof (nextDay_year d V) as Hyn.
  unfold exclusiveEnd. cbn [end_].
  rewrite formatDate_hyphen, Date_getTime_dateKey by assumption.
  cbn [numAdd option_map].
  replace (msPerDay * MakeDay d + msPerDay) with (msPerDay * MakeDay (nextDay d))
    by (rewrite MakeDay_nextDay by assumption; lia).
  rewrite TimeClip_small.
  2:{ pose proof (MakeDay_bounds (nextDay d) Vn ltac:(lia)). unfold msPerDay, maxTime. lia. }
  rewrite toISOStringOf_midnight, dateFromDay_MakeDay by assumption. cbn [app].
  rewrite split_app by (apply isoDate_without_T; lia).
  cbn [nth]. rewrite isoDate_dateKey, formatDate_compact by (assumption || lia).
  reflexivity.
Qed.

Lemma forEach_all (gs : list group) : forall rnd,
  (forall g, In g gs -> exclusiveEnd g <> None) ->
  exists events rnd', forEach createEvent gs rnd = Ok (events, rnd').
Proof.
  induction gs as [| g gs IH]; intros rnd H; [cbn; unfold ret; eauto |].
  cbn [forEach]. unfold bind at 1. rewrite createEvent_run.
  destruct (exclusiveEnd g) as [dtend |] eqn:E;
    [| exfalso; apply (H g (or_introl eq_refl)); exact E].
  destruct (IH (afterId rnd) (fun g' Hin => H g' (or_intror Hin))) as (evs & r & F).
  unfold bind at 1. rewrite F. unfold ret. eauto.
Qed.

Lemma makeGroups_ends_are_keys m g :
  In g (makeGroups m) -> In (start g) (Map_keys m) /\ In (end_ g) (Map_keys m).
Proof.
  intros Hg. unfold makeGroups in Hg.
  destruct (makeGroups_fold_keys m (Map_keys m)
              (sort (fun a b => numSub (Date_getTime a) (Date_getTime b)) (Map_keys m)) [])
    as [F _].
  - intros x Hx. eapply Permutation_in; [apply sort_perm | exact Hx].
  - constructor.
  - rewrite Forall_forall in F. destruct (F g Hg) as (A & B & _). auto.
Qed.

Lemma Forall2_impl_right {A B} (P Q : A -> B -> Prop) l l' :
  (forall a b, In b l' -> P a b -> Q a b) -> Forall2 P l l' -> Forall2 Q l l'.
Proof.
  intros H R. induction R as [| a b l l' Hab _ IH]; constructor.
  - apply H; [now left | exact Hab].
  - apply IH. intros a' b' Hin. apply H. now right.
Qed.

Lemma main_on_date_keys (Q : date -> Prop) (pm pd : bool) (m : JsMap) (rnd : entropy) :
  (forall d, Q d -> validDate d /\ 0 <= year d /\ year (nextDay d) <= 9999) ->
  (forall k, In k (Map_keys m) -> exists d, Q d /\ k = dateKey pm pd d) ->
  exists events rnd',
    main m rnd = Ok (documentOf events, rnd')
    /\ Forall2 (fun ev gr =>
                  exists d1 d2,
                    Q d1 /\ Q d2
                    /\ start (fst gr) = dateKey pm pd d1
                    /\ end_ (fst gr) = dateKey pm pd d2
                    /\ ev = eventText (summaryOf (message (fst gr))) (yyyymmdd d1)
                              (yyyymmdd (nextDay d2)) (drawId (snd gr)))
               events
               (combine (makeGroups m) (draws (List.length (makeGroups m)) rnd)).
Proof.
  intros V Key.
  assert (End : forall g, In g (makeGroups m) ->
                  exists d1 d2, Q d1 /\ Q d2
                                /\ start g = dateKey pm pd d1
                                /\ end_ g = dateKey pm pd d2
                                /\ exclusiveEnd g = Some (yyyymmdd (nextDay d2))).
  { intros g Hg. destruct (makeGroups_ends_are_keys m g Hg) as [Hs He].
    destruct (Key _ Hs) as (d1 & H1 & E1). destruct (Key _ He) as (d2 & H2 & E2).
    exists d1, d2. repeat split; auto.
    destruct g as [st en msg]. cbn [start end_] in *. subst en.
    destruct (V d2 H2) as (Vd & Y0 & Y1).
    apply exclusiveEnd_dateKey; auto. pose proof (nextDay_year d2 Vd). lia. }
  destruct (forEach_all (makeGroups m) rnd) as (events & rnd' & F).
  { intros g Hg. destruct (End g Hg) as (d1 & d2 & _ & _ & _ & _ & E). congruence. }
  exists events, rnd'. split.
  - rewrite main_serialize, serialize_run, F. reflexivity.
  - eapply Forall2_impl_right; [| exact (forEach_run (makeGroups m) rnd events rnd' F)].
    cbn beta. intros ev [g r] Hin (dtend & E & ->). cbn [fst snd] in *.
    apply in_combine_l in Hin.
    destruct (End g Hin) as (d1 & d2 & H1 & H2 & Es & Ee & Ex).
    exists d1, d2. repeat split; auto. unfold eventOf.
    rewrite Ex in E. injection E as <-. rewrite Es.
    destruct (V d1 H1) as (Vd & _). destruct (validDate_fields d1 Vd).
    now rewrite formatDate_compact.
Qed.

(** X12.  On a map whose keys are the keys of valid dates with four-digit
    years (the day after each one included), months and days zero-padded
    as in the specification or bare as [parseData] writes them, the run
    never throws, in any engine: [main] returns the document, with one
    event per range in the order of [makeGroups], whose DTSTART is the
    start date and whose DTEND is the day after the end date, both in
    eight digits. *)
Theorem main_total_on_dates :
  forall (pm pd : bool) (m : JsMap) (ds : list date) (rnd : entropy),
    Map_keys m = map (dateKey pm pd) ds ->
    Forall (fun d => validDate d /\ 0 <= year d /\ year (nextDay d) <= 9999) ds ->
    exists events rnd',
      main m rnd = Ok (documentOf events, rnd')
      /\ Forall2 (fun ev gr =>
                    exists d1 d2,
                      In d1 ds /\ In d2 ds
                      /\ start (fst gr) = dateKey pm pd d1
                      /\ end_ (fst gr) = dateKey pm pd d2
                      /\ ev = eventText (summaryOf (message (fst gr))) (yyyymmdd d1)
                                (yyyymmdd (nextDay d2)) (drawId (snd gr)))
                 events
                 (combine (makeGroups m) (draws (List.length (makeGroups m)) rnd)).
Proof.
  intros pm pd m ds rnd K V. rewrite Forall_forall in V.
  apply (main_on_date_keys (fun d => In d ds) pm pd m rnd V).
  intros k Hk. rewrite K in Hk. apply in_map_iff in Hk.
  destruct Hk as (d & E & Hd). exists d. split; [exact Hd | now symmetry].
Qed.

(** X13.  The serializer is all or nothing: it throws exactly when
    [createEvent] throws for one of the ranges, wherever that range stands
    in the sequence, and the only exception it can throw is the RangeError
    of [toISOString]. *)
Theorem serialize_all_or_nothing :
  forall (gs : list group) (rnd : entropy),
    (serialize gs rnd = Throw invalidTime
     <-> exists g, In g gs /\ forall r, createEvent g r = Throw invalidTime)
    /\ (forall e, serialize gs rnd = Throw e -> e = invalidTime).
Proof.
  intros gs rnd.
  assert (Dec : (exists g, In g gs /\ exclusiveEnd g = None)
                \/ forall g, In g gs -> exclusiveEnd g <> None).
  { induction gs as [| g gs IH]; [right; intros g [] |].
    destruct (exclusiveEnd g) eqn:E; [| left; exists g; split; [now left | exact E]].
    destruct IH as [(h & Hh & Eh) | IH]; [left; exists h; split; [now right | exact Eh] |].
    right. intros h [<- | Hh]; [congruence | now apply IH]. }
  rewrite serialize_run.
  destruct Dec as [(g & Hg & E) | All].
  - rewrite (forEach_throws gs rnd g Hg E). split.
    + split; [| reflexivity]. intros _. exists g. split; [exact Hg |].
      intros r. rewrite createEvent_run. now rewrite E.
    + now intros e [= <-].
  - destruct (forEach_all gs rnd All) as (events & rnd' & F). rewrite F. split.
    + split; [discriminate |]. intros (g & Hg & T). exfalso.
      specialize (T rnd). rewrite createEvent_run in T.
      destruct (exclusiveEnd g) eqn:E; [discriminate |]. now apply (All g Hg).
    + discriminate.
Qed.

Lemma flat_map_length_const {A B} (f : A -> list B) c l :
  Forall (fun x => List.length (f x) = c) l ->
  List.length (flat_map f l) = (c * List.length l)%nat.
Proof.
  induction 1 as [| x l Hx _ IH]; cbn [flat_map List.length]; [lia |].
  rewrite length_app, Hx, IH. lia.
Qed.

Lemma eventText_six_lines summary dtstart dtend uid :
  Forall (fun c => c <> LF) summary -> Forall (fun c => c <> LF) dtstart ->
  Forall (fun c => c <> LF) dtend -> Forall (fun c => c <> LF) uid ->
  lines (eventText summary dtstart dtend uid)
  = [ str "BEGIN:VEVENT"; str "SUMMARY:" ++ summary;
      str "DTSTART;VALUE=DATE:" ++ dtstart; str "DTEND;VALUE=DATE:" ++ dtend;
      str "UID:" ++ uid; str "END:VEVENT" ].
Proof.
  intros Hs Ha Hb Hu. rewrite eventText_join, lines_join. cbn [flat_map].
  rewrite app_nil_r.
  assert (L : forall name value,
             Forall (fun c => c <> LF) (str name) -> Forall (fun c => c <> LF) value ->
             lines (str name ++ value) = [str name ++ value]).
  { intros name value Hn Hv. apply lines_one. apply Forall_app. now split. }
  rewrite !L by (assumption || (apply no_LF_check; vm_compute; reflexivity)).
  replace (lines (str "BEGIN:VEVENT")) with [str "BEGIN:VEVENT"] by (vm_compute; reflexivity).
  replace (lines (str "END:VEVENT")) with [str "END:VEVENT"] by (vm_compute; reflexivity).
  reflexivity.
Qed.

(** X14.  When no message and no start key holds a line feed, the document
    has six lines for the header and the closing line and six lines for
    every range. *)
Theorem serialize_line_count :
  forall (gs : list group) (rnd rnd' : entropy) (doc : jsstring),
    serialize gs rnd = Ok (doc, rnd') ->
    (forall g, In g gs ->
       Forall (fun c => c <> LF) (summaryOf (message g))
       /\ Forall (fun c => c <> LF) (start g)) ->
    List.length (lines doc) = (6 + 6 * List.length gs)%nat.
Proof.
  intros gs rnd rnd' doc H Hg. rewrite serialize_run in H.
  destruct (forEach createEvent gs rnd) as [[events r] |] eqn:F; [| discriminate].
  injection H as <- <-. pose proof (forEach_run gs rnd events r F) as R.
  assert (Len : List.length events = List.length gs).
  { apply Forall2_length in R. rewrite R, length_combine.
    assert (D : forall n s, List.length (draws n s) = n)
      by (induction n; intros; cbn; [reflexivity | now rewrite IHn]).
    rewrite D. lia. }
  assert (Ev : Forall (fun ev => List.length (lines ev) = 6%nat) events).
  { clear F Len. revert R. generalize (draws (List.length gs) rnd) as ds.
    revert events. induction gs as [| g gs IH]; intros events ds R.
    - cbn [combine] in R. inversion R. constructor.
    - destruct ds as [| d ds]; cbn [combine] in R;
        inversion R as [| ev gr evs grs Hev Hrest]; subst; [constructor |].
      constructor.
      + destruct Hev as (dtend & E & ->). cbn [fst snd] in *.
        destruct (Hg g (or_introl eq_refl)) as [Hm Hs].
        unfold eventOf. rewrite eventText_six_lines; [reflexivity | exact Hm | | |].
        * apply formatDate_chars; [unfold LF; lia | constructor | exact Hs].
        * exact (exclusiveEnd_chars g dtend E).
        * apply drawId_no_LF.
      + apply (IH (fun g' Hin => Hg g' (or_intror Hin)) evs ds Hrest). }
  unfold documentOf, header. cbn [app]. rewrite lines_join.
  rewrite length_app.
  replace (List.length (lines (str "BEGIN:VCALENDAR"))) with 1%nat by (vm_compute; reflexivity).
  cbn [flat_map]. rewrite !length_app, flat_map_app, length_app.
  rewrite (flat_map_length_const lines 6 events Ev), Len.
  replace (List.length (lines (str "VERSION:2.0"))) with 1%nat by (vm_compute; reflexivity).
  replace (List.length (lines (str "PRODID:-//Work calendar//ical.lexfoxer.com/work//RU")))
    with 1%nat by (vm_compute; reflexivity).
  replace (List.length (lines (str "X-WR-CALNAME:Производственный календарь")))
    with 1%nat by (vm_compute; reflexivity).
  replace (List.length (lines (str "NAME:Производственный календарь")))
    with 1%nat by (vm_compute; reflexivity).
  replace (List.length (flat_map lines [str "END:VCALENDAR"])) with 1%nat
    by (vm_compute; reflexivity).
  lia.
Qed.

(** ** More on parseCliYear and getUrl *)

Lemma parseCliYear_validated nowYear argv :
  exists candidate, parseCliYear nowYear argv = validatedYear candidate.
Proof.
  unfold parseCliYear.
  match goal with
  | |- context [option_map trim ?o] =>
      assert (S : exists y, o = Some y)
        by (unfold orElse; repeat match goal with
                                  | |- context [match ?x with _ => _ end] => destruct x
                                  end; eauto);
      destruct S as (y & ->)
  end.
  cbn [option_map]. exists (trim y). apply validation_validatedYear.
Qed.

Lemma validatedYear_Ok candidate year :
  validatedYear candidate = Ok year ->
  year = candidate /\ fourDigits year = true /\ 2020 <= yearNumber year <= 2100.
Proof.
  unfold validatedYear. destruct (fourDigits candidate) eqn:F; [| discriminate].
  destruct (Z.leb_spec 2020 (yearNumber candidate));
    destruct (Z.leb_spec (yearNumber candidate) 2100); cbn [andb]; try discriminate.
  intros [= <-]. auto.
Qed.

(** X15.  Whatever the arguments and the clock, [parseCliYear] returns only
    a string of exactly four digits whose value lies between 2020 and
    2100, and throws only one of its two errors. *)
Theorem parseCliYear_sound :
  forall (nowYear : jsstring) (argv : list jsstring),
    match parseCliYear nowYear argv with
    | Ok year => fourDigits year = true /\ 2020 <= yearNumber year <= 2100
    | Throw e => e = yearRequired \/ e = yearInvalid
    end.
Proof.
  intros nowYear argv. destruct (parseCliYear_validated nowYear argv) as (c & ->).
  destruct (validatedYear c) as [year | e] eqn:V.
  - now apply validatedYear_Ok in V.
  - unfold validatedYear in V. destruct (fourDigits c); [| injection V as <-; now left].
    destruct (_ && _); [discriminate | injection V as <-; now right].
Qed.

Lemma findIndex_first {A} (p : A -> bool) pre x rest :
  forallb (fun a => negb (p a)) pre = true -> p x = true ->
  findIndex p (pre ++ x :: rest) = Some (List.length pre).
Proof.
  intros Hpre Hx. induction pre as [| a pre IH]; cbn in *.
  - now rewrite Hx.
  - apply andb_true_iff in Hpre. destruct Hpre as [Ha Hpre].
    apply negb_true_iff in Ha. rewrite Ha, (IH Hpre). reflexivity.
Qed.

Lemma findIndex_none {A} (p : A -> bool) l :
  forallb (fun a => negb (p a)) l = true -> findIndex p l = None.
Proof.
  induction l as [| a l IH]; cbn; [reflexivity |]. intros H.
  apply andb_true_iff in H. destruct H as [Ha Hl].
  apply negb_true_iff in Ha. now rewrite Ha, IH.
Qed.

(** X16.  The argument after the first flag token is the year, whatever
    stands elsewhere in the list: it is trimmed and validated, and when it
    is not valid the call throws, a four-digit argument or a [--year=]
    argument elsewhere is not looked at. *)
Theorem parseCliYear_flag_value :
  forall (nowYear : jsstring) (pre rest : list jsstring) (flag value : jsstring),
    isYearFlag flag = true ->
    forallb (fun a => negb (isYearFlag a)) pre = true ->
    parseCliYear nowYear (pre ++ flag :: value :: rest) = validatedYear (trim value).
Proof.
  intros nowYear pre rest flag value Hflag Hpre. unfold parseCliYear.
  rewrite (findIndex_first _ pre flag (value :: rest) Hpre Hflag).
  replace (nth_error (pre ++ flag :: value :: rest) (List.length pre + 1)) with (Some value).
  - cbn [orElse option_map]. apply validation_validatedYear.
  - replace (pre ++ flag :: value :: rest) with ((pre ++ [flag]) ++ value :: rest)
      by (now rewrite <- app_assoc).
    replace (List.length pre + 1)%nat with (List.length (pre ++ [flag]))
      by (rewrite length_app; reflexivity).
    rewrite nth_error_app2 by lia. now rewrite Nat.sub_diag.
Qed.

(** X17.  Without a flag token, the first argument that begins with
    [--year=] gives the year: the text between its first and its second
    equals sign, trimmed and validated, before any four-digit argument. *)
Theorem parseCliYear_assignment_form :
  forall (nowYear : jsstring) (argv : list jsstring) (value : jsstring),
    forallb (fun a => negb (isYearFlag a)) argv = true ->
    find (fun a => startsWith a (str "--year=")) argv = Some (str "--year=" ++ value) ->
    parseCliYear nowYear argv = validatedYear (trim (hd [] (split 61 value))).
Proof.
  intros nowYear argv value Hflags Hfind. unfold parseCliYear.
  rewrite (findIndex_none _ argv Hflags), Hfind.
  replace (nth_error (split 61 (str "--year=" ++ value)) 1)
    with (Some (hd [] (split 61 value))).
  - cbn [orElse option_map]. apply validation_validatedYear.
  - change (str "--year=" ++ value) with (str "--year" ++ 61 :: value).
    rewrite split_app by (apply Forall_forall; vm_compute; intuition lia).
    pose proof (split_nonempty 61 value).
    destruct (split 61 value); [contradiction | reflexivity].
Qed.

(** X18.  Without a flag token and without a [--year=] argument the year is
    the first argument of exactly four digits, and the current year when
    there is none. *)
Theorem parseCliYear_positional_or_now :
  forall (nowYear : jsstring) (argv : list jsstring),
    forallb (fun a => negb (isYearFlag a)) argv = true ->
    find (fun a => startsWith a (str "--year=")) argv = None ->
    parseCliYear nowYear argv
    = validatedYear (match find fourDigits argv with
                     | Some positional => positional
                     | None => trim nowYear
                     end).
Proof.
  intros nowYear argv Hflags Hfind. unfold parseCliYear.
  rewrite (findIndex_none _ argv Hflags), Hfind.
  destruct (find fourDigits argv) as [p |] eqn:F; cbn [orElse option_map].
  - apply find_some in F. destruct F as [_ F].
    rewrite (trim_fourDigits p F). apply validation_validatedYear.
  - apply validation_validatedYear.
Qed.

Lemma decimalFrom_digitsN w : forall fuel n,
  (0 < w <= fuel)%nat -> 10 ^ (Z.of_nat w - 1) <= n < 10 ^ Z.of_nat w ->
  decimalFrom fuel n = digitsN w n.
Proof.
  induction w as [| w IH]; intros fuel n Hw Hn; [lia |].
  destruct fuel as [| fuel]; [lia |]. cbn [decimalFrom digitsN].
  replace (Z.of_nat (S w) - 1) with (Z.of_nat w) in Hn by lia.
  rewrite Nat2Z.inj_succ, Z.pow_succ_r in Hn by lia.
  destruct w as [| w].
  - cbn in Hn. destruct (Z.ltb_spec n 10); [| lia].
    cbn [digitsN app]. rewrite Z.mod_small by lia. reflexivity.
  - assert (P : 10 <= 10 ^ Z.of_nat (S w)).
    { rewrite Nat2Z.inj_succ, Z.pow_succ_r by lia.
      pose proof (Z.pow_pos_nonneg 10 (Z.of_nat w) ltac:(lia) ltac:(lia)). lia. }
    destruct (Z.ltb_spec n 10); [lia |].
    rewrite (IH fuel (n / 10)); [reflexivity | lia |].
    replace (Z.of_nat (S w) - 1) with (Z.of_nat w) by lia.
    rewrite (Nat2Z.inj_succ w), Z.pow_succ_r in * by lia.
    split; [apply Z.div_le_lower_bound; lia | apply Z.div_lt_upper_bound; lia].
Qed.

Lemma digitsN_of_value s : forall n,
  forallb isDigit s = true -> digitsValueFrom 0 s = Some n ->
  digitsN (List.length s) n = s.
Proof.
  induction s as [| c s IH] using rev_ind; intros n D V.
  - reflexivity.
  - rewrite forallb_app in D. apply andb_true_iff in D. destruct D as [Ds Dc].
    cbn in Dc. rewrite andb_true_r in Dc.
    rewrite digitsValueFrom_app in V.
    destruct (digitsValueFrom_total s 0 Ds) as (v & Ev). rewrite Ev in V.
    change (digitsValueFrom v [c])
      with (if isDigit c then Some (10 * v + (c - 48)) else None) in V.
    rewrite Dc in V.
    assert (En : n = 10 * v + (c - 48)) by congruence. subst n. clear V.
    rewrite length_app. cbn [List.length]. rewrite Nat.add_1_r.
    change (digitsN (S (List.length s)) (10 * v + (c - 48)))
      with (digitsN (List.length s) ((10 * v + (c - 48)) / 10)
            ++ [48 + (10 * v + (c - 48)) mod 10]).
    unfold isDigit in Dc. apply andb_true_iff in Dc. destruct Dc as [A B].
    apply Z.leb_le in A, B.
    replace ((10 * v + (c - 48)) / 10) with v by (Z.div_mod_to_equations; lia).
    replace ((10 * v + (c - 48)) mod 10) with (c - 48) by (Z.div_mod_to_equations; lia).
    rewrite (IH v Ds Ev). f_equal. f_equal. lia.
Qed.

(** X19.  The year that [parseCliYear] returns survives the conversion to a
    number that [main] makes for [fetchData]: the address built by
    [getUrl] ends with the very characters of the year. *)
Theorem getUrl_of_parsed_year :
  forall (nowYear : jsstring) (argv : list jsstring) (y : jsstring),
    parseCliYear nowYear argv = Ok y ->
    getUrl (yearNumber y) = str "https://hh.ru/article/calendar" ++ y.
Proof.
  intros nowYear argv y H.
  destruct (parseCliYear_validated nowYear argv) as (c & E). rewrite E in H.
  apply validatedYear_Ok in H. destruct H as (_ & F & R). unfold getUrl. f_equal.
  unfold fourDigits in F. apply andb_true_iff in F. destruct F as [L D].
  apply Nat.eqb_eq in L.
  assert (V : digitsValueFrom 0 y = Some (yearNumber y)).
  { unfold yearNumber, digitsValue. destruct y as [| z y']; [discriminate |].
    destruct (digitsValueFrom_total (z :: y') 0 D) as (n & En). now rewrite En. }
  rewrite <- (digitsN_of_value y _ D V) at 2. rewrite L.
  unfold NumberToString. destruct (Z.ltb_spec (yearNumber y) 0); [lia |].
  apply decimalFrom_digitsN; [| cbn; lia].
  assert (9 <= Z.log2 (yearNumber y)).
  { change 9 with (Z.log2 1000). apply Z.log2_le_mono. lia. }
  lia.
Qed.

(** ** parseData *)

Lemma parseDay_cases year i m c :
  (flagged c = false /\ parseDay year i m c = m)
  \/ (flagged c = true
      /\ parseDay year i m c = Map_set m (cellKey year i c) (cellAnnotation c)).
Proof.
  unfold parseDay, flagged, cellKey, cellAnnotation, shortenedMessage.
  destruct (hasDayOff c), (hasShortened c); cbn [negb andb orb]; auto.
Qed.

Lemma Map_set_entries m k v k' a :
  In (k', a) (Map_set m k v) -> (k' = k /\ a = v) \/ In (k', a) m.
Proof.
  induction m as [| [k0 v0] m IH]; cbn.
  - intros [[= <- <-] | []]. auto.
  - destruct (jsstring_eqb k0 k) eqn:E.
    + apply jsstring_eqb_eq in E. subst k0. intros [[= <- <-] | H]; auto.
    + intros [H | H]; [auto |]. destruct (IH H); auto.
Qed.

Lemma Map_set_keys m k v :
  forall k', In k' (Map_keys (Map_set m k v)) <-> k' = k \/ In k' (Map_keys m).
Proof.
  intros k'. induction m as [| [k0 v0] m IH]; cbn.
  - intuition.
  - destruct (jsstring_eqb k0 k) eqn:E; cbn.
    + apply jsstring_eqb_eq in E. subst k0. intuition.
    + rewrite IH. intuition.
Qed.

Lemma Map_set_NoDup m k v : NoDup (Map_keys m) -> NoDup (Map_keys (Map_set m k v)).
Proof.
  induction m as [| [k0 v0] m IH]; cbn; intros N.
  - repeat constructor. intros [].
  - apply NoDup_cons_iff in N. destruct N as [N0 N].
    destruct (jsstring_eqb k0 k) eqn:E; cbn.
    + constructor; assumption.
    + constructor; [| now apply IH].
      fold (Map_keys (Map_set m k v)). rewrite Map_set_keys. intros [-> | H]; [| tauto].
      rewrite (proj2 (jsstring_eqb_eq k k) eq_refl) in E. discriminate.
Qed.

(** A property of the map that every cell keeps holds of the whole page. *)
Lemma parseMonths_keeps year (P : JsMap -> Prop) :
  (forall i m c, P m -> P (parseDay year i m c)) ->
  forall months i m, P m -> P (parseMonths year i months m).
Proof.
  intros Step. induction months as [| days months IH]; intros i m Hm; [exact Hm |].
  cbn [parseMonths]. apply IH. revert m Hm.
  induction days as [| c days IHd]; intros m Hm; cbn [fold_left]; [exact Hm |].
  apply IHd, Step, Hm.
Qed.

(** X20.  Every annotation that [parseData] stores has at least one of its
    two flags set, a shortened day carries the fixed text of shortened
    days, and no two entries of the map have the same key. *)
Theorem parseData_entries_flagged :
  forall (months : list (list dayCell)) (year : jsstring),
    NoDup (Map_keys (parseData months year))
    /\ forall k a, In (k, a) (parseData months year) ->
         Annotation.holyday a || Annotation.shortened a = true
         /\ (Annotation.shortened a = true -> Annotation.message a = shortenedMessage).
Proof.
  intros months year. unfold parseData. split.
  - apply (parseMonths_keeps year (fun m => NoDup (Map_keys m))); [| constructor].
    intros i m c N.
    destruct (parseDay_cases year i m c) as [[_ E] | [_ E]]; rewrite E;
      [exact N | now apply Map_set_NoDup].
  - apply (parseMonths_keeps year
             (fun m => forall k a, In (k, a) m ->
                Annotation.holyday a || Annotation.shortened a = true
                /\ (Annotation.shortened a = true ->
                    Annotation.message a = shortenedMessage))); [| intros k a []].
    intros i m c Hm k a Hin.
    destruct (parseDay_cases year i m c) as [[_ E] | [F E]]; rewrite E in Hin;
      [exact (Hm k a Hin) |].
    apply Map_set_entries in Hin. destruct Hin as [[_ ->] | Hin]; [| exact (Hm k a Hin)].
    unfold cellAnnotation, flagged in *.
    cbn [Annotation.holyday Annotation.shortened Annotation.message].
    split; [exact F |]. intros ->. reflexivity.
Qed.

Lemma fold_parseDay_entries year i days : forall m k a,
  In (k, a) (fold_left (parseDay year i) days m) ->
  In (k, a) m
  \/ exists c, In c days /\ flagged c = true /\ k = cellKey year i c /\ a = cellAnnotation c.
Proof.
  induction days as [| c days IH]; intros m k a Hin; cbn [fold_left] in Hin; [auto |].
  destruct (IH _ _ _ Hin) as [H | (c' & Hc & F & Ek & Ea)].
  - destruct (parseDay_cases year i m c) as [[_ E] | [F E]]; rewrite E in H; [auto |].
    apply Map_set_entries in H. destruct H as [[-> ->] | H]; [| auto].
    right. exists c. cbn [In]. auto.
  - right. exists c'. cbn [In]. auto.
Qed.

Lemma parseMonths_entries year months : forall i m k a,
  In (k, a) (parseMonths year i months m) ->
  In (k, a) m
  \/ exists j days c,
       nth_error months j = Some days /\ In c days /\ flagged c = true
       /\ k = cellKey year (i + j) c /\ a = cellAnnotation c.
Proof.
  induction months as [| days months IH]; intros i m k a Hin; cbn [parseMonths] in Hin;
    [auto |].
  destruct (IH _ _ _ _ Hin) as [H | (j & ds & c & Hj & Hc & F & Ek & Ea)].
  - destruct (fold_parseDay_entries year i days m k a H) as [H0 | (c & Hc & F & Ek & Ea)];
      [auto |].
    right. exists 0%nat, days, c. rewrite Nat.add_0_r. cbn [nth_error]. auto.
  - right. exists (S j), ds, c. rewrite Nat.add_succ_r. cbn [nth_error]. auto.
Qed.

Lemma fold_parseDay_keys year i days : forall m k,
  In k (Map_keys m)
  \/ (exists c, In c days /\ flagged c = true /\ k = cellKey year i c) ->
  In k (Map_keys (fold_left (parseDay year i) days m)).
Proof.
  induction days as [| c days IH]; intros m k H; cbn [fold_left].
  - destruct H as [H | (c & [] & _)]. exact H.
  - apply IH. destruct (parseDay_cases year i m c) as [[F E] | [F E]]; rewrite E.
    + destruct H as [H | (c' & [<- | Hc] & F' & Ek)]; [auto | congruence | eauto].
    + destruct H as [H | (c' & [<- | Hc] & F' & Ek)].
      * left. apply Map_set_keys. auto.
      * left. apply Map_set_keys. auto.
      * eauto.
Qed.

Lemma parseMonths_keys year months : forall i m k,
  In k (Map_keys m)
  \/ (exists j days c, nth_error months j = Some days /\ In c days /\ flagged c = true
                       /\ k = cellKey year (i + j) c) ->
  In k (Map_keys (parseMonths year i months m)).
Proof.
  induction months as [| days months IH]; intros i m k H; cbn [parseMonths].
  - destruct H as [H | (j & ds & c & Hj & _)]; [exact H | destruct j; discriminate].
  - apply IH. destruct H as [H | (j & ds & c & Hj & Hc & F & Ek)].
    + left. apply fold_parseDay_keys. auto.
    + destruct j as [| j]; cbn in Hj.
      * injection Hj as <-. left. apply fold_parseDay_keys. right.
        exists c. rewrite Nat.add_0_r in Ek. auto.
      * right. exists j, ds, c. rewrite Nat.add_succ_r in Ek. auto.
Qed.

(** X21.  The map of [parseData] holds an entry for a key exactly when a
    cell with one of the two classes writes that key: the key is the year,
    the number of the month block counted from 1 and the trimmed text of
    the cell, joined by hyphens.  Cells without the classes write nothing,
    and every entry is the annotation of such a cell. *)
Theorem parseData_keys_of_cells :
  forall (months : list (list dayCell)) (year k : jsstring),
    (In k (Map_keys (parseData months year))
     <-> exists j days c, nth_error months j = Some days /\ In c days
                          /\ flagged c = true /\ k = cellKey year j c)
    /\ (forall a, In (k, a) (parseData months year) ->
          exists j days c, nth_error months j = Some days /\ In c days
                           /\ flagged c = true /\ k = cellKey year j c
                           /\ a = cellAnnotation c).
Proof.
  intros months year k. unfold parseData. split; [split |].
  - intros Hin. apply in_map_iff in Hin. destruct Hin as ([k' a] & <- & Hin).
    destruct (parseMonths_entries year months 0 [] k' a Hin)
      as [[] | (j & ds & c & Hj & Hc & F & Ek & _)].
    exists j, ds, c. auto.
  - intros H. apply parseMonths_keys. right. exact H.
  - intros a Hin.
    destruct (parseMonths_entries year months 0 [] k a Hin)
      as [[] | (j & ds & c & Hj & Hc & F & Ek & Ea)].
    exists j, ds, c. auto.
Qed.

(** ** From the cells of the page to the events *)

Lemma trimStart_spaces ws s : forallb isWhiteSpace ws = true -> trimStart (ws ++ s) = trimStart s.
Proof.
  induction ws as [| c ws IH]; cbn [app forallb]; [reflexivity |].
  intros H. apply andb_true_iff in H. destruct H as [Hc Hws].
  cbn [trimStart]. rewrite Hc. now apply IH.
Qed.

Lemma trim_digits_between ws1 ws2 s :
  forallb isWhiteSpace ws1 = true -> forallb isWhiteSpace ws2 = true ->
  s <> [] -> Forall (fun c => isDigit c = true) s ->
  trim (ws1 ++ s ++ ws2) = s.
Proof.
  intros H1 H2 Hne Hd. unfold trim. rewrite trimStart_spaces by exact H1.
  destruct s as [| c s]; [contradiction |].
  assert (Hc : isWhiteSpace c = false)
    by (apply digit_not_space; now apply Forall_inv in Hd).
  change ((c :: s) ++ ws2) with (c :: (s ++ ws2)). rewrite trimStart_keep by exact Hc.
  destruct (snoc_cases (c :: s)) as [E | (q & z & E)]; [discriminate |].
  change (c :: s ++ ws2) with ((c :: s) ++ ws2). rewrite E, <- app_assoc. cbn [app].
  apply trimEnd_app_tail; [| exact H2].
  apply digit_not_space. rewrite Forall_forall in Hd. apply Hd.
  rewrite E, in_app_iff. cbn. auto.
Qed.

Lemma dec2_digits n : dec2 n <> [] /\ Forall (fun c => isDigit c = true) (dec2 n).
Proof.
  unfold dec2. destruct (n <? 10); split; try apply digitsN_digits.
  - cbn. discriminate.
  - intros E. apply (f_equal (@List.length Z)) in E. rewrite digitsN_length in E.
    discriminate.
Qed.

Lemma NumberToString_month m : 1 <= m <= 12 -> NumberToString m = dec2 m.
Proof.
  intros H. unfold NumberToString, dec2.
  destruct (Z.ltb_spec m 0); [lia |]. destruct (Z.ltb_spec m 10).
  - cbn [decimalFrom]. destruct (Z.ltb_spec m 10); [| lia].
    cbn [digitsN app]. now rewrite Z.mod_small by lia.
  - apply decimalFrom_digitsN; [| cbn; lia].
    assert (3 <= Z.log2 m) by (change 3 with (Z.log2 10); apply Z.log2_le_mono; lia).
    lia.
Qed.

Lemma cellKey_dateKey y i d c :
  validDate (mkDate y (Z.of_nat i + 1) d) ->
  trim (ownText c) = dec2 d ->
  cellKey (digitsN 4 y) i c = dateKey false false (mkDate y (Z.of_nat i + 1) d).
Proof.
  intros [Hm _] Ht. cbn [month year] in Hm.
  unfold cellKey, dateKey. cbn [year month day].
  now rewrite NumberToString_month, Ht by exact Hm.
Qed.

(** X22.  The keys that [parseData] writes are keys that [createEvent]
    reads: for a cell of month block [i] whose text is the day number [d],
    with white space around it or not, under a four-digit year, the key
    of the cell is the date year-(i+1)-d, and the event of the one-day
    range of that key has that date as DTSTART and the next calendar day
    as DTEND. *)
Theorem createEvent_of_cell :
  forall (y d : Z) (i : nat) (c : dayCell) (ws1 ws2 : jsstring)
         (msg : option jsstring) (rnd : entropy),
    validDate (mkDate y (Z.of_nat i + 1) d) ->
    0 <= y <= 9999 -> year (nextDay (mkDate y (Z.of_nat i + 1) d)) <= 9999 ->
    ownText c = ws1 ++ dec2 d ++ ws2 ->
    forallb isWhiteSpace ws1 = true -> forallb isWhiteSpace ws2 = true ->
    cellKey (digitsN 4 y) i c = dateKey false false (mkDate y (Z.of_nat i + 1) d)
    /\ createEvent (mkGroup (cellKey (digitsN 4 y) i c) (cellKey (digitsN 4 y) i c) msg) rnd
       = Ok (eventText (summaryOf msg) (yyyymmdd (mkDate y (Z.of_nat i + 1) d))
               (yyyymmdd (nextDay (mkDate y (Z.of_nat i + 1) d))) (drawId rnd),
             afterId rnd).
Proof.
  intros y d i c ws1 ws2 msg rnd V Hy Hn Ht H1 H2.
  assert (K : cellKey (digitsN 4 y) i c = dateKey false false (mkDate y (Z.of_nat i + 1) d)).
  { apply cellKey_dateKey; [exact V |]. rewrite Ht.
    destruct (dec2_digits d). now apply trim_digits_between. }
  split; [exact K |]. rewrite K.
  rewrite createEvent_dateKey by assumption.
  unfold bind. rewrite makeId_run. unfold ret.
  destruct (validDate_fields _ V). now rewrite formatDate_compact.
Qed.

(** ** From the page to the document *)

(** X23.  A page whose marked cells all hold a day number of their month
    never makes the run throw: when every cell with the day-off or the
    shortened class in month block [j] has as text a day of month [j+1]
    of the year, with white space around it or not, [main] on the map of
    [parseData] returns the document, in any engine, and every event in
    it has a date of that year as DTSTART and the day after such a date
    as DTEND. *)
Theorem main_of_parseData_total :
  forall (y : Z) (months : list (list dayCell)) (rnd : entropy),
    0 <= y <= 9998 ->
    (forall j days c,
       nth_error months j = Some days -> In c days -> flagged c = true ->
       exists d ws1 ws2,
         ownText c = ws1 ++ dec2 d ++ ws2
         /\ forallb isWhiteSpace ws1 = true /\ forallb isWhiteSpace ws2 = true
         /\ validDate (mkDate y (Z.of_nat j + 1) d)) ->
    exists events rnd',
      main (parseData months (digitsN 4 y)) rnd = Ok (documentOf events, rnd')
      /\ Forall2 (fun ev gr =>
                    exists d1 d2,
                      (validDate d1 /\ year d1 = y) /\ (validDate d2 /\ year d2 = y)
                      /\ ev = eventText (summaryOf (message (fst gr))) (yyyymmdd d1)
                                (yyyymmdd (nextDay d2)) (drawId (snd gr)))
                 events
                 (combine (makeGroups (parseData months (digitsN 4 y)))
                    (draws (List.length (makeGroups (parseData months (digitsN 4 y)))) rnd)).
Proof.
  intros y months rnd Hy Cells.
  destruct (main_on_date_keys (fun d => validDate d /\ year d = y) false false
              (parseData months (digitsN 4 y)) rnd) as (events & rnd' & M & R).
  - intros d [V E]. split; [exact V |]. split; [lia |].
    unfold nextDay.
    repeat match goal with |- context [if ?b then _ else _] => destruct b end; cbn; lia.
  - intros k Hk. unfold parseData in Hk. apply in_map_iff in Hk.
    destruct Hk as ([k' a] & <- & Hin).
    destruct (parseMonths_entries (digitsN 4 y) months 0 [] k' a Hin)
      as [[] | (j & days & c & Hj & Hc & F & Ek & _)].
    destruct (Cells j days c Hj Hc F) as (d & ws1 & ws2 & Ht & H1 & H2 & V).
    exists (mkDate y (Z.of_nat j + 1) d). split; [split; [exact V | reflexivity] |].
    cbn [fst Nat.add] in *. rewrite Ek. apply cellKey_dateKey; [exact V |].
    rewrite Ht. destruct (dec2_digits d). now apply trim_digits_between.
  - exists events, rnd'. split; [exact M |].
    eapply Forall2_impl_right; [| exact R].
    cbn beta. intros ev gr _ (d1 & d2 & Q1 & Q2 & _ & _ & E). exists d1, d2. auto.
Qed.
End Runtime.

(** *** The map as it is filled *)

Lemma Map_set_fresh m k v : ~ In k (Map_keys m) -> Map_set m k v = m ++ [(k, v)].
Proof.
  induction m as [| [k' v'] m IH]; cbn; intros N; [reflexivity |].
  destruct (jsstring_eqb k' k) eqn:E.
  - apply jsstring_eqb_eq in E. tauto.
  - rewrite IH by tauto. reflexivity.
Qed.

(** Entries with distinct keys are kept in the order of their insertion. *)
Lemma Map_of_entries entries : NoDup (map fst entries) -> Map_of entries = entries.
Proof.
  unfold Map_of. intros N.
  assert (G : forall m, NoDup (map fst (m ++ entries)) ->
                        fold_left (fun m kv => Map_set m (fst kv) (snd kv)) entries m
                        = m ++ entries).
  { clear N. induction entries as [| [k v] entries IH]; intros m N; cbn.
    - now rewrite app_nil_r.
    - rewrite Map_set_fresh.
      + rewrite IH; rewrite <- app_assoc; [reflexivity | exact N].
      + rewrite map_app in N. cbn in N. apply NoDup_remove_2 in N.
        intros Hin. apply N. apply in_app_iff. now left. }
  apply (G []). exact N.
Qed.

(** Keys as [parseData] writes them, read by an engine that accepts them. *)
Example makeGroups_unpadded_keys :
  makeGroups paddingEngine
    [ (str "2026-1-10", newYear); (str "2026-1-9", newYear); (str "2026-1-8", newYear) ]
  = [ mkGroup (str "2026-1-8") (str "2026-1-10") (Some (str "New Year")) ].
Proof. vm_compute. reflexivity. Qed.

Lemma createEvent_exclusive_end_witness :
  (validDate (mkDate 2026 1 31) /\ validDate (mkDate 2026 1 31)
   /\ 0 <= 2026 <= 9999 /\ 2026 <= 9999)
  /\ createEvent strictEngine invalidDateText
       (mkGroup (str "2026-1-31") (str "2026-1-31") (Some (str "New Year"))) (fun _ => 0)
     = Ok (eventText (str "New Year") (str "20260131") (str "20260201")
             (drawId (fun _ => 0)), afterId (fun _ => 0)).
Proof.
  assert (V : validDate (mkDate 2026 1 31)) by (split; cbn; lia).
  split; [repeat split; cbn; lia |].
  exact (proj1 (createEvent_exclusive_end strictEngine invalidDateText false false false false
                  (mkDate 2026 1 31) (mkDate 2026 1 31) (Some (str "New Year"))
                  (fun _ => 0) V V ltac:(cbn; lia) ltac:(cbn; lia))).
Defined.

Lemma sampleMap_dateKeys : dateKeys strictEngine sampleMap.
Proof. apply dateKeysb_sound. vm_compute. reflexivity. Qed.

Lemma makeGroups_coverage_witness :
  dateKeys strictEngine sampleMap
  /\ ((forall k, In k (Map_keys sampleMap) ->
         exists n, keyDay strictEngine k = Some n
                   /\ List.length (filter (covers strictEngine n)
                                     (makeGroups strictEngine sampleMap)) = 1%nat)
      /\ (forall g n, In g (makeGroups strictEngine sampleMap) ->
            covers strictEngine n g = true ->
            exists k, In k (Map_keys sampleMap) /\ keyDay strictEngine k = Some n)).
Proof.
  split.
  - apply dateKeysb_sound. vm_compute. reflexivity.
  - apply (makeGroups_coverage strictEngine sampleMap).
    apply dateKeysb_sound. vm_compute. reflexivity.
Defined.

Lemma makeGroups_ordered_witness :
  dateKeys strictEngine sampleMap
  /\ (Forall (fun g => keyLe strictEngine (start g) (end_ g))
        (makeGroups strictEngine sampleMap)
      /\ StronglySorted (fun g1 g2 => keyLt strictEngine (end_ g1) (start g2))
           (makeGroups strictEngine sampleMap)
      /\ StronglySorted (fun g1 g2 => keyLt strictEngine (start g1) (start g2))
           (makeGroups strictEngine sampleMap)).
Proof.
  split.
  - apply dateKeysb_sound. vm_compute. reflexivity.
  - apply (makeGroups_ordered strictEngine sampleMap).
    apply dateKeysb_sound. vm_compute. reflexivity.
Defined.

Lemma makeGroups_insertion_order_witness :
  (dateKeys strictEngine sampleMap /\ Permutation sampleMap (rev sampleMap))
  /\ makeGroups strictEngine sampleMap = makeGroups strictEngine (rev sampleMap).
Proof.
  split; [split |].
  - apply dateKeysb_sound. vm_compute. reflexivity.
  - apply Permutation_rev.
  - apply (makeGroups_insertion_order strictEngine sampleMap (rev sampleMap)).
    + apply dateKeysb_sound. vm_compute. reflexivity.
    + apply Permutation_rev.
Defined.

(** The scenarios of the specification. *)
Example makeGroups_scenario :
  makeGroups strictEngine sampleMap =
  [ mkGroup (str "2026-01-01") (str "2026-01-03") (Some (str "New Year"));
    mkGroup (str "2026-02-14") (str "2026-02-14") (Some (str "Shortened day"));
    mkGroup (str "2026-02-23") (str "2026-02-23") (Some (str "New Year")) ].
Proof. vm_compute. reflexivity. Qed.

(** C3.  [makeGroups] hands the key as it is to [new Date], where
    [createEvent] pads it first.  A key with a bare month or day, as
    [parseData] writes it, is read on the local clock, and the night the
    clocks go forward is 23 hours long: 2026-3-9 is the calendar day after
    2026-3-8 and carries the same message, yet on a host in New York the
    two are not merged.  The same host merges the days before, and the
    same two days when their keys are zero-padded. *)
Theorem makeGroups_clock_change_not_merged :
  makeGroups (localEngine newYork2026)
    [ (str "2026-3-7", Annotation.mk (str "Выходной") true false);
      (str "2026-3-8", Annotation.mk (str "Выходной") true false);
      (str "2026-3-9", Annotation.mk (str "Выходной") true false) ]
  = [ mkGroup (str "2026-3-7") (str "2026-3-8") (Some (str "Выходной"));
      mkGroup (str "2026-3-9") (str "2026-3-9") (Some (str "Выходной")) ]
  /\ makeGroups (localEngine newYork2026)
       [ (str "2026-03-07", Annotation.mk (str "Выходной") true false);
         (str "2026-03-08", Annotation.mk (str "Выходной") true false);
         (str "2026-03-09", Annotation.mk (str "Выходной") true false) ]
     = [ mkGroup (str "2026-03-07") (str "2026-03-09") (Some (str "Выходной")) ]
  /\ numSub (Date_getTime (localEngine newYork2026) (str "2026-3-9"))
            (Date_getTime (localEngine newYork2026) (str "2026-3-8"))
     = Some (23 * 60 * 60 * 1000).
Proof. repeat split; vm_compute; reflexivity. Qed.

Lemma main_rejected_key_aborts_witness :
  (In (str "1 января") (Map_keys [(str "1 января", newYear)])
   /\ Date_getTime strictEngine (str "1 января") = None
   /\ Date_getTime strictEngine (formatDate (str "1 января") (str "-")) = None)
  /\ main strictEngine invalidDateText [(str "1 января", newYear)] (fun _ => 0)
     = Throw (invalidTime invalidDateText).
Proof.
  split; [split; [now left | split; reflexivity] |].
  apply (main_rejected_key_aborts strictEngine invalidDateText
           [(str "1 января", newYear)] (str "1 января") (fun _ => 0));
    [now left | reflexivity | reflexivity].
Defined.

(** C6 as stated fails: the key "2026" is no calendar date, yet the run
    does not stop; the document carries DTSTART 2026 and the guessed DTEND
    20260102. *)
Lemma main_year_only_key_accepted :
  (forall pm pd d, str "2026" <> dateKey pm pd d)
  /\ main strictEngine invalidDateText [(str "2026", newYear)] (fun _ => 0)
     = Ok (documentOf [eventText (str "New Year") (str "2026") (str "20260102")
                         (drawId (fun _ => 0))],
           afterId (fun _ => 0)).
Proof.
  split.
  - intros pm pd d E. apply (f_equal (@List.length Z)) in E.
    change (List.length (str "2026")) with 4%nat in E.
    unfold dateKey in E. rewrite !length_app, digitsN_length in E.
    cbn [List.length] in E. lia.
  - apply main_year_only_key.
Qed.

Lemma parseCliYear_flag_without_value_witness :
  (isYearFlag (str "--year") = true
   /\ forallb (fun a => negb (isYearFlag a)) [str "--dry-run"; str "2031"] = true)
  /\ parseCliYear (str "2026") [str "--dry-run"; str "2031"; str "--year"]
     = validatedYear (str "2031").
Proof.
  split; [split; reflexivity |].
  exact (parseCliYear_flag_without_value (str "2026") [str "--dry-run"; str "2031"]
           (str "--year") eq_refl eq_refl).
Defined.

(** C10 as stated fails when a flag token also stands earlier in the list:
    the last element is a flag without a value, there is no four-digit
    argument and the current year is valid, yet the value after the first
    flag is taken and the call throws. *)
Lemma parseCliYear_earlier_flag :
  lastOf [str "-y"; str "x"; str "-y"] = Some (str "-y")
  /\ isYearFlag (str "-y") = true
  /\ find fourDigits [str "-y"; str "x"; str "-y"] = None
  /\ validatedYear (trim (str "2026")) = Ok (str "2026")
  /\ parseCliYear (str "2026") [str "-y"; str "x"; str "-y"] = Throw yearRequired.
Proof. repeat split; vm_compute; reflexivity. Qed.


(** A stubbed source that returns the same byte for ever repeats its
    draws, and the three events of the document then carry one UID. *)
Example main_repeated_uid :
  main strictEngine invalidDateText sampleMap (fun _ => 0)
  = Ok (documentOf
          [ eventText (str "New Year") (str "20260101") (str "20260104") (repeat 49 50);
            eventText (str "Shortened day") (str "20260214") (str "20260215") (repeat 49 50);
            eventText (str "New Year") (str "20260223") (str "20260224") (repeat 49 50) ],
        fun _ => 0).
Proof. vm_compute. reflexivity. Qed.

Lemma serialize_no_indentation_witness :
  (serialize strictEngine invalidDateText
     [mkGroup (str "2026-01-01") (str "2026-01-03") (Some (str "New Year"))] (fun _ => 7)
   = Ok (documentOf [eventText (str "New Year") (str "20260101") (str "20260104")
                       (repeat 56 50)],
         fun _ => 7)
   /\ (forall g,
         In g [mkGroup (str "2026-01-01") (str "2026-01-03") (Some (str "New Year"))] ->
         noIndent (tl (lines (summaryOf (message g))))
         /\ Forall (fun c => c <> LF) (start g)))
  /\ (noIndent (lines (documentOf [eventText (str "New Year") (str "20260101")
                                     (str "20260104") (repeat 56 50)]))
      /\ hd [] (lines (documentOf [eventText (str "New Year") (str "20260101")
                                     (str "20260104") (repeat 56 50)]))
         = str "BEGIN:VCALENDAR").
Proof.
  assert (H : serialize strictEngine invalidDateText
                [mkGroup (str "2026-01-01") (str "2026-01-03") (Some (str "New Year"))]
                (fun _ => 7)
              = Ok (documentOf [eventText (str "New Year") (str "20260101")
                                  (str "20260104") (repeat 56 50)],
                    fun _ => 7))
    by (vm_compute; reflexivity).
  assert (G : forall g,
             In g [mkGroup (str "2026-01-01") (str "2026-01-03") (Some (str "New Year"))] ->
             noIndent (tl (lines (summaryOf (message g))))
             /\ Forall (fun c => c <> LF) (start g)).
  { intros g [<- | []]. split; vm_compute; repeat constructor; discriminate. }
  split; [split; [exact H | exact G] |].
  exact (serialize_no_indentation strictEngine invalidDateText _ _ _ _ H G).
Defined.

(** C9 as stated fails: a message with an indented continuation line puts
    a line that begins with a space into the document. *)
Lemma serialize_indented_message :
  exists doc rnd',
    serialize strictEngine invalidDateText
      [mkGroup (str "2026-01-01") (str "2026-01-01") (Some indentedMessage)] (fun _ => 0)
    = Ok (doc, rnd')
    /\ nth_error (lines doc) 7 = Some (str " b")
    /\ leadingSpace (str " b") = true.
Proof.
  eexists. eexists. split; [vm_compute; reflexivity |].
  split; vm_compute; reflexivity.
Qed.

Lemma createEvent_block_frame_witness :
  createEvent strictEngine invalidDateText
    (mkGroup (str "2026-1-7") (str "2026-1-8") (Some indentedMessage)) (fun _ => 3)
  = Ok (eventText indentedMessage (str "20260107") (str "20260109") (repeat 52 50),
        fun _ => 3)
  /\ hd [] (lines (eventText indentedMessage (str "20260107") (str "20260109")
                     (repeat 52 50))) = str "BEGIN:VEVENT"
  /\ last (lines (eventText indentedMessage (str "20260107") (str "20260109")
                    (repeat 52 50))) [] = str "END:VEVENT"
  /\ (6 <= List.length (lines (eventText indentedMessage (str "20260107") (str "20260109")
                                 (repeat 52%Z 50))))%nat
  /\ (fun _ : nat => 3) = afterId (fun _ => 3).
Proof.
  assert (H : createEvent strictEngine invalidDateText
                (mkGroup (str "2026-1-7") (str "2026-1-8") (Some indentedMessage))
                (fun _ => 3)
              = Ok (eventText indentedMessage (str "20260107") (str "20260109")
                      (repeat 52 50), fun _ => 3))
    by (vm_compute; reflexivity).
  split; [exact H |].
  exact (createEvent_block_frame strictEngine invalidDateText _ _ _ _ H).
Defined.

Lemma createEvent_throws_by_end_key_witness :
  createEvent strictEngine invalidDateText
    (mkGroup (str "2026-01-01") (str "1 января") None) (fun _ => 0)
  = Throw (invalidTime invalidDateText)
  /\ invalidTime invalidDateText = invalidTime invalidDateText
  /\ createEvent strictEngine invalidDateText
       (mkGroup (str "x") (str "1 января") (Some (str "y"))) (fun _ => 1)
     = Throw (invalidTime invalidDateText).
Proof.
  assert (H : createEvent strictEngine invalidDateText
                (mkGroup (str "2026-01-01") (str "1 января") None) (fun _ => 0)
              = Throw (invalidTime invalidDateText)) by (vm_compute; reflexivity).
  split; [exact H |].
  exact (createEvent_throws_by_end_key strictEngine invalidDateText (str "2026-01-01")
           (str "x") (str "1 января") None (Some (str "y")) (fun _ => 0) (fun _ => 1)
           (invalidTime invalidDateText) H).
Defined.

Lemma makeGroups_unreadable_key_alone_witness :
  (In (str "1 января") (Map_keys [(str "2026-01-01", newYear); (str "1 января", shortDay)])
   /\ Date_getTime strictEngine (str "1 января") = None)
  /\ In (mkGroup (str "1 января") (str "1 января")
           (messageOf [(str "2026-01-01", newYear); (str "1 января", shortDay)]
              (str "1 января")))
        (makeGroups strictEngine [(str "2026-01-01", newYear); (str "1 января", shortDay)]).
Proof.
  split; [split; [right; now left | reflexivity] |].
  apply (makeGroups_unreadable_key_alone strictEngine
           [(str "2026-01-01", newYear); (str "1 января", shortDay)] (str "1 января"));
    [right; now left | reflexivity].
Defined.

Lemma makeGroups_ignores_flags_witness :
  keyMessages sampleMap
  = keyMessages (map (fun kv => (fst kv, Annotation.mk (Annotation.message (snd kv))
                                           false false)) sampleMap)
  /\ makeGroups strictEngine sampleMap
     = makeGroups strictEngine
         (map (fun kv => (fst kv, Annotation.mk (Annotation.message (snd kv)) false false))
            sampleMap).
Proof.
  split; [reflexivity |].
  apply (makeGroups_ignores_flags strictEngine sampleMap
           (map (fun kv => (fst kv, Annotation.mk (Annotation.message (snd kv)) false false))
              sampleMap)).
  reflexivity.
Defined.

Lemma makeGroups_ranges_maximal_witness :
  (dateKeys strictEngine [(str "2026-01-05", newYear); (str "2026-01-01", newYear)]
   /\ nth_error (makeGroups strictEngine
                   [(str "2026-01-05", newYear); (str "2026-01-01", newYear)]) 0
      = Some (mkGroup (str "2026-01-01") (str "2026-01-01") (Some (str "New Year")))
   /\ nth_error (makeGroups strictEngine
                   [(str "2026-01-05", newYear); (str "2026-01-01", newYear)]) 1
      = Some (mkGroup (str "2026-01-05") (str "2026-01-05") (Some (str "New Year")))
   /\ keyDay strictEngine (str "2026-01-01") = Some 20454)
  /\ keyDay strictEngine (str "2026-01-05") <> Some (20454 + 1).
Proof.
  assert (D : dateKeys strictEngine
                [(str "2026-01-05", newYear); (str "2026-01-01", newYear)])
    by (apply dateKeysb_sound; vm_compute; reflexivity).
  assert (H0 : nth_error (makeGroups strictEngine
                            [(str "2026-01-05", newYear); (str "2026-01-01", newYear)]) 0
               = Some (mkGroup (str "2026-01-01") (str "2026-01-01")
                         (Some (str "New Year"))))
    by (vm_compute; reflexivity).
  assert (H1 : nth_error (makeGroups strictEngine
                            [(str "2026-01-05", newYear); (str "2026-01-01", newYear)]) 1
               = Some (mkGroup (str "2026-01-05") (str "2026-01-05")
                         (Some (str "New Year"))))
    by (vm_compute; reflexivity).
  assert (K : keyDay strictEngine (str "2026-01-01") = Some 20454)
    by (vm_compute; reflexivity).
  split; [exact (conj D (conj H0 (conj H1 K))) |].
  exact (makeGroups_ranges_maximal strictEngine _ 0 _ _ 20454 D H0 H1 K
           ltac:(discriminate) eq_refl).
Defined.

Lemma makeGroups_range_message_witness :
  (dateKeys strictEngine sampleMap
   /\ In (mkGroup (str "2026-01-01") (str "2026-01-03") (Some (str "New Year")))
        (makeGroups strictEngine sampleMap)
   /\ In (str "2026-01-02") (Map_keys sampleMap)
   /\ keyDay strictEngine (str "2026-01-02") = Some 20455
   /\ covers strictEngine 20455
        (mkGroup (str "2026-01-01") (str "2026-01-03") (Some (str "New Year"))) = true)
  /\ Some (str "New Year") = messageOf sampleMap (str "2026-01-02").
Proof.
  assert (D : dateKeys strictEngine sampleMap)
    by (apply dateKeysb_sound; vm_compute; reflexivity).
  assert (G : In (mkGroup (str "2026-01-01") (str "2026-01-03") (Some (str "New Year")))
                (makeGroups strictEngine sampleMap))
    by (vm_compute; now left).
  assert (I : In (str "2026-01-02") (Map_keys sampleMap))
    by (vm_compute; tauto).
  assert (K : keyDay strictEngine (str "2026-01-02") = Some 20455)
    by (vm_compute; reflexivity).
  assert (C : covers strictEngine 20455
                (mkGroup (str "2026-01-01") (str "2026-01-03") (Some (str "New Year")))
              = true)
    by (vm_compute; reflexivity).
  split; [exact (conj D (conj G (conj I (conj K C)))) |].
  exact (makeGroups_range_message strictEngine sampleMap _ _ 20455 D G I K C).
Defined.

Lemma makeGroups_days_add_up_witness :
  dateKeys strictEngine sampleMap
  /\ totalDays strictEngine (makeGroups strictEngine sampleMap)
     = Z.of_nat (List.length sampleMap).
Proof.
  assert (D : dateKeys strictEngine sampleMap)
    by (apply dateKeysb_sound; vm_compute; reflexivity).
  split; [exact D |].
  exact (makeGroups_days_add_up strictEngine sampleMap D).
Defined.

Lemma main_total_on_dates_witness :
  (Map_keys [(str "2026-12-31", newYear); (str "2026-2-28", shortDay)]
   = map (dateKey false false) [mkDate 2026 12 31; mkDate 2026 2 28]
   /\ Forall (fun d => validDate d /\ 0 <= year d /\ year (nextDay d) <= 9999)
        [mkDate 2026 12 31; mkDate 2026 2 28])
  /\ exists events rnd',
       main strictEngine invalidDateText [(str "2026-12-31", newYear); (str "2026-2-28", shortDay)]
         (fun _ => 5)
       = Ok (documentOf events, rnd')
       /\ Forall2 (fun ev gr =>
                     exists d1 d2,
                       In d1 [mkDate 2026 12 31; mkDate 2026 2 28]
                       /\ In d2 [mkDate 2026 12 31; mkDate 2026 2 28]
                       /\ start (fst gr) = dateKey false false d1
                       /\ end_ (fst gr) = dateKey false false d2
                       /\ ev = eventText (summaryOf (message (fst gr))) (yyyymmdd d1)
                                 (yyyymmdd (nextDay d2)) (drawId (snd gr)))
            events
            (combine (makeGroups strictEngine
                        [(str "2026-12-31", newYear); (str "2026-2-28", shortDay)])
               (draws (List.length
                         (makeGroups strictEngine
                            [(str "2026-12-31", newYear); (str "2026-2-28", shortDay)]))
                  (fun _ => 5))).
Proof.
  assert (K : Map_keys [(str "2026-12-31", newYear); (str "2026-2-28", shortDay)]
              = map (dateKey false false) [mkDate 2026 12 31; mkDate 2026 2 28])
    by (vm_compute; reflexivity).
  assert (V : Forall (fun d => validDate d /\ 0 <= year d /\ year (nextDay d) <= 9999)
                [mkDate 2026 12 31; mkDate 2026 2 28]).
  { repeat constructor; vm_compute; congruence. }
  split; [split; [exact K | exact V] |].
  exact (main_total_on_dates strictEngine invalidDateText false false _ _ (fun _ => 5) K V).
Defined.

Lemma serialize_line_count_witness :
  (serialize strictEngine invalidDateText
     [mkGroup (str "2026-01-01") (str "2026-01-03") (Some (str "New Year"));
      mkGroup (str "2026-02-14") (str "2026-02-14") None] (fun _ => 7)
   = Ok (documentOf [eventText (str "New Year") (str "20260101") (str "20260104")
                       (repeat 56 50);
                     eventText [] (str "20260214") (str "20260215")
                       (repeat 56 50)],
         fun _ => 7)
   /\ (forall g,
         In g [mkGroup (str "2026-01-01") (str "2026-01-03") (Some (str "New Year"));
               mkGroup (str "2026-02-14") (str "2026-02-14") None] ->
         Forall (fun c => c <> LF) (summaryOf (message g))
         /\ Forall (fun c => c <> LF) (start g)))
  /\ List.length
       (lines (documentOf [eventText (str "New Year") (str "20260101") (str "20260104")
                             (repeat 56 50);
                           eventText [] (str "20260214") (str "20260215")
                             (repeat 56 50)]))
     = (6 + 6 * 2)%nat.
Proof.
  assert (H : serialize strictEngine invalidDateText
                [mkGroup (str "2026-01-01") (str "2026-01-03") (Some (str "New Year"));
                 mkGroup (str "2026-02-14") (str "2026-02-14") None] (fun _ => 7)
              = Ok (documentOf [eventText (str "New Year") (str "20260101")
                                  (str "20260104") (repeat 56 50);
                                eventText [] (str "20260214")
                                  (str "20260215") (repeat 56 50)],
                    fun _ => 7))
    by (vm_compute; reflexivity).
  assert (G : forall g,
             In g [mkGroup (str "2026-01-01") (str "2026-01-03") (Some (str "New Year"));
                   mkGroup (str "2026-02-14") (str "2026-02-14") None] ->
             Forall (fun c => c <> LF) (summaryOf (message g))
             /\ Forall (fun c => c <> LF) (start g)).
  { intros g [<- | [<- | []]]; split; vm_compute; repeat constructor; discriminate. }
  split; [split; [exact H | exact G] |].
  exact (serialize_line_count strictEngine invalidDateText _ _ _ _ H G).
Defined.

Lemma createEvent_of_cell_witness :
  (validDate (mkDate 2026 (Z.of_nat 0 + 1) 7)
   /\ 0 <= 2026 <= 9999
   /\ year (nextDay (mkDate 2026 (Z.of_nat 0 + 1) 7)) <= 9999
   /\ ownText (mkCell true false (str " 7 ") (str "New Year")) = [32] ++ dec2 7 ++ [32]
   /\ forallb isWhiteSpace [32] = true)
  /\ cellKey (digitsN 4 2026) 0 (mkCell true false (str " 7 ") (str "New Year"))
     = dateKey false false (mkDate 2026 (Z.of_nat 0 + 1) 7)
  /\ createEvent strictEngine invalidDateText
       (mkGroup (cellKey (digitsN 4 2026) 0 (mkCell true false (str " 7 ") (str "New Year")))
          (cellKey (digitsN 4 2026) 0 (mkCell true false (str " 7 ") (str "New Year")))
          (Some (str "New Year"))) (fun _ => 0)
     = Ok (eventText (summaryOf (Some (str "New Year")))
             (yyyymmdd (mkDate 2026 (Z.of_nat 0 + 1) 7))
             (yyyymmdd (nextDay (mkDate 2026 (Z.of_nat 0 + 1) 7))) (drawId (fun _ => 0)),
           afterId (fun _ => 0)).
Proof.
  assert (V : validDate (mkDate 2026 (Z.of_nat 0 + 1) 7)) by (split; vm_compute; split; congruence).
  assert (N : year (nextDay (mkDate 2026 (Z.of_nat 0 + 1) 7)) <= 9999)
    by (vm_compute; congruence).
  assert (T : ownText (mkCell true false (str " 7 ") (str "New Year"))
              = [32] ++ dec2 7 ++ [32]) by (vm_compute; reflexivity).
  assert (Y : 0 <= 2026 <= 9999) by lia.
  split; [exact (conj V (conj Y (conj N (conj T eq_refl)))) |].
  exact (createEvent_of_cell strictEngine invalidDateText 2026 7 0 _ [32] [32]
           (Some (str "New Year"))
           (fun _ => 0) V Y N T eq_refl eq_refl).
Defined.

Lemma parseCliYear_flag_value_witness :
  (isYearFlag (str "-y") = true
   /\ forallb (fun a => negb (isYearFlag a)) [str "--dry-run"; str "2031"] = true)
  /\ parseCliYear (str "2026")
       ([str "--dry-run"; str "2031"] ++ str "-y" :: str " 2042 " :: [str "--year"; str "x"])
     = validatedYear (trim (str " 2042 ")).
Proof.
  split; [split; reflexivity |].
  exact (parseCliYear_flag_value (str "2026") [str "--dry-run"; str "2031"]
           [str "--year"; str "x"] (str "-y") (str " 2042 ") eq_refl eq_refl).
Defined.

Lemma parseCliYear_assignment_form_witness :
  (forallb (fun a => negb (isYearFlag a)) [str "2031"; str "--year=2042=x"] = true
   /\ find (fun a => startsWith a (str "--year=")) [str "2031"; str "--year=2042=x"]
      = Some (str "--year=" ++ str "2042=x"))
  /\ parseCliYear (str "2026") [str "2031"; str "--year=2042=x"]
     = validatedYear (trim (hd [] (split 61 (str "2042=x")))).
Proof.
  split; [split; vm_compute; reflexivity |].
  exact (parseCliYear_assignment_form strictEngine (str "2026") [str "2031"; str "--year=2042=x"]
           (str "2042=x") eq_refl eq_refl).
Defined.

Lemma parseCliYear_positional_or_now_witness :
  (forallb (fun a => negb (isYearFlag a)) [str "ics"; str "2031"; str "2042"] = true
   /\ find (fun a => startsWith a (str "--year=")) [str "ics"; str "2031"; str "2042"] = None)
  /\ parseCliYear (str "2026") [str "ics"; str "2031"; str "2042"]
     = validatedYear (match find fourDigits [str "ics"; str "2031"; str "2042"] with
                      | Some positional => positional
                      | None => trim (str "2026")
                      end).
Proof.
  split; [split; reflexivity |].
  exact (parseCliYear_positional_or_now (str "2026") [str "ics"; str "2031"; str "2042"]
           eq_refl eq_refl).
Defined.

Lemma getUrl_of_parsed_year_witness :
  parseCliYear (str "2026") [str "--year"; str "2031"] = Ok (str "2031")
  /\ getUrl (yearNumber (str "2031")) = str "https://hh.ru/article/calendar" ++ str "2031".
Proof.
  split; [reflexivity |].
  exact (getUrl_of_parsed_year strictEngine (str "2026") [str "--year"; str "2031"] (str "2031") eq_refl).
Defined.

Lemma makeGroups_ranges_from_keys_witness :
  In (mkGroup (str "2026-01-01") (str "2026-01-03") (Some (str "New Year")))
    (makeGroups strictEngine sampleMap)
  /\ (List.length (makeGroups strictEngine sampleMap) <= List.length sampleMap)%nat
  /\ In (str "2026-01-01") (Map_keys sampleMap)
  /\ In (str "2026-01-03") (Map_keys sampleMap)
  /\ Some (str "New Year") = messageOf sampleMap (str "2026-01-01")
  /\ Some (str "New Year") = messageOf sampleMap (str "2026-01-03").
Proof.
  assert (G : In (mkGroup (str "2026-01-01") (str "2026-01-03") (Some (str "New Year")))
                (makeGroups strictEngine sampleMap))
    by (vm_compute; now left).
  split; [exact G |].
  destruct (makeGroups_ranges_from_keys strictEngine sampleMap) as [L R].
  split; [exact L |]. exact (R _ G).
Defined.

Lemma serialize_all_or_nothing_witness :
  (forall r, createEvent strictEngine invalidDateText
               (mkGroup (str "2026-02-28") (str "1 января") None) r
             = Throw (invalidTime invalidDateText))
  /\ serialize strictEngine invalidDateText
       [mkGroup (str "2026-01-01") (str "2026-01-03") (Some (str "New Year"));
        mkGroup (str "2026-02-28") (str "1 января") None] (fun _ => 0)
     = Throw (invalidTime invalidDateText).
Proof.
  assert (T : forall r, createEvent strictEngine invalidDateText
                          (mkGroup (str "2026-02-28") (str "1 января") None) r
                        = Throw (invalidTime invalidDateText))
    by (intros r; vm_compute; reflexivity).
  split; [exact T |].
  apply (proj1 (serialize_all_or_nothing strictEngine invalidDateText
                  [mkGroup (str "2026-01-01") (str "2026-01-03") (Some (str "New Year"));
                   mkGroup (str "2026-02-28") (str "1 января") None] (fun _ => 0))).
  exists (mkGroup (str "2026-02-28") (str "1 января") None).
  split; [right; now left | exact T].
Defined.

Lemma parseData_entries_flagged_witness :
  In (str "2026-2-23", Annotation.mk (str "Выходной") true false)
    (parseData [[]; [mkCell false false (str "20") [];
                     mkCell true false (str " 23 ") (str " Выходной день ");
                     mkCell false true (str "27") (str "x")]] (str "2026"))
  /\ true || false = true
  /\ (false = true -> str "Выходной" = shortenedMessage).
Proof.
  assert (I : In (str "2026-2-23", Annotation.mk (str "Выходной") true false)
                (parseData [[]; [mkCell false false (str "20") [];
                                 mkCell true false (str " 23 ") (str " Выходной день ");
                                 mkCell false true (str "27") (str "x")]] (str "2026")))
    by (vm_compute; now left).
  split; [exact I |].
  exact (proj2 (parseData_entries_flagged strictEngine _ (str "2026")) _ _ I).
Defined.

Lemma parseData_keys_of_cells_witness :
  In (str "2026-2-27", Annotation.mk shortenedMessage false true)
    (parseData [[]; [mkCell false false (str "20") [];
                     mkCell true false (str " 23 ") (str " Выходной день ");
                     mkCell false true (str "27") (str "x")]] (str "2026"))
  /\ exists j days c,
       nth_error [[]; [mkCell false false (str "20") [];
                       mkCell true false (str " 23 ") (str " Выходной день ");
                       mkCell false true (str "27") (str "x")]] j = Some days
       /\ In c days /\ flagged c = true /\ str "2026-2-27" = cellKey (str "2026") j c
       /\ Annotation.mk shortenedMessage false true = cellAnnotation c.
Proof.
  assert (I : In (str "2026-2-27", Annotation.mk shortenedMessage false true)
                (parseData [[]; [mkCell false false (str "20") [];
                                 mkCell true false (str " 23 ") (str " Выходной день ");
                                 mkCell false true (str "27") (str "x")]] (str "2026")))
    by (vm_compute; right; now left).
  split; [exact I |].
  exact (proj2 (parseData_keys_of_cells strictEngine _ (str "2026") (str "2026-2-27")) _ I).
Defined.

Lemma main_of_parseData_total_witness :
  (0 <= 2026 <= 9998
   /\ forall j days c,
        nth_error [[mkCell true false (str " 1 ") (str "Выходной день");
                    mkCell false false (str "12") [];
                    mkCell true false (str "2") (str "Выходной день")];
                   [mkCell false true (str "20") []]] j = Some days ->
        In c days -> flagged c = true ->
        exists d ws1 ws2,
          ownText c = ws1 ++ dec2 d ++ ws2
          /\ forallb isWhiteSpace ws1 = true /\ forallb isWhiteSpace ws2 = true
          /\ validDate (mkDate 2026 (Z.of_nat j + 1) d))
  /\ exists events rnd',
       main strictEngine invalidDateText
         (parseData [[mkCell true false (str " 1 ") (str "Выходной день");
                      mkCell false false (str "12") [];
                      mkCell true false (str "2") (str "Выходной день")];
                     [mkCell false true (str "20") []]] (digitsN 4 2026)) (fun _ => 0)
       = Ok (documentOf events, rnd')
       /\ List.length events = 3%nat.
Proof.
  assert (Y : 0 <= 2026 <= 9998) by lia.
  assert (C : forall j days c,
             nth_error [[mkCell true false (str " 1 ") (str "Выходной день");
                         mkCell false false (str "12") [];
                         mkCell true false (str "2") (str "Выходной день")];
                        [mkCell false true (str "20") []]] j = Some days ->
             In c days -> flagged c = true ->
             exists d ws1 ws2,
               ownText c = ws1 ++ dec2 d ++ ws2
               /\ forallb isWhiteSpace ws1 = true /\ forallb isWhiteSpace ws2 = true
               /\ validDate (mkDate 2026 (Z.of_nat j + 1) d)).
  { intros [| [| [| j]]] days c Hj; try discriminate Hj.
    - injection Hj as <-. intros [<- | [<- | [<- | []]]] F; try discriminate F.
      + exists 1, [32], [32]. repeat split; vm_compute; congruence.
      + exists 2, [], []. repeat split; vm_compute; congruence.
    - injection Hj as <-. intros [<- | []] _.
      exists 20, [], []. repeat split; vm_compute; congruence. }
  split; [exact (conj Y C) |].
  destruct (main_of_parseData_total strictEngine invalidDateText 2026 _ (fun _ => 0) Y C)
    as (events & rnd' & M & R).
  exists events, rnd'. split; [exact M |].
  apply Forall2_length in R. rewrite R. vm_compute. reflexivity.
Defined.

Lemma makeGroups_merge_rule_witness :
  (dateKeys strictEngine
     [(str "2027-01-01", Annotation.mk (str "X") true false);
      (str "2026-12-31", Annotation.mk (str "X") false true)]
   /\ keyDay strictEngine (str "2026-12-31") = Some 20818
   /\ keyDay strictEngine (str "2027-01-01") = Some 20819
   /\ 20818 <> 0 /\ 20818 < 20819)
  /\ exists g,
       In g (makeGroups strictEngine
               [(str "2027-01-01", Annotation.mk (str "X") true false);
                (str "2026-12-31", Annotation.mk (str "X") false true)])
       /\ covers strictEngine 20818 g = true /\ covers strictEngine 20819 g = true.
Proof.
  assert (D : dateKeys strictEngine
                [(str "2027-01-01", Annotation.mk (str "X") true false);
                 (str "2026-12-31", Annotation.mk (str "X") false true)])
    by (apply dateKeysb_sound; vm_compute; reflexivity).
  assert (K1 : keyDay strictEngine (str "2026-12-31") = Some 20818)
    by (vm_compute; reflexivity).
  assert (K2 : keyDay strictEngine (str "2027-01-01") = Some 20819)
    by (vm_compute; reflexivity).
  assert (Z0 : 20818 <> 0) by discriminate.
  assert (L : 20818 < 20819) by reflexivity.
  split; [exact (conj D (conj K1 (conj K2 (conj Z0 L)))) |].
  apply (makeGroups_merge_rule strictEngine
           [(str "2027-01-01", Annotation.mk (str "X") true false);
            (str "2026-12-31", Annotation.mk (str "X") false true)]
           (str "2026-12-31") (str "2027-01-01") 20818 20819 D
           ltac:(right; now left) ltac:(now left) K1 K2 Z0 L).
  - intros k n [<- | [<- | []]] E; vm_compute in E; injection E as <-; lia.
  - split; reflexivity.
Defined.
